(** * currency-codes-country-codes-flags: index and query engine

    A shallow embedding of [src/index.js], [src/utils.js] and of the record
    construction and the record writer of [scripts/generate-data.mjs],
    followed by the properties the specification states about them.

    Conventions of the embedding.
    - A JavaScript string is a [string], the sequence of its code units.
      [JsString]'s [trim], [toUpperCase] and [toLowerCase] are the ASCII
      restrictions of the ECMAScript operations: they leave code units
      above 127 alone.  Parts II and III use them for the codes (ISO 4217
      and ISO 3166, ASCII) and for what does not depend on the text of a
      name.
    - What is said of names and name queries, which hold text beyond ASCII,
      is proved in Part IV over the platform's own [trim], [toUpperCase] and
      [toLowerCase], taken as parameters ([StringOps], [Platform]).
    - A JavaScript [Map] and [Set] iterate in insertion order and the query
      functions return arrays in that order, so a [Map] is an association
      list whose [set] overwrites in place or appends, and a [Set] is a
      duplicate-free list whose [add] appends.
    - [Map.prototype.get] may answer [undefined]: it returns an [option].
      An array built from such answers is a [list (option _)].
    - A thrown exception is the left summand of ExtLib's error monad.
    - [src/data.js] is generated and not part of the sources: the dataset
      [currencyCountryData] and the alias table [currencyNameAliases] are
      parameters of the engine.  [DataFile] has the text [formatRecord]
      writes for a record and the value the language gives to each string
      literal of that text when the file is imported. *)

From Stdlib Require Import String Ascii List Bool Arith Lia NArith Sorted.
From ExtLib Require Import Structures.Monad Structures.MonadExc.
From ExtLib Require Import Data.Monads.EitherMonad.
Import ListNotations.
Local Open Scope string_scope.
Local Open Scope bool_scope.

(* ===================================================================== *)
(** * Part I: the embedding *)
(* ===================================================================== *)

(** ** JavaScript strings *)

Module JsString.

Definition in_range (lo hi c : ascii) : bool :=
  (nat_of_ascii lo <=? nat_of_ascii c)%nat && (nat_of_ascii c <=? nat_of_ascii hi)%nat.

Definition is_lower (c : ascii) : bool := in_range "a" "z" c.
Definition is_upper (c : ascii) : bool := in_range "A" "Z" c.

(** WhiteSpace and LineTerminator code points below 128: TAB, LF, VT, FF,
    CR and SPACE. *)
Definition is_ws (c : ascii) : bool :=
  match nat_of_ascii c with
  | 9 | 10 | 11 | 12 | 13 | 32 => true
  | _ => false
  end.

Definition upper_char (c : ascii) : ascii :=
  if is_lower c then ascii_of_nat (nat_of_ascii c - 32) else c.

Definition lower_char (c : ascii) : ascii :=
  if is_upper c then ascii_of_nat (nat_of_ascii c + 32) else c.

Fixpoint map_chars (f : ascii -> ascii) (s : string) : string :=
  match s with
  | EmptyString => EmptyString
  | String c r => String (f c) (map_chars f r)
  end.

(** [String.prototype.toUpperCase] and [toLowerCase] on ASCII text; the
    letters beyond ASCII, which the platform maps as well, are left alone. *)
Definition toUpperCase : string -> string := map_chars upper_char.
Definition toLowerCase : string -> string := map_chars lower_char.

Fixpoint trimStart (s : string) : string :=
  match s with
  | EmptyString => EmptyString
  | String c r => if is_ws c then trimStart r else s
  end.

Fixpoint trimEnd (s : string) : string :=
  match s with
  | EmptyString => EmptyString
  | String c r =>
      match trimEnd r with
      | EmptyString => if is_ws c then EmptyString else String c EmptyString
      | r' => String c r'
      end
  end.

(** The string does not begin with white space. *)
Definition no_leading_ws (s : string) : Prop :=
  match s with
  | EmptyString => True
  | String c _ => is_ws c = false
  end.

(** [String.prototype.trim] for the white space below 128; the platform
    also removes the white space beyond ASCII. *)
Definition trim (s : string) : string := trimEnd (trimStart s).

(** [h.startsWith(q)]. *)
Fixpoint startsWith (h q : string) : bool :=
  match q, h with
  | EmptyString, _ => true
  | String _ _, EmptyString => false
  | String b q', String a h' => Ascii.eqb a b && startsWith h' q'
  end.

(** [h.includes(q)]: [q] occurs in [h] at some position. *)
Fixpoint includes (h q : string) : bool :=
  startsWith h q ||
  match h with
  | EmptyString => false
  | String _ h' => includes h' q
  end.

Fixpoint all_chars (p : ascii -> bool) (s : string) : bool :=
  match s with
  | EmptyString => true
  | String c r => p c && all_chars p r
  end.

(** Truthiness of a string: only the empty string is falsy. *)
Definition truthy (s : string) : bool := negb (String.eqb s "").

(** [Array.prototype.join]. *)
Definition join (sep : string) (l : list string) : string := String.concat sep l.

(** [Array.prototype.includes] on an array of strings. *)
Definition array_includes (l : list string) (x : string) : bool :=
  existsb (String.eqb x) l.

End JsString.
Import JsString.

(** ** JavaScript [Map] and [Set], in insertion order *)

Module JsMap.
Section Ops.
Context {V : Type}.

Definition t := list (string * V).

(** [m.get(k)]; [None] is [undefined]. *)
Fixpoint get (k : string) (m : t) : option V :=
  match m with
  | [] => None
  | (k', v) :: m' => if String.eqb k k' then Some v else get k m'
  end.

(** [m.has(k)]. *)
Fixpoint has (k : string) (m : t) : bool :=
  match m with
  | [] => false
  | (k', _) :: m' => String.eqb k k' || has k m'
  end.

(** [m.set(k, v)]: an existing key keeps its position and takes the new
    value, a new key goes last. *)
Fixpoint set (k : string) (v : V) (m : t) : t :=
  match m with
  | [] => [(k, v)]
  | (k', v') :: m' =>
      if String.eqb k k' then (k', v) :: m' else (k', v') :: set k v m'
  end.

(** [Array.from(m.keys())], [Array.from(m.values())]. *)
Definition keys (m : t) : list string := map fst m.
Definition values (m : t) : list V := map snd m.
End Ops.
Arguments t : clear implicits.
End JsMap.

Module JsSet.
Definition t := list string.

(** [s.has(x)]. *)
Definition has (x : string) (s : t) : bool := existsb (String.eqb x) s.

(** [s.add(x)]: adding a member again changes nothing. *)
Definition add (x : string) (s : t) : t := if has x s then s else (s ++ [x])%list.

(** [new Set(values)]. *)
Definition of_list (values : list string) : t :=
  fold_left (fun s x => add x s) values [].
End JsSet.

(** ** [src/utils.js] *)

Definition normalizeCurrencyCode (code : string) : string :=
  if negb (truthy code) then "" else toUpperCase (trim code).

Definition normalizeCountryCode (code : string) : string :=
  if negb (truthy code) then "" else toUpperCase (trim code).

(** [Array.from(new Set(values))]. *)
Definition uniqueArray (values : list string) : list string :=
  JsSet.of_list values.

Definition toFlagFilename (countryCode : string) : string :=
  toLowerCase (normalizeCountryCode countryCode) ++ ".svg".

(** An exception value. *)
Inductive JsError : Type :=
| TypeError (message : string).

(** The outcome of evaluating an expression: [inl e] when it throws [e]. *)
Definition completion : Type -> Type := sum JsError.

(** A nullable value; [None] is [null]. *)
Definition nullable (A : Type) : Type := option A.

Section Flags.

(** [new URL(reference, import.meta.url).toString()]: the platform's URL
    parser applied to a relative reference and the module's own location.
    It returns the serialised URL or throws. *)
Variable URL_toString : string -> completion string.

Definition flagUrlFromCountryCode (countryCode : string) : completion string :=
  let filename := toFlagFilename countryCode in
  URL_toString ("../flags/" ++ filename).

(** The argument is [None] when the caller passes [null] or [undefined]. *)
Definition getFlagUrlByCountryCode (countryCode : option string)
  : completion (nullable string) :=
  match countryCode with
  | None => ret None
  | Some code =>
      if negb (truthy code) then ret None
      else
        catch (bind (flagUrlFromCountryCode code) (fun url => ret (Some url)))
              (fun _ => ret None)
  end.

End Flags.

(** ** The dataset and the indices of [src/index.js] *)

(** An element of [currencyCountryData]; [otherCountryCodes] may be absent. *)
Record RawEntry : Type := mkRawEntry {
  raw_currencyCode : string;
  raw_currencyName : string;
  raw_primaryCountryCode : string;
  raw_otherCountryCodes : option (list string)
}.

(** The object stored in [codeToCurrency]. *)
Record CurrencyRecord : Type := mkCurrencyRecord {
  currencyCode : string;
  currencyName : string;
  primaryCountryCode : string;
  otherCountryCodes : list string
}.

(** [currencyNameAliases]: an object from currency code to array of names;
    [None] when the property is absent. *)
Definition AliasTable : Type := string -> option (list string).

(** [x || []]. *)
Definition or_empty {A : Type} (x : option (list A)) : list A :=
  match x with Some l => l | None => [] end.

Record Indices : Type := mkIndices {
  idx_codeToCurrency : JsMap.t CurrencyRecord;
  idx_countryToCurrencyCodes : JsMap.t JsSet.t;
  idx_nameHaystackByCode : JsMap.t string
}.

Definition empty_indices : Indices := mkIndices [] [] [].

(** The object [normalized] of the loop body. *)
Definition normalized_entry (entry : RawEntry) : CurrencyRecord :=
  mkCurrencyRecord
    (normalizeCurrencyCode (raw_currencyCode entry))
    (raw_currencyName entry)
    (normalizeCountryCode (raw_primaryCountryCode entry))
    (map normalizeCountryCode (or_empty (raw_otherCountryCodes entry))).

(** The closure [push] of the loop body, for the currency code [ccy]. *)
Definition push (ccy : string) (countryToCurrencyCodes : JsMap.t JsSet.t)
  (countryCode : string) : JsMap.t JsSet.t :=
  let key := normalizeCountryCode countryCode in
  let m : JsMap.t JsSet.t :=
    if negb (JsMap.has key countryToCurrencyCodes)
    then JsMap.set key [] countryToCurrencyCodes
    else countryToCurrencyCodes in
  match JsMap.get key m with
  | Some s => JsMap.set key (JsSet.add ccy s) m
  | None => m (* not reached: [key] was just made present *)
  end.

(** The haystack stored for an entry. *)
Definition haystack_of (currencyNameAliases : AliasTable) (ccy name : string) : string :=
  let aliases := join "|" (or_empty (currencyNameAliases ccy)) in
  toLowerCase (name ++ "|" ++ aliases).

(** One iteration of [for (const entry of currencyCountryData)]. *)
Definition index_entry (currencyNameAliases : AliasTable) (idx : Indices)
  (entry : RawEntry) : Indices :=
  let normalized := normalized_entry entry in
  let ccy := currencyCode normalized in
  let primary := primaryCountryCode normalized in
  let others := otherCountryCodes normalized in
  let c2c := JsMap.set ccy normalized (idx_codeToCurrency idx) in
  let hay := JsMap.set ccy (haystack_of currencyNameAliases ccy (raw_currencyName entry))
               (idx_nameHaystackByCode idx) in
  let ctc := fold_left (push ccy) others
               (push ccy (idx_countryToCurrencyCodes idx) primary) in
  mkIndices c2c ctc hay.

(** The three maps once the module has been loaded. *)
Definition build_indices (currencyCountryData : list RawEntry)
  (currencyNameAliases : AliasTable) : Indices :=
  fold_left (index_entry currencyNameAliases) currencyCountryData empty_indices.

(** ** The public API of [src/index.js] *)

(** The character class [[a-zA-Z-]]. *)
Definition letter_or_hyphen (c : ascii) : bool :=
  is_lower c || is_upper c || Ascii.eqb c "-".

(** [/^[a-zA-Z-]{2,5}$/.test(q)]: the whole of [q] is two to five characters
    of the class. *)
Definition countryPattern_test (q : string) : bool :=
  (2 <=? String.length q)%nat && (String.length q <=? 5)%nat
  && all_chars letter_or_hyphen q.

Section Engine.

Variable currencyCountryData : list RawEntry.
Variable currencyNameAliases : AliasTable.

Definition codeToCurrency : JsMap.t CurrencyRecord :=
  idx_codeToCurrency (build_indices currencyCountryData currencyNameAliases).
Definition countryToCurrencyCodes : JsMap.t JsSet.t :=
  idx_countryToCurrencyCodes (build_indices currencyCountryData currencyNameAliases).
Definition nameHaystackByCode : JsMap.t string :=
  idx_nameHaystackByCode (build_indices currencyCountryData currencyNameAliases).

Definition getAllCurrencyEntries : list CurrencyRecord :=
  JsMap.values codeToCurrency.

Definition getCurrencyByCode (currencyCode : string) : nullable CurrencyRecord :=
  let key := normalizeCurrencyCode currencyCode in
  JsMap.get key codeToCurrency.

Definition getCurrenciesByCountryCode (countryCode : string)
  : list (option CurrencyRecord) :=
  let key := normalizeCountryCode countryCode in
  match JsMap.get key countryToCurrencyCodes with
  | None => []
  | Some set => map (fun ccy => JsMap.get ccy codeToCurrency) set
  end.

Definition getPrimaryCountryForCurrency (currencyCode : string) : nullable string :=
  match getCurrencyByCode currencyCode with
  | Some data => Some (primaryCountryCode data)
  | None => None
  end.

Definition getOtherCountriesForCurrency (currencyCode : string) : list string :=
  match getCurrencyByCode currencyCode with
  | Some data => otherCountryCodes data
  | None => []
  end.

(** The loop pushes onto [results] in the order of the map. *)
Definition findCurrenciesByName (query : string) : list (option CurrencyRecord) :=
  if negb (truthy query) then []
  else
    let q := toLowerCase (trim query) in
    fold_left
      (fun results '(code, haystack) =>
         if includes haystack q
         then (results ++ [JsMap.get code codeToCurrency])%list
         else results)
      nameHaystackByCode [].

Definition getCurrencyCodes : list string := JsMap.keys codeToCurrency.

Definition getCountryCodes : list string :=
  uniqueArray
    (flat_map (fun e => primaryCountryCode e :: otherCountryCodes e)
       getAllCurrencyEntries).

Definition getCurrencyCodesByCountryCode (countryCode : string) : list string :=
  let key := normalizeCountryCode countryCode in
  match JsMap.get key countryToCurrencyCodes with
  | Some set => set
  | None => []
  end.

Definition getAllCountriesUsingCurrency (currencyCode : string) : list string :=
  match getCurrencyByCode currencyCode with
  | None => []
  | Some data =>
      uniqueArray (primaryCountryCode data :: otherCountryCodes data)
  end.

(** The names an entry is compared with, lower-cased. *)
Definition exacts_of (entry : CurrencyRecord) (code : string) : list string :=
  let aliases := or_empty (currencyNameAliases code) in
  map toLowerCase (currencyName entry :: aliases).

(** Reading [entry.currencyName] throws when [codeToCurrency.get(code)] is
    [undefined]. *)
Definition getCurrenciesByExactName (name : string)
  : completion (list CurrencyRecord) :=
  if negb (truthy name) then ret []
  else
    let q := toLowerCase (trim name) in
    fold_left
      (fun acc '(code, haystack) =>
         bind acc (fun results =>
           match JsMap.get code codeToCurrency with
           | None =>
               raise (TypeError "Cannot read properties of undefined")
           | Some entry =>
               if array_includes (exacts_of entry code) q
               then ret (results ++ [entry])%list
               else ret results
           end))
      nameHaystackByCode (ret []).

(** The test [isCountry] of [search]. *)
Definition isCountry (q : string) : bool :=
  (String.length q <=? 3)%nat && countryPattern_test q.

Definition search (query : string) : list (option CurrencyRecord) :=
  if negb (truthy query) then []
  else
    let q := trim query in
    if isCountry q then getCurrenciesByCountryCode q
    else
      match getCurrencyByCode q with
      | Some byCode => [Some byCode]
      | None => findCurrenciesByName q
      end.

End Engine.

(** ** Record construction in [scripts/generate-data.mjs] *)

Module Generator.

(** An element of [countries.json]: [cca2] may be missing;
    [currencies] is [Object.entries(c.currencies || {})] with, for each
    definition, its [name] when both are present. *)
Record Country : Type := mkCountry {
  cca2 : option string;
  currencies : list (string * option string)
}.

(** A value of the map of [build]. *)
Record Candidates : Type := mkCandidates {
  nameCandidates : JsSet.t;
  countryCodes : JsSet.t
}.

(** [String(s || "").trim().toUpperCase()]. *)
Definition normalizeCode (s : option string) : string :=
  toUpperCase (trim (match s with Some x => x | None => "" end)).

Definition PRIMARY_OVERRIDES : JsMap.t string :=
  [("EUR", "EU"); ("USD", "US"); ("GBP", "GB"); ("AUD", "AU"); ("CAD", "CA");
   ("CHF", "CH"); ("JPY", "JP"); ("CNY", "CN"); ("HKD", "HK"); ("SGD", "SG");
   ("XAF", "CM"); ("XOF", "SN"); ("XCD", "AG")].

Definition EXTRA_CODES : list (string * string) :=
  [("XXX", "No currency");
   ("XTS", "Codes specifically reserved for testing purposes");
   ("XPT", "Platinum (one troy ounce)");
   ("XPD", "Palladium (one troy ounce)");
   ("XAU", "Gold (one troy ounce)");
   ("XAG", "Silver (one troy ounce)");
   ("XDR", "Special Drawing Rights");
   ("XBA", "Bond Markets Unit European Composite Unit (EURCO)");
   ("XBB", "Bond Markets Unit European Monetary Unit (E.M.U.-6)");
   ("XBC", "Bond Markets Unit European Unit of Account 9 (E.U.A.-9)");
   ("XBD", "Bond Markets Unit European Unit of Account 17 (E.U.A.-17)");
   ("XSU", "Sucre");
   ("XUA", "ADB Unit of Account")].

Definition gen_map : Type := JsMap.t Candidates.

(** [if (!map.has(code)) map.set(code, {new Set(), new Set()})]. *)
Definition ensure (code : string) (m : gen_map) : gen_map :=
  if negb (JsMap.has code m) then JsMap.set code (mkCandidates [] []) m else m.

(** In-place update of the object [map.get(code)]. *)
Definition update (code : string) (f : Candidates -> Candidates) (m : gen_map)
  : gen_map :=
  match JsMap.get code m with
  | Some entry => JsMap.set code (f entry) m
  | None => m (* not reached after [ensure] *)
  end.

Definition add_name (name : string) (e : Candidates) : Candidates :=
  mkCandidates (JsSet.add name (nameCandidates e)) (countryCodes e).

Definition add_country (cc : string) (e : Candidates) : Candidates :=
  mkCandidates (nameCandidates e) (JsSet.add cc (countryCodes e)).

(** Body of the inner loop over [Object.entries(currencies)]. *)
Definition add_currency (cca2 : string) (m : gen_map)
  (kv : string * option string) : gen_map :=
  let '(ccy, def_name) := kv in
  let code := normalizeCode (Some ccy) in
  let m := ensure code m in
  let m := match def_name with
           | Some name => if truthy name then update code (add_name name) m else m
           | None => m
           end in
  if truthy cca2 then update code (add_country cca2) m else m.

Definition add_country_currencies (m : gen_map) (c : Country) : gen_map :=
  fold_left (add_currency (normalizeCode (cca2 c))) (currencies c) m.

(** Body of the loop over [Object.entries(codeToName)]. *)
Definition add_code_name (m : gen_map) (kv : string * string) : gen_map :=
  let '(codeRaw, nameRaw) := kv in
  let code := normalizeCode (Some codeRaw) in
  update code (add_name nameRaw) (ensure code m).

(** The map once the three loops have run. *)
Definition collect (countries : list Country) (codeToName : list (string * string))
  : gen_map :=
  let m := fold_left add_country_currencies countries [] in
  let m := fold_left add_code_name codeToName m in
  fold_left add_code_name EXTRA_CODES m.

Fixpoint insert_sorted (x : string) (l : list string) : list string :=
  match l with
  | [] => [x]
  | y :: l' => if String.leb x y then x :: l else y :: insert_sorted x l'
  end.

(** [Array.prototype.sort()] on strings: ascending by code units. *)
Definition sort (l : list string) : list string := fold_right insert_sorted [] l.

(** [a || b] on strings where [a] may also be [undefined]. *)
Definition or_else (a : option string) (b : string) : string :=
  match a with
  | Some x => if truthy x then x else b
  | None => b
  end.

(** The record pushed for [code], given [data = map.get(code)]. *)
Definition record_of (code : string) (data : Candidates) : RawEntry :=
  let countriesArr := sort (countryCodes data) in
  let primary :=
    or_else (JsMap.get code PRIMARY_OVERRIDES) (or_else (hd_error countriesArr) "XX") in
  let others := filter (fun cc => negb (String.eqb cc primary)) countriesArr in
  let name := or_else (hd_error (nameCandidates data)) code in
  mkRawEntry code name primary (Some others).

(** Reading [data.countryCodes] throws when [map.get(code)] is [undefined]. *)
Definition records_of (m : gen_map) (allCodes : list string)
  : completion (list RawEntry) :=
  fold_left
    (fun acc code =>
       bind acc (fun records =>
         match JsMap.get code m with
         | None => raise (TypeError "Cannot read properties of undefined")
         | Some data => ret (records ++ [record_of code data])%list
         end))
    allCodes (ret []).

(** The array [records] of [build]. *)
Definition build_records (countries : list Country)
  (codeToName : list (string * string)) : completion (list RawEntry) :=
  let m := collect countries codeToName in
  let allCodes := sort (JsMap.keys m) in
  records_of m allCodes.

End Generator.

(** ** Specification vocabulary *)

(** The normalized key of a dataset entry. *)
Definition entry_code (e : RawEntry) : string :=
  normalizeCurrencyCode (raw_currencyCode e).

(** Currency codes are unique across the dataset (data model, section 3). *)
Definition unique_codes (data : list RawEntry) : Prop :=
  NoDup (map entry_code data).

(** [K] is the primary country of the entry or one of its other countries. *)
Definition entry_mentions (e : RawEntry) (K : string) : Prop :=
  raw_primaryCountryCode e = K \/ In K (or_empty (raw_otherCountryCodes e)).

(** A stored record lists the country code [k]. *)
Definition lists_country (r : CurrencyRecord) (k : string) : Prop :=
  primaryCountryCode r = k \/ In k (otherCountryCodes r).

(** The currency code [C] exists in the dataset. *)
Definition code_in_dataset (data : list RawEntry) (C : string) : Prop :=
  exists e, In e data /\ entry_code e = normalizeCurrencyCode C.

(** The set found under [k], or the empty set. *)
Definition set_at (k : string) (m : JsMap.t JsSet.t) : JsSet.t :=
  match JsMap.get k m with Some s => s | None => [] end.

(** The canonical name or an alias of [r] equals [q] up to case, where [q]
    is already lower-cased. *)
Definition exact_name_match (aliases : AliasTable) (q : string) (r : CurrencyRecord)
  : bool :=
  String.eqb (toLowerCase (currencyName r)) q
  || existsb (fun a => String.eqb (toLowerCase a) q)
       (or_empty (aliases (currencyCode r))).

(** What one iteration of the loop of [getCurrenciesByExactName] adds for
    the key [code]. *)
Definition exact_hits (aliases : AliasTable) (c2c : JsMap.t CurrencyRecord)
  (q code : string) : list CurrencyRecord :=
  match JsMap.get code c2c with
  | Some entry => if array_includes (exacts_of aliases entry code) q then [entry] else []
  | None => []
  end.

(** Two to three characters, each a letter or a hyphen. *)
Definition country_shaped (q : string) : Prop :=
  (2 <= String.length q <= 3)%nat /\ all_chars letter_or_hyphen q = true.

(** Three letters: the syntax of an ISO 4217 code. *)
Definition currency_code_syntax (q : string) : Prop :=
  String.length q = 3 /\ all_chars (fun c => is_lower c || is_upper c) q = true.

(** A country code that normalization leaves as it is. *)
Definition normal_country (cc : string) : Prop := normalizeCountryCode cc = cc.

(** Every country code collected by the generator is normalized. *)
Definition countries_normal (m : Generator.gen_map) : Prop :=
  forall k e, In (k, e) m -> Forall normal_country (Generator.countryCodes e).

(** The keys of the generator's map are distinct, normalized currency codes. *)
Definition keys_normal (m : Generator.gen_map) : Prop :=
  NoDup (JsMap.keys m)
  /\ Forall (fun k => normalizeCurrencyCode k = k) (JsMap.keys m).

(** The primary country of a raw entry is not among its other countries. *)
Definition primary_apart (r : RawEntry) : Prop :=
  ~ In (raw_primaryCountryCode r) (or_empty (raw_otherCountryCodes r)).

(** The country codes of a raw entry are all normalized. *)
Definition entry_normal (r : RawEntry) : Prop :=
  normal_country (raw_primaryCountryCode r)
  /\ Forall normal_country (or_empty (raw_otherCountryCodes r)).

(** ** The rest of the public API of [src/index.js] *)

(** The object [{ primary, others, all }] of [getCountriesForCurrency]. *)
Record CountriesForCurrency : Type := mkCountriesForCurrency {
  cfc_primary : nullable string;
  cfc_others : list string;
  cfc_all : list string
}.

(** The object [{ primary, others }] of [getFlagUrlsForCurrency]. *)
Record FlagUrls : Type := mkFlagUrls {
  flags_primary : nullable string;
  flags_others : list string
}.

(** [array.map(f)] for a callback that may throw: the elements are visited
    in order and the first exception ends the call. *)
Fixpoint array_map {A B : Type} (f : A -> completion B) (l : list A)
  : completion (list B) :=
  match l with
  | [] => ret []
  | x :: l' =>
      bind (f x) (fun y => bind (array_map f l') (fun ys => ret (y :: ys)))
  end.

Section EngineRest.

Variable URL_toString : string -> completion string.
Variable currencyCountryData : list RawEntry.
Variable currencyNameAliases : AliasTable.

Definition getCountriesForCurrency (currencyCode : string) : CountriesForCurrency :=
  match getCurrencyByCode currencyCountryData currencyNameAliases currencyCode with
  | None => mkCountriesForCurrency None [] []
  | Some data =>
      let all := uniqueArray (primaryCountryCode data :: otherCountryCodes data) in
      mkCountriesForCurrency (Some (primaryCountryCode data)) (otherCountryCodes data) all
  end.

(** No [try] here: an exception of the URL constructor reaches the caller. *)
Definition getFlagUrlByCurrencyCode (currencyCode : string)
  : completion (nullable string) :=
  match getCurrencyByCode currencyCountryData currencyNameAliases currencyCode with
  | None => ret None
  | Some data =>
      bind (flagUrlFromCountryCode URL_toString (primaryCountryCode data))
           (fun url => ret (Some url))
  end.

Definition getFlagUrlsForCurrency (currencyCode : string) : completion FlagUrls :=
  match getCurrencyByCode currencyCountryData currencyNameAliases currencyCode with
  | None => ret (mkFlagUrls None [])
  | Some data =>
      bind (flagUrlFromCountryCode URL_toString (primaryCountryCode data))
        (fun primary =>
           bind (array_map (flagUrlFromCountryCode URL_toString) (otherCountryCodes data))
             (fun others => ret (mkFlagUrls (Some primary) others)))
  end.

End EngineRest.

(** The haystack of a stored record. *)
Definition haystack_of_record (aliases : AliasTable) (r : CurrencyRecord) : string :=
  haystack_of aliases (currencyCode r) (currencyName r).

(** The stored form of the entry lists the country code [k]. *)
Definition entry_lists_b (e : RawEntry) (k : string) : bool :=
  String.eqb k (primaryCountryCode (normalized_entry e))
  || existsb (String.eqb k) (otherCountryCodes (normalized_entry e)).

(** ** Vocabulary for the generator *)

(** The candidates collected for [code], empty when the code is unknown. *)
Definition cands (code : string) (m : Generator.gen_map) : Generator.Candidates :=
  match JsMap.get code m with
  | Some e => e
  | None => Generator.mkCandidates [] []
  end.

(** The inner and outer loops over the countries visit these pairs, in
    this order: the normalized [cca2] and one currency of the country. *)
Definition country_currencies (countries : list Generator.Country)
  : list (string * (string * option string)) :=
  flat_map
    (fun c => map (pair (Generator.normalizeCode (Generator.cca2 c)))
                (Generator.currencies c))
    countries.

(** The country [cc] (a normalized, non-empty [cca2]) lists a currency
    whose key normalizes to [code]. *)
Definition country_uses (countries : list Generator.Country) (code cc : string) : Prop :=
  exists ccy def,
    In (cc, (ccy, def)) (country_currencies countries)
    /\ Generator.normalizeCode (Some ccy) = code
    /\ cc <> "".

(** Some country gives the non-empty [name] to a currency whose key
    normalizes to [code]. *)
Definition country_names (countries : list Generator.Country) (code name : string) : Prop :=
  exists cc ccy,
    In (cc, (ccy, Some name)) (country_currencies countries)
    /\ Generator.normalizeCode (Some ccy) = code
    /\ name <> "".

(** [code] is the normalized form of a currency key of some country, of a
    key of [codeToName], or of one of the extra codes. *)
Definition code_source (countries : list Generator.Country)
  (codeToName : list (string * string)) (code : string) : Prop :=
  (exists cc ccy def,
      In (cc, (ccy, def)) (country_currencies countries)
      /\ Generator.normalizeCode (Some ccy) = code)
  \/ (exists codeRaw name,
        In (codeRaw, name) (codeToName ++ Generator.EXTRA_CODES)%list
        /\ Generator.normalizeCode (Some codeRaw) = code).

(** One visit of the loops over the countries: the body of the inner loop
    for the pair [p]. *)
Definition visit (m : Generator.gen_map) (p : string * (string * option string))
  : Generator.gen_map :=
  Generator.add_currency (fst p) m (snd p).

(** The strings ascend in the order of [Array.prototype.sort]. *)
Definition ascending (l : list string) : Prop :=
  StronglySorted (fun a b => String.leb a b = true) l.

(** ** The engine over the platform's own string operations *)

(** [String.prototype.trim], [toUpperCase] and [toLowerCase] follow the
    Unicode tables of the platform; beyond ASCII they are not the functions
    of [JsString].  Here the three are parameters, and nothing is known of
    them but what a statement assumes.  A string is still the sequence of
    its code units, which the engine inspects through equality,
    concatenation and [includes] only; text beyond Latin-1 can be carried
    in UTF-8. *)
Record StringOps : Type := mkStringOps {
  ops_trim : string -> string;
  ops_toUpperCase : string -> string;
  ops_toLowerCase : string -> string
}.

(** The operations of [JsString]. *)
Definition ascii_ops : StringOps := mkStringOps trim toUpperCase toLowerCase.

Module Platform.
Section Ops.

Variable ops : StringOps.

Definition normalizeCurrencyCode (code : string) : string :=
  if negb (truthy code) then "" else ops_toUpperCase ops (ops_trim ops code).

Definition normalizeCountryCode (code : string) : string :=
  if negb (truthy code) then "" else ops_toUpperCase ops (ops_trim ops code).

Definition toFlagFilename (countryCode : string) : string :=
  ops_toLowerCase ops (normalizeCountryCode countryCode) ++ ".svg".

Section Flags.

Variable URL_toString : string -> completion string.

Definition flagUrlFromCountryCode (countryCode : string) : completion string :=
  let filename := toFlagFilename countryCode in
  URL_toString ("../flags/" ++ filename).

Definition getFlagUrlByCountryCode (countryCode : option string)
  : completion (nullable string) :=
  match countryCode with
  | None => ret None
  | Some code =>
      if negb (truthy code) then ret None
      else
        catch (bind (flagUrlFromCountryCode code) (fun url => ret (Some url)))
              (fun _ => ret None)
  end.

End Flags.

Definition normalized_entry (entry : RawEntry) : CurrencyRecord :=
  mkCurrencyRecord
    (normalizeCurrencyCode (raw_currencyCode entry))
    (raw_currencyName entry)
    (normalizeCountryCode (raw_primaryCountryCode entry))
    (map normalizeCountryCode (or_empty (raw_otherCountryCodes entry))).

Definition push (ccy : string) (countryToCurrencyCodes : JsMap.t JsSet.t)
  (countryCode : string) : JsMap.t JsSet.t :=
  let key := normalizeCountryCode countryCode in
  let m : JsMap.t JsSet.t :=
    if negb (JsMap.has key countryToCurrencyCodes)
    then JsMap.set key [] countryToCurrencyCodes
    else countryToCurrencyCodes in
  match JsMap.get key m with
  | Some s => JsMap.set key (JsSet.add ccy s) m
  | None => m (* not reached: [key] was just made present *)
  end.

Definition haystack_of (currencyNameAliases : AliasTable) (ccy name : string) : string :=
  let aliases := join "|" (or_empty (currencyNameAliases ccy)) in
  ops_toLowerCase ops (name ++ "|" ++ aliases).

Definition index_entry (currencyNameAliases : AliasTable) (idx : Indices)
  (entry : RawEntry) : Indices :=
  let normalized := normalized_entry entry in
  let ccy := currencyCode normalized in
  let primary := primaryCountryCode normalized in
  let others := otherCountryCodes normalized in
  let c2c := JsMap.set ccy normalized (idx_codeToCurrency idx) in
  let hay := JsMap.set ccy (haystack_of currencyNameAliases ccy (raw_currencyName entry))
               (idx_nameHaystackByCode idx) in
  let ctc := fold_left (push ccy) others
               (push ccy (idx_countryToCurrencyCodes idx) primary) in
  mkIndices c2c ctc hay.

Definition build_indices (currencyCountryData : list RawEntry)
  (currencyNameAliases : AliasTable) : Indices :=
  fold_left (index_entry currencyNameAliases) currencyCountryData empty_indices.

Section Queries.

Variable currencyCountryData : list RawEntry.
Variable currencyNameAliases : AliasTable.

Definition codeToCurrency : JsMap.t CurrencyRecord :=
  idx_codeToCurrency (build_indices currencyCountryData currencyNameAliases).
Definition nameHaystackByCode : JsMap.t string :=
  idx_nameHaystackByCode (build_indices currencyCountryData currencyNameAliases).

Definition getAllCurrencyEntries : list CurrencyRecord :=
  JsMap.values codeToCurrency.

Definition findCurrenciesByName (query : string) : list (option CurrencyRecord) :=
  if negb (truthy query) then []
  else
    let q := ops_toLowerCase ops (ops_trim ops query) in
    fold_left
      (fun results '(code, haystack) =>
         if includes haystack q
         then (results ++ [JsMap.get code codeToCurrency])%list
         else results)
      nameHaystackByCode [].

Definition exacts_of (entry : CurrencyRecord) (code : string) : list string :=
  let aliases := or_empty (currencyNameAliases code) in
  map (ops_toLowerCase ops) (currencyName entry :: aliases).

Definition getCurrenciesByExactName (name : string)
  : completion (list CurrencyRecord) :=
  if negb (truthy name) then ret []
  else
    let q := ops_toLowerCase ops (ops_trim ops name) in
    fold_left
      (fun acc '(code, haystack) =>
         bind acc (fun results =>
           match JsMap.get code codeToCurrency with
           | None =>
               raise (TypeError "Cannot read properties of undefined")
           | Some entry =>
               if array_includes (exacts_of entry code) q
               then ret (results ++ [entry])%list
               else ret results
           end))
      nameHaystackByCode (ret []).

End Queries.

(** The canonical name or an alias of [r], lower-cased by the platform, is
    [q]. *)
Definition exact_name_match (aliases : AliasTable) (q : string) (r : CurrencyRecord)
  : bool :=
  String.eqb (ops_toLowerCase ops (currencyName r)) q
  || existsb (fun a => String.eqb (ops_toLowerCase ops a) q)
       (or_empty (aliases (currencyCode r))).

(** The haystack of a stored record. *)
Definition haystack_of_record (aliases : AliasTable) (r : CurrencyRecord) : string :=
  haystack_of aliases (currencyCode r) (currencyName r).

End Ops.
End Platform.

(** Every code unit is below 128. *)
Definition is_ascii (s : string) : bool :=
  all_chars (fun c => (nat_of_ascii c <? 128)%nat) s.

(** On ASCII strings the platform's operations are those of [JsString]. *)
Definition agrees_on_ascii (ops : StringOps) : Prop :=
  forall s, is_ascii s = true ->
    ops_trim ops s = trim s
    /\ ops_toUpperCase ops s = toUpperCase s
    /\ ops_toLowerCase ops s = toLowerCase s.

(** [trim] removes the ASCII white space around a string, whatever else it
    removes. *)
Definition trims_ascii_padding (ops : StringOps) : Prop :=
  forall pre s post,
    all_chars is_ws pre = true -> all_chars is_ws post = true ->
    ops_trim ops (pre ++ s ++ post) = ops_trim ops s.

(** Lower-casing treats the two sides of a bar separately: the bar is not a
    letter and no letter's mapping looks across it. *)
Definition lowers_around_bar (ops : StringOps) : Prop :=
  forall a b,
    ops_toLowerCase ops (a ++ "|" ++ b)
    = ops_toLowerCase ops a ++ "|" ++ ops_toLowerCase ops b.

(** Code units a URL path keeps as they are and gives no meaning to: ASCII
    letters and digits, hyphen, period and underscore. *)
Definition url_plain_char (c : ascii) : bool :=
  is_lower c || is_upper c || in_range "0" "9" c
  || Ascii.eqb c "-" || Ascii.eqb c "." || Ascii.eqb c "_".

Definition url_plain (s : string) : bool := all_chars url_plain_char s.

(** What the URL parser does with the references of [flagUrlFromCountryCode]
    when the module's location has a hierarchical path: [flags_location] is
    the serialised directory "flags" next to the module's own directory,
    with its final slash, and a file name made of a plain stem and ".svg"
    is appended to it unchanged. *)
Definition resolves_flags (URL_toString : string -> completion string)
  (flags_location : string) : Prop :=
  forall stem, url_plain stem = true ->
    URL_toString ("../flags/" ++ stem ++ ".svg") = inr (flags_location ++ stem ++ ".svg").

(** ** The generated file [src/data.js] *)

Module DataFile.

Definition quote : ascii := ascii_of_nat 34.
Definition backslash : ascii := ascii_of_nat 92.
Definition line_feed : ascii := ascii_of_nat 10.
Definition carriage_return : ascii := ascii_of_nat 13.

Definition is_line_terminator (c : ascii) : bool :=
  Ascii.eqb c line_feed || Ascii.eqb c carriage_return.

(** [s.replace(/"/g, '\\"')]: a backslash goes before every double quote. *)
Fixpoint escape_quotes (s : string) : string :=
  match s with
  | EmptyString => EmptyString
  | String c r =>
      if Ascii.eqb c quote
      then String backslash (String quote (escape_quotes r))
      else String c (escape_quotes r)
  end.

(** The template [`"${s}"`]. *)
Definition quoted (s : string) : string := String quote (s ++ String quote EmptyString).

(** What [formatRecord] puts between the double quotes of each field. *)
Definition written_code (r : RawEntry) : string := raw_currencyCode r.
Definition written_name (r : RawEntry) : string := escape_quotes (raw_currencyName r).
Definition written_primary (r : RawEntry) : string := raw_primaryCountryCode r.
Definition written_others (r : RawEntry) : list string :=
  or_empty (raw_otherCountryCodes r).

(** The text of one record; the records of [build] all have the array
    [otherCountryCodes]. *)
Definition formatRecord (r : RawEntry) : string :=
  let oc := join ", " (map quoted (written_others r)) in
  join (String line_feed EmptyString)
    ["  {";
     "    currencyCode: " ++ quoted (written_code r) ++ ",";
     "    currencyName: " ++ quoted (written_name r) ++ ",";
     "    primaryCountryCode: " ++ quoted (written_primary r) ++ ",";
     "    otherCountryCodes: [" ++ oc ++ "],";
     "  },"].

(** The character an escape sequence stands for, given the character after
    the backslash: the single escapes [b f n r t v]; a quote, a backslash and
    any character that starts no escape stand for themselves.  [None] for
    the escapes left out here: hexadecimal and Unicode escapes, digits, and
    a line continuation. *)
Definition escape_value (e : ascii) : option ascii :=
  if Ascii.eqb e "b" then Some (ascii_of_nat 8)
  else if Ascii.eqb e "f" then Some (ascii_of_nat 12)
  else if Ascii.eqb e "n" then Some line_feed
  else if Ascii.eqb e "r" then Some carriage_return
  else if Ascii.eqb e "t" then Some (ascii_of_nat 9)
  else if Ascii.eqb e "v" then Some (ascii_of_nat 11)
  else if Ascii.eqb e "x" || Ascii.eqb e "u" || in_range "0" "9" e
          || is_line_terminator e then None
  else Some e.

(** The value of the double-quoted string literal whose body is [s], as the
    language reads it when [src/data.js] is imported.  [None] when [s] is
    not the body of one literal (a bare double quote or line terminator, a
    backslash at the end) or uses an escape left out of [escape_value]. *)
Fixpoint literal_value (s : string) : option string :=
  match s with
  | EmptyString => Some EmptyString
  | String c r =>
      if Ascii.eqb c backslash then
        match r with
        | EmptyString => None
        | String e r' =>
            match escape_value e, literal_value r' with
            | Some v, Some t => Some (String v t)
            | _, _ => None
            end
        end
      else if Ascii.eqb c quote || is_line_terminator c then None
      else option_map (String c) (literal_value r)
  end.

Fixpoint literal_values (l : list string) : option (list string) :=
  match l with
  | [] => Some []
  | s :: l' =>
      match literal_value s, literal_values l' with
      | Some v, Some vs => Some (v :: vs)
      | _, _ => None
      end
  end.

(** The element of [currencyCountryData] that the text of [formatRecord r]
    denotes: each field is the value of the literal written for it. *)
Definition imported_entry (r : RawEntry) : option RawEntry :=
  match literal_value (written_code r), literal_value (written_name r),
        literal_value (written_primary r), literal_values (written_others r) with
  | Some code, Some name, Some primary, Some others =>
      Some (mkRawEntry code name primary (Some others))
  | _, _, _, _ => None
  end.

(** The array [currencyCountryData] that [src/index.js] imports after
    [build] has written [records]. *)
Fixpoint imported (records : list RawEntry) : option (list RawEntry) :=
  match records with
  | [] => Some []
  | r :: records' =>
      match imported_entry r, imported records' with
      | Some e, Some es => Some (e :: es)
      | _, _ => None
      end
  end.

(** A code that is written as it is read: no backslash, double quote or
    line terminator. *)
Definition safe_code (s : string) : bool :=
  all_chars (fun c => negb (Ascii.eqb c backslash || Ascii.eqb c quote
                            || is_line_terminator c)) s.

(** A name that survives [escape_quotes] and the reading: no backslash or
    line terminator. *)
Definition safe_name (s : string) : bool :=
  all_chars (fun c => negb (Ascii.eqb c backslash || is_line_terminator c)) s.

Definition written_safely (r : RawEntry) : bool :=
  safe_code (raw_currencyCode r) && safe_name (raw_currencyName r)
  && safe_code (raw_primaryCountryCode r)
  && forallb safe_code (or_empty (raw_otherCountryCodes r)).

End DataFile.

(** ** A small dataset for concrete runs *)

Module Sample.

Definition usd : RawEntry :=
  mkRawEntry "USD" "United States Dollar" "US" (Some ["AS"; "EC"; "PR"]).
Definition eur : RawEntry :=
  mkRawEntry "EUR" "Euro" "EU" (Some ["DE"; "FR"; "IT"]).
Definition gbp : RawEntry :=
  mkRawEntry "GBP" "British Pound Sterling" "GB" (Some ["GG"; "IM"; "JE"]).
Definition xau : RawEntry :=
  mkRawEntry "XAU" "Gold (one troy ounce)" "XX" (Some []).

Definition data : list RawEntry := [eur; gbp; usd; xau].

Definition aliases : AliasTable := fun code =>
  if String.eqb code "USD" then Some ["US Dollar"; "Dollar"; "American Dollar"]
  else if String.eqb code "EUR" then Some ["Eurozone Euro"]
  else if String.eqb code "GBP" then Some ["British Pound"; "Sterling"]
  else None.

(** A resolver for a module that lives at [file:///pkg/src/utils.js]: it
    handles the references of the form [../rest] and rejects the others. *)
Definition url_of (reference : string) : completion string :=
  if startsWith reference "../"
  then ret ("file:///pkg/" ++ substring 3 (String.length reference - 3) reference)
  else raise (TypeError "Invalid URL").

(** A resolver that always throws. *)
Definition url_fails (reference : string) : completion string :=
  raise (TypeError "Invalid URL").

Definition countries : list Generator.Country :=
  [Generator.mkCountry (Some "us") [("USD", Some "United States dollar")];
   Generator.mkCountry (Some "EC") [("USD", Some "United States dollar")];
   Generator.mkCountry (Some "FR") [("EUR", Some "Euro")];
   Generator.mkCountry (Some "DE") [("EUR", Some "Euro")];
   Generator.mkCountry None [("XYZ", None)]].

Definition codeToName : list (string * string) :=
  [("USD", "United States Dollar"); ("EUR", "Euro"); ("BTC", "Bitcoin")].

End Sample.

(** A dataset with codes that are not three letters long. *)
Module SampleOdd.

Definition data : list RawEntry :=
  [mkRawEntry "usdt" "Tether" "XX" None;
   mkRawEntry "X1" "Test Unit" "zz" (Some [" aa "; "ZZ"; "aa"])].

End SampleOdd.

(** Names beyond ASCII, in UTF-8, and a platform that lower-cases the
    capital letters of Latin-1 as well: in UTF-8 such a letter is the byte
    195 followed by a byte from 128 to 158, 151 apart, and the small letter
    has the second byte 32 higher. *)
Module SampleLatin.

Definition lower_second (d : ascii) : ascii :=
  let n := nat_of_ascii d in
  if (128 <=? n)%nat && (n <=? 158)%nat && negb (n =? 151)%nat
  then ascii_of_nat (n + 32) else d.

Fixpoint lower (s : string) : string :=
  match s with
  | EmptyString => EmptyString
  | String c r =>
      if Ascii.eqb c (ascii_of_nat 195) then
        match r with
        | EmptyString => String c EmptyString
        | String d r' => String c (String (lower_second d) (lower r'))
        end
      else String (lower_char c) (lower r)
  end.

Definition ops : StringOps := mkStringOps trim toUpperCase lower.

Definition crc : RawEntry := mkRawEntry "CRC" "Costa Rican colón" "CR" (Some []).
Definition stn : RawEntry :=
  mkRawEntry "STN" "São Tomé and Príncipe dobra" "ST" (Some []).
Definition svc : RawEntry := mkRawEntry "SVC" "Salvadoran colón" "SV" (Some []).

Definition data : list RawEntry := [crc; stn; svc].

Definition aliases : AliasTable := fun code =>
  if String.eqb code "CRC" then Some ["Colón"] else None.

End SampleLatin.

(** Two countries that use the same currency; the code of the second one
    begins with a backslash. *)
Module SampleBackslash.

Definition countries : list Generator.Country :=
  [Generator.mkCountry (Some "us") [("USD", Some "United States dollar")];
   Generator.mkCountry (Some "\us") [("USD", Some "United States dollar")]].

End SampleBackslash.

(* ===================================================================== *)
(** * Part II: properties *)
(* ===================================================================== *)

(** ** Concrete runs *)

Example trim_runs :
  trim "  Us	 " = "Us" /\ trim "   " = "" /\ trim " a b " = "a b".
Proof. repeat split; reflexivity. Qed.

Example case_runs :
  toUpperCase "us-Xy1" = "US-XY1" /\ toLowerCase "US-Xy1" = "us-xy1".
Proof. split; reflexivity. Qed.

Example includes_runs :
  includes "british pound|sterling" "pound" = true /\
  includes "euro" "pound" = false /\ includes "" "" = true.
Proof. repeat split; reflexivity. Qed.

Example unique_runs : uniqueArray ["US"; "AS"; "US"; "EC"; "AS"] = ["US"; "AS"; "EC"].
Proof. reflexivity. Qed.

Example index_runs :
  getCurrencyCodes Sample.data Sample.aliases = ["EUR"; "GBP"; "USD"; "XAU"] /\
  getCurrencyCodesByCountryCode Sample.data Sample.aliases " fr " = ["EUR"] /\
  JsMap.get "GBP" (nameHaystackByCode Sample.data Sample.aliases)
  = Some "british pound sterling|british pound|sterling".
Proof. repeat split; reflexivity. Qed.

Example search_runs :
  search Sample.data Sample.aliases "US"
  = [Some (normalized_entry Sample.usd)] /\
  search Sample.data Sample.aliases "USD" = [] /\
  search Sample.data Sample.aliases "euro"
  = [Some (normalized_entry Sample.eur)] /\
  search Sample.data Sample.aliases "pound"
  = [Some (normalized_entry Sample.gbp)].
Proof. repeat split; vm_compute; reflexivity. Qed.

Example exact_name_runs :
  getCurrenciesByExactName Sample.data Sample.aliases " dollar "
  = inr [normalized_entry Sample.usd] /\
  getCurrenciesByExactName Sample.data Sample.aliases "pound" = inr [].
Proof. split; vm_compute; reflexivity. Qed.

Example flag_runs :
  getFlagUrlByCountryCode Sample.url_of (Some " Us ")
  = inr (Some "file:///pkg/flags/us.svg") /\
  getFlagUrlByCountryCode Sample.url_fails (Some "US") = inr None /\
  getFlagUrlByCountryCode Sample.url_of None = inr None.
Proof. repeat split; vm_compute; reflexivity. Qed.

Example generator_runs :
  Generator.build_records Sample.countries Sample.codeToName
  = inr ([mkRawEntry "BTC" "Bitcoin" "XX" (Some []);
          mkRawEntry "EUR" "Euro" "EU" (Some ["DE"; "FR"]);
          mkRawEntry "USD" "United States dollar" "US" (Some ["EC"])]
         ++ [mkRawEntry "XAG" "Silver (one troy ounce)" "XX" (Some []);
             mkRawEntry "XAU" "Gold (one troy ounce)" "XX" (Some [])]
         ++ map (fun kv => mkRawEntry (fst kv) (snd kv) "XX" (Some []))
              [("XBA", "Bond Markets Unit European Composite Unit (EURCO)");
               ("XBB", "Bond Markets Unit European Monetary Unit (E.M.U.-6)");
               ("XBC", "Bond Markets Unit European Unit of Account 9 (E.U.A.-9)");
               ("XBD", "Bond Markets Unit European Unit of Account 17 (E.U.A.-17)");
               ("XDR", "Special Drawing Rights");
               ("XPD", "Palladium (one troy ounce)");
               ("XPT", "Platinum (one troy ounce)");
               ("XSU", "Sucre");
               ("XTS", "Codes specifically reserved for testing purposes");
               ("XUA", "ADB Unit of Account");
               ("XXX", "No currency");
               ("XYZ", "XYZ")])%list.
Proof. vm_compute. reflexivity. Qed.

(** ** Facts about strings *)

Module JsStringFacts.

Ltac by_cases_on_char c :=
  destruct c as [[] [] [] [] [] [] [] []]; vm_compute; reflexivity.

Lemma is_ws_upper_char c : is_ws (upper_char c) = is_ws c.
Proof. by_cases_on_char c. Qed.

Lemma upper_char_idem c : upper_char (upper_char c) = upper_char c.
Proof. by_cases_on_char c. Qed.

Lemma lower_char_idem c : lower_char (lower_char c) = lower_char c.
Proof. by_cases_on_char c. Qed.

Lemma lower_upper_char c : lower_char (upper_char c) = lower_char c.
Proof. by_cases_on_char c. Qed.

Lemma map_chars_compose f g s : map_chars f (map_chars g s) = map_chars (fun c => f (g c)) s.
Proof. induction s as [|c r IH]; simpl; [reflexivity | now rewrite IH]. Qed.

Lemma map_chars_ext f g s : (forall c, f c = g c) -> map_chars f s = map_chars g s.
Proof. intros E. induction s as [|c r IH]; simpl; [reflexivity | now rewrite IH, E]. Qed.

Lemma map_chars_length f s : String.length (map_chars f s) = String.length s.
Proof. induction s as [|c r IH]; simpl; [reflexivity | now rewrite IH]. Qed.

Lemma toUpperCase_idem s : toUpperCase (toUpperCase s) = toUpperCase s.
Proof.
  unfold toUpperCase. rewrite map_chars_compose.
  apply map_chars_ext, upper_char_idem.
Qed.

Lemma toLowerCase_idem s : toLowerCase (toLowerCase s) = toLowerCase s.
Proof.
  unfold toLowerCase. rewrite map_chars_compose.
  apply map_chars_ext, lower_char_idem.
Qed.

Lemma toLowerCase_toUpperCase s : toLowerCase (toUpperCase s) = toLowerCase s.
Proof.
  unfold toLowerCase, toUpperCase. rewrite map_chars_compose.
  apply map_chars_ext, lower_upper_char.
Qed.

Lemma trimStart_toUpperCase s : trimStart (toUpperCase s) = toUpperCase (trimStart s).
Proof.
  induction s as [|c r IH]; simpl; [reflexivity|].
  rewrite is_ws_upper_char. destruct (is_ws c); [exact IH | reflexivity].
Qed.

Lemma trimEnd_toUpperCase s : trimEnd (toUpperCase s) = toUpperCase (trimEnd s).
Proof.
  induction s as [|c r IH]; simpl; [reflexivity|].
  fold (toUpperCase r). rewrite IH, is_ws_upper_char.
  destruct (trimEnd r); simpl; [destruct (is_ws c)|]; reflexivity.
Qed.

Lemma trim_toUpperCase s : trim (toUpperCase s) = toUpperCase (trim s).
Proof. unfold trim. now rewrite trimStart_toUpperCase, trimEnd_toUpperCase. Qed.

Lemma trimStart_no_leading_ws s : no_leading_ws (trimStart s).
Proof.
  induction s as [|c r IH]; simpl; [exact I|].
  destruct (is_ws c) eqn:E; [exact IH | exact E].
Qed.

Lemma trimStart_fixed s : no_leading_ws s -> trimStart s = s.
Proof. destruct s as [|c r]; simpl; [reflexivity | now intros ->]. Qed.

Lemma trimEnd_no_leading_ws s : no_leading_ws s -> no_leading_ws (trimEnd s).
Proof.
  destruct s as [|c r]; simpl; [trivial|]. intros E.
  destruct (trimEnd r); [rewrite E|]; exact E.
Qed.

Lemma trimEnd_idem s : trimEnd (trimEnd s) = trimEnd s.
Proof.
  induction s as [|c r IH]; simpl; [reflexivity|].
  destruct (trimEnd r) as [|a r'] eqn:E.
  - destruct (is_ws c) eqn:W; simpl; [reflexivity | now rewrite W].
  - change (trimEnd (String c (String a r'))) with
      (match trimEnd (String a r') with
       | EmptyString => if is_ws c then EmptyString else String c EmptyString
       | x => String c x
       end).
    now rewrite IH.
Qed.

Lemma trim_idem s : trim (trim s) = trim s.
Proof.
  unfold trim.
  rewrite (trimStart_fixed (trimEnd (trimStart s))).
  - apply trimEnd_idem.
  - apply trimEnd_no_leading_ws, trimStart_no_leading_ws.
Qed.

Lemma trim_empty : trim "" = "".
Proof. reflexivity. Qed.

Lemma trimStart_all_ws s : all_chars is_ws s = true -> trimStart s = "".
Proof.
  induction s as [|c r IH]; simpl; [reflexivity|].
  intros H. apply andb_true_iff in H as [W R]. rewrite W. auto.
Qed.

Lemma trim_all_ws s : all_chars is_ws s = true -> trim s = "".
Proof. intros H. unfold trim. now rewrite trimStart_all_ws. Qed.

Lemma truthy_true s : truthy s = true <-> s <> "".
Proof.
  unfold truthy. rewrite negb_true_iff. split.
  - intros H ->. discriminate.
  - intros H. now apply String.eqb_neq.
Qed.

Lemma truthy_false s : truthy s = false <-> s = "".
Proof.
  unfold truthy. rewrite negb_false_iff. apply String.eqb_eq.
Qed.

Lemma startsWith_empty h : startsWith h "" = true.
Proof. destruct h; reflexivity. Qed.

Lemma includes_empty h : includes h "" = true.
Proof. destruct h; reflexivity. Qed.

Lemma array_includes_In l x : array_includes l x = true <-> In x l.
Proof.
  unfold array_includes. rewrite existsb_exists. split.
  - intros (y & Hy & E). apply String.eqb_eq in E. now subst.
  - intros H. exists x. split; [exact H | apply String.eqb_refl].
Qed.

Lemma is_ws_lower_char c : is_ws (lower_char c) = is_ws c.
Proof. by_cases_on_char c. Qed.

Lemma upper_lower_char c : upper_char (lower_char c) = upper_char c.
Proof. by_cases_on_char c. Qed.

Lemma toUpperCase_toLowerCase s : toUpperCase (toLowerCase s) = toUpperCase s.
Proof.
  unfold toLowerCase, toUpperCase. rewrite map_chars_compose.
  apply map_chars_ext, upper_lower_char.
Qed.

Lemma trimStart_toLowerCase s : trimStart (toLowerCase s) = toLowerCase (trimStart s).
Proof.
  induction s as [|c r IH]; simpl; [reflexivity|].
  rewrite is_ws_lower_char. destruct (is_ws c); [exact IH | reflexivity].
Qed.

Lemma trimEnd_toLowerCase s : trimEnd (toLowerCase s) = toLowerCase (trimEnd s).
Proof.
  induction s as [|c r IH]; simpl; [reflexivity|].
  fold (toLowerCase r). rewrite IH, is_ws_lower_char.
  destruct (trimEnd r); simpl; [destruct (is_ws c)|]; reflexivity.
Qed.

Lemma trim_toLowerCase s : trim (toLowerCase s) = toLowerCase (trim s).
Proof. unfold trim. now rewrite trimStart_toLowerCase, trimEnd_toLowerCase. Qed.

Lemma trimEnd_all_ws s : all_chars is_ws s = true -> trimEnd s = "".
Proof.
  induction s as [|c r IH]; simpl; [reflexivity|].
  intros H. apply andb_true_iff in H as [W R]. now rewrite (IH R), W.
Qed.

Lemma trimEnd_app_ws s post : all_chars is_ws post = true -> trimEnd (s ++ post) = trimEnd s.
Proof.
  intros W. induction s as [|c r IH]; simpl.
  - now apply trimEnd_all_ws.
  - now rewrite IH.
Qed.

Lemma trimStart_app_ws pre s : all_chars is_ws pre = true -> trimStart (pre ++ s) = trimStart s.
Proof.
  induction pre as [|c r IH]; simpl; [reflexivity|].
  intros H. apply andb_true_iff in H as [W R]. rewrite W. auto.
Qed.

(** White space around a string does not survive [trim]. *)
Lemma trim_padding pre s post :
  all_chars is_ws pre = true -> all_chars is_ws post = true ->
  trim (pre ++ s ++ post) = trim s.
Proof.
  intros Wpre Wpost. unfold trim. rewrite trimStart_app_ws by exact Wpre.
  induction s as [|c r IH]; simpl.
  - now rewrite trimStart_all_ws.
  - destruct (is_ws c); [exact IH|].
    change (String c (r ++ post)) with (String c r ++ post).
    now apply trimEnd_app_ws.
Qed.

(** Strings equal up to case and surrounding white space have the same
    trimmed upper-case form. *)
Lemma normal_form_insensitive pre s s' post :
  toLowerCase s = toLowerCase s' ->
  all_chars is_ws pre = true -> all_chars is_ws post = true ->
  toUpperCase (trim (pre ++ s ++ post)) = toUpperCase (trim s').
Proof.
  intros E Wpre Wpost. rewrite trim_padding by assumption.
  rewrite <- (toUpperCase_toLowerCase (trim s)), <- (toUpperCase_toLowerCase (trim s')).
  now rewrite <- !trim_toLowerCase, E.
Qed.

End JsStringFacts.
Import JsStringFacts.

(** ** Facts about the normalizers *)

Lemma normalizeCountryCode_eq code : normalizeCountryCode code = toUpperCase (trim code).
Proof.
  unfold normalizeCountryCode. destruct (truthy code) eqn:T; simpl; [reflexivity|].
  apply truthy_false in T. now subst.
Qed.

Lemma normalizeCurrencyCode_eq code : normalizeCurrencyCode code = toUpperCase (trim code).
Proof.
  unfold normalizeCurrencyCode. destruct (truthy code) eqn:T; simpl; [reflexivity|].
  apply truthy_false in T. now subst.
Qed.

Lemma normalize_fixed s : toUpperCase (trim (toUpperCase (trim s))) = toUpperCase (trim s).
Proof. now rewrite trim_toUpperCase, trim_idem, toUpperCase_idem. Qed.

Lemma normalizeCountryCode_idem code :
  normalizeCountryCode (normalizeCountryCode code) = normalizeCountryCode code.
Proof. rewrite !normalizeCountryCode_eq. apply normalize_fixed. Qed.

Lemma normalizeCurrencyCode_idem code :
  normalizeCurrencyCode (normalizeCurrencyCode code) = normalizeCurrencyCode code.
Proof. rewrite !normalizeCurrencyCode_eq. apply normalize_fixed. Qed.

(** ** Facts about maps and sets *)

Module JsMapFacts.
Section Facts.
Context {V : Type}.
Implicit Types (m : JsMap.t V) (k : string) (v : V).

Lemma get_set_same k v m : JsMap.get k (JsMap.set k v m) = Some v.
Proof.
  induction m as [|[k' v'] m IH]; simpl.
  - now rewrite String.eqb_refl.
  - destruct (String.eqb_spec k k') as [->|N]; simpl.
    + now rewrite String.eqb_refl.
    + apply String.eqb_neq in N. now rewrite N.
Qed.

Lemma get_set_other k k' v m :
  k <> k' -> JsMap.get k' (JsMap.set k v m) = JsMap.get k' m.
Proof.
  intros N. induction m as [|[k0 v0] m IH]; simpl.
  - assert (E : String.eqb k' k = false) by (apply String.eqb_neq; congruence).
    now rewrite E.
  - destruct (String.eqb_spec k k0) as [->|N0]; simpl.
    + assert (E : String.eqb k' k0 = false) by (apply String.eqb_neq; congruence).
      now rewrite E.
    + now rewrite IH.
Qed.

Lemma has_true_get k m : JsMap.has k m = true <-> exists v, JsMap.get k m = Some v.
Proof.
  induction m as [|[k' v'] m IH]; simpl.
  - split; [discriminate | intros [v H]; discriminate].
  - destruct (String.eqb k k'); simpl; [|exact IH].
    split; [eauto | reflexivity].
Qed.

Lemma has_false_get k m : JsMap.has k m = false <-> JsMap.get k m = None.
Proof.
  induction m as [|[k' v'] m IH]; simpl.
  - split; reflexivity.
  - destruct (String.eqb k k'); simpl; [|exact IH].
    split; discriminate.
Qed.

Lemma has_In_keys k m : JsMap.has k m = true <-> In k (JsMap.keys m).
Proof.
  induction m as [|[k' v'] m IH]; simpl.
  - split; [discriminate | tauto].
  - rewrite orb_true_iff, IH, String.eqb_eq. split; intros [H|H]; auto.
Qed.

Lemma has_set k k' v m :
  JsMap.has k' (JsMap.set k v m) = String.eqb k' k || JsMap.has k' m.
Proof.
  induction m as [|[k0 v0] m IH]; simpl.
  - reflexivity.
  - destruct (String.eqb_spec k k0) as [->|N0]; simpl.
    + destruct (String.eqb k' k0); reflexivity.
    + rewrite IH. destruct (String.eqb k' k), (String.eqb k' k0); reflexivity.
Qed.

Lemma get_In k v m : JsMap.get k m = Some v -> In (k, v) m.
Proof.
  induction m as [|[k' v'] m IH]; simpl; [discriminate|].
  destruct (String.eqb_spec k k') as [->|N].
  - intros [= ->]. now left.
  - intros H. right. auto.
Qed.

Lemma In_set k0 v0 k v m :
  In (k0, v0) (JsMap.set k v m) -> (k0 = k /\ v0 = v) \/ In (k0, v0) m.
Proof.
  induction m as [|[k' v'] m IH]; simpl.
  - intros [[= <- <-]|[]]. now left.
  - destruct (String.eqb_spec k k') as [->|N]; simpl.
    + intros [[= <- <-]|H]; auto.
    + intros [H|H]; auto. destruct (IH H); auto.
Qed.

Lemma keys_set k v m :
  JsMap.keys (JsMap.set k v m)
  = if JsMap.has k m then JsMap.keys m else (JsMap.keys m ++ [k])%list.
Proof.
  induction m as [|[k' v'] m IH]; simpl; [reflexivity|].
  destruct (String.eqb k k') eqn:E; simpl; [reflexivity|].
  fold (JsMap.keys (JsMap.set k v m)). rewrite IH. now destruct (JsMap.has k m).
Qed.

Lemma set_fresh k v m : JsMap.has k m = false -> JsMap.set k v m = (m ++ [(k, v)])%list.
Proof.
  induction m as [|[k' v'] m IH]; simpl; [reflexivity|].
  intros H. apply orb_false_iff in H as [E H]. rewrite E. now rewrite IH.
Qed.

Lemma keys_nodup_set k v m : NoDup (JsMap.keys m) -> NoDup (JsMap.keys (JsMap.set k v m)).
Proof.
  intros H. rewrite keys_set. destruct (JsMap.has k m) eqn:E; [exact H|].
  apply NoDup_app; [exact H | repeat constructor; intros [] | ].
  intros x Hx [<-|[]]. apply has_In_keys in Hx. congruence.
Qed.

Lemma get_of_nodup k v m : NoDup (JsMap.keys m) -> In (k, v) m -> JsMap.get k m = Some v.
Proof.
  induction m as [|[k' v'] m IH]; simpl; [tauto|].
  intros ND [[= -> ->]|H].
  - now rewrite String.eqb_refl.
  - inversion ND as [|? ? Hn ND']; subst.
    destruct (String.eqb_spec k k') as [->|N].
    + exfalso. apply Hn. change (In (fst (k', v)) (map fst m)). now apply in_map.
    + auto.
Qed.

(** Looking up every key in turn yields the values in order. *)
Lemma get_all_keys m :
  NoDup (JsMap.keys m) ->
  map (fun k => JsMap.get k m) (JsMap.keys m) = map Some (JsMap.values m).
Proof.
  intros ND. unfold JsMap.keys, JsMap.values. rewrite !map_map.
  apply map_ext_in. intros [k v] H. simpl. now apply get_of_nodup.
Qed.

End Facts.
End JsMapFacts.

Module JsSetFacts.

Lemma has_In x s : JsSet.has x s = true <-> In x s.
Proof. apply array_includes_In. Qed.

Lemma In_add x y s : In x (JsSet.add y s) <-> x = y \/ In x s.
Proof.
  unfold JsSet.add. destruct (JsSet.has y s) eqn:E.
  - apply has_In in E. split; [auto | intros [->|H]; auto].
  - rewrite in_app_iff. simpl. intuition congruence.
Qed.

Lemma add_nodup y s : NoDup s -> NoDup (JsSet.add y s).
Proof.
  intros ND. unfold JsSet.add. destruct (JsSet.has y s) eqn:E; [exact ND|].
  apply NoDup_app; [exact ND | repeat constructor; intros [] |].
  intros x Hx [<-|[]]. apply has_In in Hx. congruence.
Qed.

Lemma add_prefix y s : exists t, JsSet.add y s = (s ++ t)%list.
Proof.
  unfold JsSet.add. destruct (JsSet.has y s).
  - exists []. now rewrite app_nil_r.
  - now exists [y].
Qed.

Lemma fold_add_nodup l s :
  NoDup s -> NoDup (fold_left (fun s x => JsSet.add x s) l s).
Proof.
  revert s. induction l as [|x l IH]; simpl; intros s ND; [exact ND|].
  apply IH, add_nodup, ND.
Qed.

Lemma fold_add_prefix l s :
  exists t, fold_left (fun s x => JsSet.add x s) l s = (s ++ t)%list.
Proof.
  revert s. induction l as [|x l IH]; simpl; intros s.
  - exists []. now rewrite app_nil_r.
  - destruct (IH (JsSet.add x s)) as [t Ht]. destruct (add_prefix x s) as [u Hu].
    exists (u ++ t)%list. now rewrite Ht, Hu, app_assoc.
Qed.

Lemma fold_add_In l s x :
  In x (fold_left (fun s x => JsSet.add x s) l s) <-> In x s \/ In x l.
Proof.
  revert s. induction l as [|y l IH]; simpl; intros s; [tauto|].
  rewrite IH, In_add. intuition congruence.
Qed.

Lemma of_list_nodup l : NoDup (JsSet.of_list l).
Proof. apply fold_add_nodup. constructor. Qed.

Lemma of_list_In l x : In x (JsSet.of_list l) <-> In x l.
Proof. unfold JsSet.of_list. rewrite fold_add_In. simpl. tauto. Qed.

Lemma of_list_head x l : hd_error (JsSet.of_list (x :: l)) = Some x.
Proof.
  unfold JsSet.of_list. simpl.
  destruct (fold_add_prefix l (JsSet.add x [])) as [t ->]. reflexivity.
Qed.

End JsSetFacts.

(** ** The reverse index: facts about [push] *)

Module PushFacts.
Import JsMapFacts JsSetFacts.

Lemma push_get ccy m c k :
  JsMap.get k (push ccy m c)
  = if String.eqb k (normalizeCountryCode c)
    then Some (JsSet.add ccy (set_at k m))
    else JsMap.get k m.
Proof.
  unfold push, set_at. generalize (normalizeCountryCode c). intros key.
  destruct (JsMap.has key m) eqn:H; simpl.
  - destruct (JsMap.get key m) as [s|] eqn:Hs.
    + destruct (String.eqb_spec k key) as [E|N]; [subst k|].
      * now rewrite get_set_same, Hs.
      * rewrite get_set_other by congruence. reflexivity.
    + apply has_false_get in Hs. congruence.
  - rewrite get_set_same.
    destruct (String.eqb_spec k key) as [E|N]; [subst k|].
    + rewrite get_set_same. apply has_false_get in H. now rewrite H.
    + rewrite !get_set_other by congruence. reflexivity.
Qed.

Lemma push_mono ccy m c k s0 :
  JsMap.get k m = Some s0 ->
  exists s, JsMap.get k (push ccy m c) = Some s /\ incl s0 s.
Proof.
  intros H. rewrite push_get. destruct (String.eqb k (normalizeCountryCode c)).
  - eexists. split; [reflexivity|]. unfold set_at. rewrite H.
    intros x Hx. apply In_add. now right.
  - exists s0. split; [exact H | apply incl_refl].
Qed.

Lemma push_here ccy m c :
  exists s, JsMap.get (normalizeCountryCode c) (push ccy m c) = Some s /\ In ccy s.
Proof.
  rewrite push_get, String.eqb_refl. eexists. split; [reflexivity|].
  apply In_add. now left.
Qed.

Lemma push_sound ccy m c k s x :
  JsMap.get k (push ccy m c) = Some s -> In x s ->
  (x = ccy /\ k = normalizeCountryCode c)
  \/ (exists s0, JsMap.get k m = Some s0 /\ In x s0).
Proof.
  rewrite push_get. destruct (String.eqb_spec k (normalizeCountryCode c)) as [E|N].
  - intros [= <-] Hx. apply In_add in Hx as [->|Hx]; [now left|].
    right. unfold set_at in Hx. destruct (JsMap.get k m) as [s0|]; [eauto | destruct Hx].
  - intros H Hx. right. eauto.
Qed.

Lemma fold_push_mono ccy l : forall m k s0,
  JsMap.get k m = Some s0 ->
  exists s, JsMap.get k (fold_left (push ccy) l m) = Some s /\ incl s0 s.
Proof.
  induction l as [|c l IH]; simpl; intros m k s0 H.
  - exists s0. split; [exact H | apply incl_refl].
  - destruct (push_mono ccy m c k s0 H) as (s1 & H1 & I1).
    destruct (IH _ _ _ H1) as (s & Hs & I). exists s. split; [exact Hs|].
    eapply incl_tran; eassumption.
Qed.

Lemma fold_push_complete ccy l : forall m c,
  In c l ->
  exists s, JsMap.get (normalizeCountryCode c) (fold_left (push ccy) l m) = Some s
            /\ In ccy s.
Proof.
  induction l as [|c0 l IH]; simpl; intros m c; [tauto|].
  intros [->|H]; [|now apply IH].
  destruct (push_here ccy m c) as (s1 & H1 & I1).
  destruct (fold_push_mono ccy l _ _ _ H1) as (s & Hs & I). eauto.
Qed.

Lemma fold_push_sound ccy l : forall m k s x,
  JsMap.get k (fold_left (push ccy) l m) = Some s -> In x s ->
  (x = ccy /\ In k (map normalizeCountryCode l))
  \/ (exists s0, JsMap.get k m = Some s0 /\ In x s0).
Proof.
  induction l as [|c l IH]; simpl; intros m k s x H Hx; [eauto|].
  destruct (IH _ _ _ _ H Hx) as [[E I]|(s1 & H1 & I1)]; [now auto|].
  destruct (push_sound _ _ _ _ _ _ H1 I1) as [[E K]|R]; auto.
Qed.

End PushFacts.

(** ** The indices after the loading loop *)

Section IndexFacts.
Import JsMapFacts JsSetFacts PushFacts.

Variable aliases : AliasTable.

Lemma build_indices_snoc data e :
  build_indices (data ++ [e]) aliases
  = index_entry aliases (build_indices data aliases) e.
Proof. unfold build_indices. now rewrite fold_left_app. Qed.

Lemma codeToCurrency_snoc data e :
  codeToCurrency (data ++ [e]) aliases
  = JsMap.set (entry_code e) (normalized_entry e) (codeToCurrency data aliases).
Proof. unfold codeToCurrency. now rewrite build_indices_snoc. Qed.

Lemma nameHaystackByCode_snoc data e :
  nameHaystackByCode (data ++ [e]) aliases
  = JsMap.set (entry_code e)
      (haystack_of aliases (entry_code e) (raw_currencyName e))
      (nameHaystackByCode data aliases).
Proof. unfold nameHaystackByCode. now rewrite build_indices_snoc. Qed.

Lemma countryToCurrencyCodes_snoc data e :
  countryToCurrencyCodes (data ++ [e]) aliases
  = fold_left (push (entry_code e)) (otherCountryCodes (normalized_entry e))
      (push (entry_code e) (countryToCurrencyCodes data aliases)
         (primaryCountryCode (normalized_entry e))).
Proof. unfold countryToCurrencyCodes. now rewrite build_indices_snoc. Qed.

Lemma codeToCurrency_keys_nodup data : NoDup (JsMap.keys (codeToCurrency data aliases)).
Proof.
  induction data as [|e data IH] using rev_ind; [constructor|].
  rewrite codeToCurrency_snoc. now apply keys_nodup_set.
Qed.

Lemma nameHaystackByCode_keys data :
  JsMap.keys (nameHaystackByCode data aliases) = JsMap.keys (codeToCurrency data aliases).
Proof.
  induction data as [|e data IH] using rev_ind; [reflexivity|].
  rewrite codeToCurrency_snoc, nameHaystackByCode_snoc, !keys_set, IH.
  replace (JsMap.has (entry_code e) (nameHaystackByCode data aliases))
    with (JsMap.has (entry_code e) (codeToCurrency data aliases)); [reflexivity|].
  apply eq_true_iff_eq. rewrite !has_In_keys, IH. reflexivity.
Qed.

Lemma codeToCurrency_In data k r :
  In (k, r) (codeToCurrency data aliases) ->
  currencyCode r = k /\ exists e, In e data /\ r = normalized_entry e.
Proof.
  induction data as [|e data IH] using rev_ind; [intros []|].
  rewrite codeToCurrency_snoc. intros H.
  apply In_set in H as [[-> ->]|H].
  - split; [reflexivity|]. exists e. split; [|reflexivity].
    apply in_or_app. right. now left.
  - destruct (IH H) as (E & e0 & I0 & R). split; [exact E|].
    exists e0. split; [|exact R]. apply in_or_app. now left.
Qed.

Lemma codeToCurrency_has data e :
  In e data -> JsMap.has (entry_code e) (codeToCurrency data aliases) = true.
Proof.
  induction data as [|e0 data IH] using rev_ind; [intros []|].
  rewrite codeToCurrency_snoc, has_set. intros H.
  apply in_app_or in H as [H|[->|[]]].
  - rewrite (IH H). apply orb_true_r.
  - now rewrite String.eqb_refl.
Qed.

Lemma unique_codes_snoc data e :
  unique_codes (data ++ [e]) ->
  unique_codes data /\ forall e0, In e0 data -> entry_code e0 <> entry_code e.
Proof.
  unfold unique_codes. rewrite map_app. simpl. intros H.
  split; [now apply NoDup_app_remove_r in H|].
  intros e0 I0 E. apply NoDup_remove_2 in H. apply H.
  rewrite app_nil_r, <- E. now apply in_map.
Qed.

(** With unique codes nothing is overwritten: the map holds the normalized
    entries in dataset order. *)
Lemma codeToCurrency_unique data :
  unique_codes data ->
  codeToCurrency data aliases
  = map (fun e => (entry_code e, normalized_entry e)) data.
Proof.
  induction data as [|e data IH] using rev_ind; [reflexivity|].
  intros U. apply unique_codes_snoc in U as [U N].
  rewrite codeToCurrency_snoc, map_app. simpl.
  rewrite <- (IH U). apply set_fresh.
  destruct (JsMap.has (entry_code e) (codeToCurrency data aliases)) eqn:H; [|reflexivity].
  exfalso. apply has_true_get in H as [r H]. apply get_In, codeToCurrency_In in H.
  destruct H as (E & e0 & I0 & ->). now apply (N e0 I0).
Qed.

Lemma codeToCurrency_get_unique data e :
  unique_codes data -> In e data ->
  JsMap.get (entry_code e) (codeToCurrency data aliases) = Some (normalized_entry e).
Proof.
  intros U I. apply get_of_nodup; [apply codeToCurrency_keys_nodup|].
  rewrite (codeToCurrency_unique data U).
  now apply (in_map (fun e => (entry_code e, normalized_entry e))).
Qed.

Lemma normalized_others_fixed e :
  map normalizeCountryCode (otherCountryCodes (normalized_entry e))
  = otherCountryCodes (normalized_entry e).
Proof.
  simpl. rewrite map_map. apply map_ext. intros c. apply normalizeCountryCode_idem.
Qed.

Lemma normalized_primary_fixed e :
  normalizeCountryCode (primaryCountryCode (normalized_entry e))
  = primaryCountryCode (normalized_entry e).
Proof. simpl. apply normalizeCountryCode_idem. Qed.

(** Every code filed under a country belongs to an entry that lists it. *)
Lemma countryToCurrencyCodes_sound data k s ccy :
  JsMap.get k (countryToCurrencyCodes data aliases) = Some s -> In ccy s ->
  exists e, In e data /\ entry_code e = ccy /\ lists_country (normalized_entry e) k.
Proof.
  revert k s ccy. induction data as [|e data IH] using rev_ind; intros k s ccy.
  - discriminate.
  - rewrite countryToCurrencyCodes_snoc. intros H Hx.
    assert (Here : forall e0, In e0 [e] -> In e0 (data ++ [e]))
      by (intros; apply in_or_app; now right).
    assert (There : forall e0, In e0 data -> In e0 (data ++ [e]))
      by (intros; apply in_or_app; now left).
    destruct (fold_push_sound _ _ _ _ _ _ H Hx) as [[-> I]|(s1 & H1 & I1)].
    + rewrite normalized_others_fixed in I.
      exists e. split; [apply Here; now left|]. split; [reflexivity | now right].
    + destruct (push_sound _ _ _ _ _ _ H1 I1) as [[-> ->]|(s0 & H0 & I0)].
      * rewrite normalized_primary_fixed.
        exists e. split; [apply Here; now left|]. split; [reflexivity | now left].
      * destruct (IH _ _ _ H0 I0) as (e0 & Ie & E & L). exists e0. auto.
Qed.

(** Every country an entry lists has the entry's code filed under it. *)
Lemma countryToCurrencyCodes_complete data e k :
  In e data -> lists_country (normalized_entry e) k ->
  exists s, JsMap.get k (countryToCurrencyCodes data aliases) = Some s
            /\ In (entry_code e) s.
Proof.
  induction data as [|e0 data IH] using rev_ind; [intros []|].
  rewrite countryToCurrencyCodes_snoc. intros I L.
  apply in_app_or in I as [I|[->|[]]].
  - destruct (IH I L) as (s0 & H0 & I0).
    destruct (push_mono (entry_code e0) _ (primaryCountryCode (normalized_entry e0)) _ _ H0)
      as (s1 & H1 & I1).
    destruct (fold_push_mono (entry_code e0) (otherCountryCodes (normalized_entry e0))
                _ _ _ H1) as (s & Hs & Is).
    exists s. split; [exact Hs|]. apply Is, I1, I0.
  - destruct L as [<-|L].
    + destruct (push_here (entry_code e) (countryToCurrencyCodes data aliases)
                  (primaryCountryCode (normalized_entry e))) as (s1 & H1 & I1).
      rewrite normalized_primary_fixed in H1.
      destruct (fold_push_mono (entry_code e) (otherCountryCodes (normalized_entry e))
                  _ _ _ H1) as (s & Hs & Is).
      exists s. split; [exact Hs | now apply Is].
    + assert (K : normalizeCountryCode k = k).
      { simpl in L. apply in_map_iff in L as (c & <- & _). apply normalizeCountryCode_idem. }
      rewrite <- K. now apply fold_push_complete.
Qed.

End IndexFacts.

(** ** Lookups by currency code *)

Section CodeLookup.
Import JsMapFacts JsSetFacts.

Variable data : list RawEntry.
Variable aliases : AliasTable.

Lemma getCurrencyByCode_found C r :
  getCurrencyByCode data aliases C = Some r ->
  currencyCode r = normalizeCurrencyCode C /\ exists e, In e data /\ r = normalized_entry e.
Proof.
  unfold getCurrencyByCode. intros H. now apply get_In, codeToCurrency_In in H.
Qed.

Lemma getCurrencyByCode_in_dataset C :
  code_in_dataset data C <-> exists r, getCurrencyByCode data aliases C = Some r.
Proof.
  unfold code_in_dataset, getCurrencyByCode. split.
  - intros (e & I & E). apply has_true_get. rewrite <- E.
    now apply codeToCurrency_has.
  - intros [r H]. apply get_In, codeToCurrency_In in H as (E & e & I & ->).
    exists e. split; [exact I | exact E].
Qed.

Lemma getCurrencyByCode_absent C :
  ~ code_in_dataset data C -> getCurrencyByCode data aliases C = None.
Proof.
  intros N. destruct (getCurrencyByCode data aliases C) as [r|] eqn:H; [|reflexivity].
  exfalso. apply N, getCurrencyByCode_in_dataset. eauto.
Qed.

(** A code of the dataset in another case, with white space around it, is
    still a code of the dataset. *)
Lemma code_in_dataset_insensitive e C pre post :
  In e data ->
  toLowerCase C = toLowerCase (raw_currencyCode e) ->
  all_chars is_ws pre = true -> all_chars is_ws post = true ->
  code_in_dataset data (pre ++ C ++ post).
Proof.
  intros I E Wpre Wpost. exists e. split; [exact I|].
  unfold entry_code. rewrite !normalizeCurrencyCode_eq. symmetry.
  now apply normal_form_insensitive.
Qed.

End CodeLookup.

(** C6. A currency code present in the dataset, written in any case and with
    any surrounding white space, is found by [getCurrencyByCode], and the
    record found carries the trimmed, upper-cased code in [currencyCode]. *)
Theorem getCurrencyByCode_normalized :
  forall (data : list RawEntry) (aliases : AliasTable) (C : string),
    code_in_dataset data C ->
    exists r, getCurrencyByCode data aliases C = Some r
              /\ currencyCode r = toUpperCase (trim C).
Proof.
  intros data aliases C H.
  apply (getCurrencyByCode_in_dataset data aliases) in H as [r H].
  exists r. split; [exact H|].
  rewrite <- normalizeCurrencyCode_eq.
  now apply getCurrencyByCode_found in H.
Qed.

Lemma getCurrencyByCode_normalized_witness :
  exists r, getCurrencyByCode Sample.data Sample.aliases ("  " ++ "uSd" ++ " ") = Some r
            /\ currencyCode r = toUpperCase (trim ("  " ++ "uSd" ++ " ")).
Proof.
  apply (getCurrencyByCode_normalized Sample.data Sample.aliases ("  " ++ "uSd" ++ " ")).
  apply (code_in_dataset_insensitive Sample.data Sample.usd "uSd" "  " " ");
    [simpl; tauto | reflexivity | reflexivity | reflexivity].
Defined.

(** C4. [getAllCountriesUsingCurrency] never repeats a country; for a code of
    the dataset the list starts with the primary country that
    [getPrimaryCountryForCurrency] reports, and for any other code it is
    empty. *)
Theorem getAllCountriesUsingCurrency_spec :
  forall (data : list RawEntry) (aliases : AliasTable) (C : string),
    NoDup (getAllCountriesUsingCurrency data aliases C)
    /\ (code_in_dataset data C ->
        exists p, getPrimaryCountryForCurrency data aliases C = Some p
                  /\ hd_error (getAllCountriesUsingCurrency data aliases C) = Some p)
    /\ (~ code_in_dataset data C ->
        getAllCountriesUsingCurrency data aliases C = []).
Proof.
  intros data aliases C.
  unfold getAllCountriesUsingCurrency, getPrimaryCountryForCurrency.
  split; [|split].
  - destruct (getCurrencyByCode data aliases C) as [r|]; [|constructor].
    apply JsSetFacts.of_list_nodup.
  - intros H. apply (getCurrencyByCode_in_dataset data aliases) in H as [r H].
    rewrite H. exists (primaryCountryCode r). split; [reflexivity|].
    apply JsSetFacts.of_list_head.
  - intros H. now rewrite (getCurrencyByCode_absent data aliases C H).
Qed.

Lemma getAllCountriesUsingCurrency_spec_witness :
  (exists p, getPrimaryCountryForCurrency Sample.data Sample.aliases "eur" = Some p
             /\ hd_error (getAllCountriesUsingCurrency Sample.data Sample.aliases "eur")
                = Some p)
  /\ getAllCountriesUsingCurrency Sample.data Sample.aliases "ZZZ" = [].
Proof.
  split.
  - apply (proj1 (proj2 (getAllCountriesUsingCurrency_spec
                           Sample.data Sample.aliases "eur"))).
    exists Sample.eur. split; [simpl; tauto | reflexivity].
  - apply (proj2 (proj2 (getAllCountriesUsingCurrency_spec
                           Sample.data Sample.aliases "ZZZ"))).
    intros (e & I & E). simpl in I.
    destruct I as [<-|[<-|[<-|[<-|[]]]]]; vm_compute in E; discriminate.
Defined.

(** ** Lookups by country code *)

Lemma entry_mentions_lists e K :
  entry_mentions e K -> lists_country (normalized_entry e) (normalizeCountryCode K).
Proof.
  intros [<-|H]; [now left | right]. simpl. now apply in_map.
Qed.

(** C5. Under the data model's unique currency codes, a country code that an
    entry of the dataset mentions, as primary or among the others, has at
    least one currency, and every record returned for it lists the
    normalized country code as primary or among the others. *)
Theorem getCurrenciesByCountryCode_lists_country :
  forall (data : list RawEntry) (aliases : AliasTable) (e : RawEntry) (K : string),
    unique_codes data ->
    In e data ->
    entry_mentions e K ->
    getCurrenciesByCountryCode data aliases K <> []
    /\ forall o, In o (getCurrenciesByCountryCode data aliases K) ->
         exists r, o = Some r /\ lists_country r (normalizeCountryCode K).
Proof.
  intros data aliases e K U I M.
  apply entry_mentions_lists in M.
  destruct (countryToCurrencyCodes_complete aliases data e _ I M) as (s & Hs & Is).
  unfold getCurrenciesByCountryCode. rewrite Hs. split.
  - destruct s; [destruct Is | discriminate].
  - intros o Ho. apply in_map_iff in Ho as (ccy & <- & Hc).
    destruct (countryToCurrencyCodes_sound aliases data _ _ _ Hs Hc)
      as (e' & I' & <- & L).
    exists (normalized_entry e'). split; [|exact L].
    now apply codeToCurrency_get_unique.
Qed.

Lemma getCurrenciesByCountryCode_lists_country_witness :
  getCurrenciesByCountryCode Sample.data Sample.aliases "FR" <> []
  /\ forall o, In o (getCurrenciesByCountryCode Sample.data Sample.aliases "FR") ->
       exists r, o = Some r /\ lists_country r (normalizeCountryCode "FR").
Proof.
  apply (getCurrenciesByCountryCode_lists_country
           Sample.data Sample.aliases Sample.eur "FR").
  - unfold unique_codes. vm_compute. repeat constructor; simpl; intuition discriminate.
  - simpl. tauto.
  - right. simpl. tauto.
Defined.

Lemma getCurrenciesByCountryCode_sound data aliases K o :
  unique_codes data ->
  In o (getCurrenciesByCountryCode data aliases K) ->
  exists r, o = Some r /\ lists_country r (normalizeCountryCode K).
Proof.
  intros U. unfold getCurrenciesByCountryCode.
  destruct (JsMap.get (normalizeCountryCode K) (countryToCurrencyCodes data aliases))
    as [s|] eqn:Hs; [|intros []].
  intros Ho. apply in_map_iff in Ho as (ccy & <- & Hc).
  destruct (countryToCurrencyCodes_sound aliases data _ _ _ Hs Hc)
    as (e' & I' & <- & L).
  exists (normalized_entry e'). split; [|exact L].
  now apply codeToCurrency_get_unique.
Qed.

(** ** The dispatch of [search] *)

Lemma all_chars_impl (p q : ascii -> bool) s :
  (forall c, p c = true -> q c = true) -> all_chars p s = true -> all_chars q s = true.
Proof.
  intros I. induction s as [|c r IH]; simpl; [reflexivity|].
  rewrite !andb_true_iff. intros [H R]. auto.
Qed.

Lemma isCountry_shaped q : isCountry q = true <-> country_shaped q.
Proof.
  unfold isCountry, countryPattern_test, country_shaped.
  rewrite !andb_true_iff, !Nat.leb_le. split.
  - intros (L3 & (L2 & _) & A). repeat split; assumption.
  - intros ((L2 & L3) & A). repeat split; try assumption. lia.
Qed.

Lemma currency_code_syntax_shaped q : currency_code_syntax q -> country_shaped q.
Proof.
  intros [L A]. split; [lia|].
  revert A. apply all_chars_impl. intros c H.
  unfold letter_or_hyphen. now rewrite H.
Qed.

Lemma search_isCountry data aliases query :
  isCountry (trim query) = true ->
  search data aliases query = getCurrenciesByCountryCode data aliases (trim query).
Proof.
  intros H. unfold search. destruct (truthy query) eqn:T; simpl.
  - now rewrite H.
  - apply truthy_false in T. subst query. discriminate H.
Qed.

(** C1, as the code has it. When the trimmed query is at most three
    characters long and matches the pattern of two to five letters or
    hyphens, [search] returns the country lookup of the trimmed query. *)
Theorem search_short_pattern_country_lookup :
  forall (data : list RawEntry) (aliases : AliasTable) (query : string),
    (String.length (trim query) <= 3)%nat ->
    countryPattern_test (trim query) = true ->
    search data aliases query = getCurrenciesByCountryCode data aliases (trim query).
Proof.
  intros data aliases query L P. apply search_isCountry.
  unfold isCountry. rewrite P, andb_true_r. now apply Nat.leb_le.
Qed.

Lemma search_short_pattern_country_lookup_witness :
  search Sample.data Sample.aliases " fr "
  = getCurrenciesByCountryCode Sample.data Sample.aliases (trim " fr ").
Proof.
  apply (search_short_pattern_country_lookup Sample.data Sample.aliases " fr ").
  - vm_compute. lia.
  - reflexivity.
Defined.

(** C1, as stated, fails: "EURO" matches the pattern of two to five letters,
    yet [search] answers with the name search and not with the (empty)
    country lookup. *)
Lemma search_long_pattern_not_country_lookup :
  countryPattern_test (trim "EURO") = true
  /\ search Sample.data Sample.aliases "EURO"
     <> getCurrenciesByCountryCode Sample.data Sample.aliases (trim "EURO").
Proof. split; [reflexivity | vm_compute; discriminate]. Qed.

(** C2. The country-shape test of [search] comes before the exact-code
    lookup: a query whose trimmed form is two or three letters or hyphens,
    which covers every three-letter currency code, gets the country lookup;
    with unique codes the record stored under the query as a currency code
    is in the answer only if it lists the query as one of its countries;
    [search("US")] is the country lookup of "US". *)
Theorem search_country_shape_before_code :
  forall (data : list RawEntry) (aliases : AliasTable),
    (forall query, country_shaped (trim query) ->
       search data aliases query
       = getCurrenciesByCountryCode data aliases (trim query))
    /\ (forall q, currency_code_syntax q -> country_shaped q)
    /\ (forall query byCode,
          unique_codes data ->
          country_shaped (trim query) ->
          getCurrencyByCode data aliases (trim query) = Some byCode ->
          In (Some byCode) (search data aliases query) ->
          lists_country byCode (normalizeCountryCode (trim query)))
    /\ search data aliases "US" = getCurrenciesByCountryCode data aliases "US".
Proof.
  intros data aliases. split; [|split; [|split]].
  - intros query S. now apply search_isCountry, isCountry_shaped.
  - exact currency_code_syntax_shaped.
  - intros query byCode U S _ I.
    rewrite search_isCountry in I by now apply isCountry_shaped.
    apply (getCurrenciesByCountryCode_sound _ _ _ _ U) in I as (r & [= <-] & L).
    exact L.
  - now apply (search_isCountry data aliases "US").
Qed.

Lemma search_country_shape_before_code_witness :
  search Sample.data Sample.aliases "USD"
  = getCurrenciesByCountryCode Sample.data Sample.aliases (trim "USD")
  /\ country_shaped "USD".
Proof.
  pose proof (search_country_shape_before_code Sample.data Sample.aliases)
    as (Hsearch & Hshape & _).
  assert (S : currency_code_syntax "USD") by (split; reflexivity).
  split.
  - apply (Hsearch "USD"). exact (Hshape "USD" S).
  - exact (Hshape "USD" S).
Defined.

(** The exact-code record exists for "USD" and is not what [search] returns. *)
Example search_USD_is_country_lookup :
  getCurrencyByCode Sample.data Sample.aliases "USD"
  = Some (normalized_entry Sample.usd)
  /\ search Sample.data Sample.aliases "USD" = [].
Proof. split; vm_compute; reflexivity. Qed.

(** ** Searches by name *)

Section NameSearch.
Import JsMapFacts.

Variable data : list RawEntry.
Variable aliases : AliasTable.

Lemma getAllCurrencyEntries_unique :
  unique_codes data ->
  getAllCurrencyEntries data aliases = map normalized_entry data.
Proof.
  intros U. unfold getAllCurrencyEntries, JsMap.values.
  rewrite (codeToCurrency_unique aliases data U), map_map. reflexivity.
Qed.

Lemma getAllCurrencyEntries_nonempty :
  data <> [] -> getAllCurrencyEntries data aliases <> [].
Proof.
  destruct data as [|e l] eqn:D; [congruence|]. intros _ E.
  assert (H : JsMap.has (entry_code e) (codeToCurrency (e :: l) aliases) = true)
    by (apply codeToCurrency_has; now left).
  unfold getAllCurrencyEntries, JsMap.values in E. apply map_eq_nil in E.
  rewrite E in H. discriminate.
Qed.

(** The loop of [findCurrenciesByName] collects, in order, the lookups of
    the codes whose haystack contains [q]. *)
Lemma findCurrenciesByName_loop (c2c : JsMap.t CurrencyRecord) q
  (hay : JsMap.t string) : forall acc,
  fold_left
    (fun results '(code, haystack) =>
       if includes haystack q then (results ++ [JsMap.get code c2c])%list else results)
    hay acc
  = (acc ++ map (fun kv => JsMap.get (fst kv) c2c)
              (filter (fun kv => includes (snd kv) q) hay))%list.
Proof.
  induction hay as [|[code h] hay IH]; simpl; intros acc.
  - now rewrite app_nil_r.
  - rewrite IH. destruct (includes h q); simpl; [|reflexivity].
    now rewrite <- app_assoc.
Qed.

Lemma filter_all {A} (p : A -> bool) l : (forall x, p x = true) -> filter p l = l.
Proof.
  intros H. induction l as [|x l IH]; simpl; [reflexivity|]. now rewrite H, IH.
Qed.

Lemma lookup_all_haystack_keys :
  map (fun kv : string * string => JsMap.get (fst kv) (codeToCurrency data aliases))
    (nameHaystackByCode data aliases)
  = map Some (getAllCurrencyEntries data aliases).
Proof.
  rewrite <- (map_map fst (fun k => JsMap.get k (codeToCurrency data aliases))).
  change (map fst (nameHaystackByCode data aliases))
    with (JsMap.keys (nameHaystackByCode data aliases)).
  rewrite nameHaystackByCode_keys.
  apply get_all_keys, codeToCurrency_keys_nodup.
Qed.

Lemma findCurrenciesByName_blank query :
  query <> "" -> all_chars is_ws query = true ->
  findCurrenciesByName data aliases query = map Some (getAllCurrencyEntries data aliases).
Proof.
  intros N W. unfold findCurrenciesByName.
  apply truthy_true in N. rewrite N. simpl.
  rewrite (trim_all_ws query W). simpl.
  rewrite findCurrenciesByName_loop. simpl.
  rewrite filter_all by (intros kv; apply includes_empty).
  apply lookup_all_haystack_keys.
Qed.

End NameSearch.

(** C10. A query that is not empty and consists of white space only makes
    [findCurrenciesByName] return every stored record, in index order: the
    answer is not empty unless the dataset is, and with unique codes it is
    the whole dataset, normalized, in dataset order. *)
Theorem findCurrenciesByName_whitespace_returns_all :
  forall (data : list RawEntry) (aliases : AliasTable) (query : string),
    query <> "" ->
    all_chars is_ws query = true ->
    findCurrenciesByName data aliases query
    = map Some (getAllCurrencyEntries data aliases)
    /\ (data <> [] -> findCurrenciesByName data aliases query <> [])
    /\ (unique_codes data ->
        findCurrenciesByName data aliases query
        = map (fun e => Some (normalized_entry e)) data).
Proof.
  intros data aliases query N W.
  pose proof (findCurrenciesByName_blank data aliases query N W) as E.
  split; [exact E|]. rewrite E. split.
  - intros D H. apply map_eq_nil in H.
    now apply (getAllCurrencyEntries_nonempty data aliases D).
  - intros U. rewrite (getAllCurrencyEntries_unique data aliases U), map_map.
    reflexivity.
Qed.

Lemma findCurrenciesByName_whitespace_returns_all_witness :
  findCurrenciesByName Sample.data Sample.aliases "  "
  = map Some (getAllCurrencyEntries Sample.data Sample.aliases)
  /\ findCurrenciesByName Sample.data Sample.aliases "  " <> [].
Proof.
  pose proof (findCurrenciesByName_whitespace_returns_all
                Sample.data Sample.aliases "  ") as H.
  destruct H as (E & NE & _).
  - discriminate.
  - reflexivity.
  - split; [exact E | apply NE; discriminate].
Defined.

Section ExactName.
Import JsMapFacts.

Variable data : list RawEntry.
Variable aliases : AliasTable.

Lemma exact_name_match_iff q r :
  exact_name_match aliases q r = true
  <-> toLowerCase (currencyName r) = q
      \/ exists a, In a (or_empty (aliases (currencyCode r))) /\ toLowerCase a = q.
Proof.
  unfold exact_name_match.
  rewrite orb_true_iff, String.eqb_eq, existsb_exists.
  split; (intros [H|(a & I & E)]; [now left | right; exists a; split; [exact I|]]).
  - now apply String.eqb_eq.
  - now apply String.eqb_eq.
Qed.

Lemma exacts_of_includes q r :
  array_includes (exacts_of aliases r (currencyCode r)) q = exact_name_match aliases q r.
Proof.
  apply eq_true_iff_eq.
  rewrite array_includes_In, exact_name_match_iff. unfold exacts_of. simpl.
  rewrite in_map_iff. split.
  - intros [H|(a & E & I)]; eauto.
  - intros [H|(a & I & E)]; eauto.
Qed.

Lemma completion_bind_ret {A B} (x : A) (f : A -> completion B) :
  bind (inr x : completion A) f = f x.
Proof. reflexivity. Qed.

Lemma getCurrenciesByExactName_loop (c2c : JsMap.t CurrencyRecord) q
  (hay : JsMap.t string) : forall acc,
  (forall k, In k (JsMap.keys hay) -> JsMap.has k c2c = true) ->
  fold_left
    (fun (acc : completion (list CurrencyRecord)) '(code, haystack) =>
       bind acc (fun results =>
         match JsMap.get code c2c with
         | None => raise (TypeError "Cannot read properties of undefined")
         | Some entry =>
             if array_includes (exacts_of aliases entry code) q
             then ret (results ++ [entry])%list
             else ret results
         end))
    hay (inr acc)
  = inr (acc ++ flat_map (exact_hits aliases c2c q) (JsMap.keys hay))%list.
Proof.
  induction hay as [|[code h] hay IH]; intros acc K.
  - simpl. now rewrite app_nil_r.
  - cbn [fold_left JsMap.keys map fst flat_map]. unfold exact_hits at 1.
    destruct (proj1 (has_true_get code c2c) (K code (or_introl eq_refl))) as [entry G].
    rewrite completion_bind_ret, G.
    assert (K' : forall k, In k (JsMap.keys hay) -> JsMap.has k c2c = true)
      by (intros k Hk; apply K; now right).
    destruct (array_includes (exacts_of aliases entry code) q).
    + change (ret (acc ++ [entry])%list) with (@inr JsError _ (acc ++ [entry])%list).
      rewrite (IH _ K'). now rewrite <- app_assoc.
    + change (ret acc) with (@inr JsError _ acc).
      rewrite (IH _ K'). reflexivity.
Qed.

Lemma flat_map_ext_in {A B} (f g : A -> list B) l :
  (forall x, In x l -> f x = g x) -> flat_map f l = flat_map g l.
Proof.
  induction l as [|x l IH]; simpl; intros H; [reflexivity|].
  rewrite (H x (or_introl eq_refl)), IH; [reflexivity|]. intros y Hy. apply H. now right.
Qed.

Lemma flat_map_filter {A} (p : A -> bool) l :
  flat_map (fun x => if p x then [x] else []) l = filter p l.
Proof.
  induction l as [|x l IH]; simpl; [reflexivity|]. rewrite IH. now destruct (p x).
Qed.

Lemma exact_hits_all q :
  flat_map (exact_hits aliases (codeToCurrency data aliases) q)
    (JsMap.keys (codeToCurrency data aliases))
  = filter (exact_name_match aliases q) (getAllCurrencyEntries data aliases).
Proof.
  unfold JsMap.keys, getAllCurrencyEntries, JsMap.values.
  rewrite <- flat_map_filter, !flat_map_concat_map, !map_map. f_equal.
  apply map_ext_in. intros [k r] I. simpl. unfold exact_hits.
  rewrite (get_of_nodup k r _ (codeToCurrency_keys_nodup aliases data) I).
  apply codeToCurrency_In in I as [<- _]. now rewrite exacts_of_includes.
Qed.

Lemma getCurrenciesByExactName_filter name :
  name <> "" ->
  getCurrenciesByExactName data aliases name
  = inr (filter (exact_name_match aliases (toLowerCase (trim name)))
           (getAllCurrencyEntries data aliases)).
Proof.
  intros N. unfold getCurrenciesByExactName.
  apply truthy_true in N. rewrite N. cbn [negb].
  change (ret []) with (@inr JsError (list CurrencyRecord) []).
  rewrite (getCurrenciesByExactName_loop (codeToCurrency data aliases)
             (toLowerCase (trim name)) (nameHaystackByCode data aliases) []).
  - simpl. now rewrite nameHaystackByCode_keys, exact_hits_all.
  - intros k. rewrite nameHaystackByCode_keys. apply has_In_keys.
Qed.

End ExactName.

(** ** Flag locators *)

Section FlagFacts.

Variable URL_toString : string -> completion string.

Lemma toFlagFilename_eq code : toFlagFilename code = toLowerCase (trim code) ++ ".svg".
Proof.
  unfold toFlagFilename.
  now rewrite normalizeCountryCode_eq, toLowerCase_toUpperCase.
Qed.

Lemma flagUrlFromCountryCode_eq code :
  flagUrlFromCountryCode URL_toString code
  = URL_toString ("../flags/" ++ toLowerCase (trim code) ++ ".svg").
Proof. unfold flagUrlFromCountryCode. now rewrite toFlagFilename_eq. Qed.

Lemma getFlagUrlByCountryCode_falsy code :
  code = None \/ code = Some "" ->
  getFlagUrlByCountryCode URL_toString code = inr None.
Proof. intros [->| ->]; reflexivity. Qed.

Lemma getFlagUrlByCountryCode_truthy code :
  code <> "" ->
  getFlagUrlByCountryCode URL_toString (Some code)
  = match flagUrlFromCountryCode URL_toString code with
    | inr url => inr (Some url)
    | inl _ => inr None
    end.
Proof.
  intros N. unfold getFlagUrlByCountryCode.
  apply truthy_true in N. rewrite N. cbn [negb].
  now destruct (flagUrlFromCountryCode URL_toString code).
Qed.

End FlagFacts.

(** C8. [getFlagUrlByCountryCode] returns the locator that
    [flagUrlFromCountryCode] resolves for a non-empty code; it returns
    [null] when the code is absent or empty and when the resolution throws;
    whatever the resolver does, it returns and does not throw. *)
Theorem getFlagUrlByCountryCode_null_on_failure :
  forall (URL_toString : string -> completion string) (countryCode : option string),
    (forall code url,
       countryCode = Some code -> code <> "" ->
       flagUrlFromCountryCode URL_toString code = inr url ->
       getFlagUrlByCountryCode URL_toString countryCode = inr (Some url))
    /\ (countryCode = None \/ countryCode = Some "" ->
        getFlagUrlByCountryCode URL_toString countryCode = inr None)
    /\ (forall code e,
          countryCode = Some code ->
          flagUrlFromCountryCode URL_toString code = inl e ->
          getFlagUrlByCountryCode URL_toString countryCode = inr None)
    /\ exists v, getFlagUrlByCountryCode URL_toString countryCode = inr v.
Proof.
  intros URL_toString countryCode. split; [|split; [|split]].
  - intros code url -> N R. rewrite getFlagUrlByCountryCode_truthy by exact N.
    now rewrite R.
  - apply getFlagUrlByCountryCode_falsy.
  - intros code e -> R. destruct (String.eqb_spec code "") as [->|N].
    + reflexivity.
    + rewrite getFlagUrlByCountryCode_truthy by exact N. now rewrite R.
  - destruct countryCode as [code|]; [|now exists None].
    destruct (String.eqb_spec code "") as [->|N]; [now exists None|].
    rewrite getFlagUrlByCountryCode_truthy by exact N.
    destruct (flagUrlFromCountryCode URL_toString code); eauto.
Qed.

Lemma getFlagUrlByCountryCode_null_on_failure_witness :
  getFlagUrlByCountryCode Sample.url_of (Some "US")
  = inr (Some "file:///pkg/flags/us.svg")
  /\ getFlagUrlByCountryCode Sample.url_of (Some "") = inr None
  /\ getFlagUrlByCountryCode Sample.url_of None = inr None
  /\ getFlagUrlByCountryCode Sample.url_fails (Some "US") = inr None.
Proof.
  split; [|split; [|split]].
  - apply (proj1 (getFlagUrlByCountryCode_null_on_failure Sample.url_of (Some "US"))
             "US" "file:///pkg/flags/us.svg");
      [reflexivity | discriminate | reflexivity].
  - apply (proj1 (proj2 (getFlagUrlByCountryCode_null_on_failure
                           Sample.url_of (Some "")))).
    right. reflexivity.
  - apply (proj1 (proj2 (getFlagUrlByCountryCode_null_on_failure Sample.url_of None))).
    left. reflexivity.
  - apply (proj1 (proj2 (proj2 (getFlagUrlByCountryCode_null_on_failure
                                  Sample.url_fails (Some "US"))))
             "US" (TypeError "Invalid URL"));
      reflexivity.
Defined.

(** ** The generated dataset *)

Module GeneratorFacts.
Import Generator JsMapFacts JsSetFacts.

Lemma normalizeCode_normal s : normal_country (normalizeCode s).
Proof.
  unfold normal_country, normalizeCode. rewrite normalizeCountryCode_eq.
  apply normalize_fixed.
Qed.

Lemma ensure_normal code m : countries_normal m -> countries_normal (ensure code m).
Proof.
  intros H. unfold ensure. destruct (JsMap.has code m); simpl; [exact H|].
  intros k e I. apply In_set in I as [[-> ->]|I]; [constructor | eauto].
Qed.

Lemma update_normal code f m :
  (forall e, Forall normal_country (countryCodes e) ->
             Forall normal_country (countryCodes (f e))) ->
  countries_normal m -> countries_normal (update code f m).
Proof.
  intros F H. unfold update. destruct (JsMap.get code m) as [entry|] eqn:G; [|exact H].
  intros k e I. apply In_set in I as [[-> ->]|I]; [|eauto].
  apply F. apply get_In in G. eauto.
Qed.

Lemma add_name_normal name e :
  Forall normal_country (countryCodes e) ->
  Forall normal_country (countryCodes (add_name name e)).
Proof. trivial. Qed.

Lemma add_country_normal cc e :
  normal_country cc ->
  Forall normal_country (countryCodes e) ->
  Forall normal_country (countryCodes (add_country cc e)).
Proof.
  intros N H. simpl. apply Forall_forall. intros x I.
  apply In_add in I as [->|I]; [exact N|].
  now apply (proj1 (Forall_forall _ _) H).
Qed.

Lemma add_currency_normal cca2 m kv :
  normal_country cca2 -> countries_normal m -> countries_normal (add_currency cca2 m kv).
Proof.
  intros N H. destruct kv as [ccy def_name]. unfold add_currency.
  assert (H1 : countries_normal
                 (match def_name with
                  | Some name =>
                      if truthy name
                      then update (normalizeCode (Some ccy)) (add_name name)
                             (ensure (normalizeCode (Some ccy)) m)
                      else ensure (normalizeCode (Some ccy)) m
                  | None => ensure (normalizeCode (Some ccy)) m
                  end)).
  { destruct def_name as [name|]; [destruct (truthy name)|];
      try apply update_normal; try apply ensure_normal; auto using add_name_normal. }
  destruct (truthy cca2); [|exact H1].
  apply update_normal; [|exact H1]. intros e. now apply add_country_normal.
Qed.

Lemma add_country_currencies_normal m c :
  countries_normal m -> countries_normal (add_country_currencies m c).
Proof.
  unfold add_country_currencies. generalize (normalizeCode_normal (cca2 c)).
  generalize (normalizeCode (cca2 c)). intros cc N.
  revert m. induction (currencies c) as [|kv l IH]; simpl; intros m H; [exact H|].
  apply IH. now apply add_currency_normal.
Qed.

Lemma add_code_name_normal m kv :
  countries_normal m -> countries_normal (add_code_name m kv).
Proof.
  intros H. destruct kv as [codeRaw nameRaw]. unfold add_code_name.
  apply update_normal; [intros e; apply add_name_normal|]. now apply ensure_normal.
Qed.

Lemma fold_normal {A} (f : gen_map -> A -> gen_map) l :
  (forall m x, countries_normal m -> countries_normal (f m x)) ->
  forall m, countries_normal m -> countries_normal (fold_left f l m).
Proof.
  intros F. induction l as [|x l IH]; simpl; intros m H; [exact H|]. apply IH, F, H.
Qed.

Lemma collect_normal countries codeToName :
  countries_normal (collect countries codeToName).
Proof.
  unfold collect.
  apply fold_normal; [exact add_code_name_normal|].
  apply fold_normal; [exact add_code_name_normal|].
  apply fold_normal; [exact add_country_currencies_normal|].
  intros k e [].
Qed.

Lemma insert_sorted_In x y l : In x (insert_sorted y l) <-> x = y \/ In x l.
Proof.
  induction l as [|z l IH]; simpl.
  - intuition congruence.
  - destruct (String.leb y z); simpl; rewrite ?IH; intuition congruence.
Qed.

Lemma sort_In x l : In x (sort l) <-> In x l.
Proof.
  induction l as [|y l IH]; simpl; [tauto|].
  rewrite insert_sorted_In, IH. intuition congruence.
Qed.

Lemma PRIMARY_OVERRIDES_normal code v :
  JsMap.get code PRIMARY_OVERRIDES = Some v -> normal_country v.
Proof.
  intros G. apply get_In in G. revert G.
  assert (F : Forall (fun kv => normal_country (snd kv)) PRIMARY_OVERRIDES)
    by (repeat constructor).
  intros I. exact (proj1 (Forall_forall _ _) F (code, v) I).
Qed.

Lemma or_else_normal a b :
  (forall x, a = Some x -> normal_country x) -> normal_country b ->
  normal_country (or_else a b).
Proof.
  intros Ha Hb. destruct a as [x|]; simpl; [|exact Hb].
  destruct (truthy x); [now apply Ha | exact Hb].
Qed.

Lemma record_of_primary_apart code data : primary_apart (record_of code data).
Proof.
  unfold primary_apart, record_of. simpl. intros I.
  apply filter_In in I as [_ I]. now rewrite String.eqb_refl in I.
Qed.

Lemma record_of_normal code data :
  Forall normal_country (countryCodes data) -> entry_normal (record_of code data).
Proof.
  intros H.
  assert (S : forall cc, In cc (sort (countryCodes data)) -> normal_country cc).
  { intros cc I. apply (proj1 (sort_In _ _)) in I.
    exact (proj1 (Forall_forall _ _) H cc I). }
  split; unfold record_of; cbn [raw_primaryCountryCode raw_otherCountryCodes or_empty].
  - apply or_else_normal; [apply PRIMARY_OVERRIDES_normal|].
    apply or_else_normal; [|reflexivity].
    intros c Hd. apply S. destruct (sort (countryCodes data)); [discriminate|].
    injection Hd as ->. now left.
  - apply Forall_forall. intros cc I. apply filter_In in I as [I _]. now apply S.
Qed.

(** What one iteration of the loop of [records_of] pushes. *)
Lemma records_of_loop m codes : forall acc,
  (forall code, In code codes -> JsMap.has code m = true) ->
  exists records,
    fold_left
      (fun (acc : completion (list RawEntry)) code =>
         bind acc (fun records =>
           match JsMap.get code m with
           | None => raise (TypeError "Cannot read properties of undefined")
           | Some data => ret (records ++ [record_of code data])%list
           end))
      codes (inr acc)
    = inr (acc ++ records)%list
    /\ map raw_currencyCode records = codes
    /\ forall r, In r records ->
         exists code data, In (code, data) m /\ r = record_of code data.
Proof.
  induction codes as [|code codes IH]; intros acc K.
  - exists []. simpl. rewrite app_nil_r. repeat split. intros r [].
  - cbn [fold_left].
    destruct (proj1 (has_true_get code m) (K code (or_introl eq_refl))) as [data G].
    rewrite completion_bind_ret, G.
    change (ret (acc ++ [record_of code data])%list)
      with (@inr JsError _ (acc ++ [record_of code data])%list).
    destruct (IH (acc ++ [record_of code data])%list) as (records & E & C & R).
    { intros c I. apply K. now right. }
    exists (record_of code data :: records). rewrite E, <- app_assoc.
    split; [reflexivity|]. split; [simpl; now rewrite C|].
    intros r [<-|I]; [|now apply R].
    exists code, data. split; [now apply get_In | reflexivity].
Qed.

Lemma records_of_total m :
  countries_normal m ->
  exists records,
    records_of m (sort (JsMap.keys m)) = inr records
    /\ map raw_currencyCode records = sort (JsMap.keys m)
    /\ forall r, In r records -> primary_apart r /\ entry_normal r.
Proof.
  intros N. unfold records_of.
  destruct (records_of_loop m (sort (JsMap.keys m)) []) as (records & E & C & R).
  { intros code I. apply (proj1 (sort_In _ _)) in I.
    exact (proj2 (has_In_keys code m) I). }
  exists records. split; [exact E|]. split; [exact C|].
  intros r I. destruct (R r I) as (code & data & Im & ->).
  split; [apply record_of_primary_apart|].
  apply record_of_normal. exact (N code data Im).
Qed.

Lemma build_records_total countries codeToName :
  exists records,
    build_records countries codeToName = inr records
    /\ map raw_currencyCode records = sort (JsMap.keys (collect countries codeToName))
    /\ forall r, In r records -> primary_apart r /\ entry_normal r.
Proof.
  unfold build_records.
  generalize (collect_normal countries codeToName).
  generalize (collect countries codeToName). exact records_of_total.
Qed.

(** *** The generated codes are unique *)

Lemma normalizeCode_code_fixed s : normalizeCurrencyCode (normalizeCode s) = normalizeCode s.
Proof.
  unfold normalizeCode. rewrite normalizeCurrencyCode_eq. apply normalize_fixed.
Qed.

Lemma set_keys_normal k (v : Candidates) m :
  normalizeCurrencyCode k = k -> keys_normal m -> keys_normal (JsMap.set k v m).
Proof.
  intros Nk [ND F]. split; [now apply keys_nodup_set|].
  rewrite keys_set. destruct (JsMap.has k m); [exact F|].
  apply Forall_app. split; [exact F | now constructor].
Qed.

Lemma ensure_keys_normal s m : keys_normal m -> keys_normal (ensure (normalizeCode s) m).
Proof.
  intros H. unfold ensure. destruct (JsMap.has (normalizeCode s) m); simpl; [exact H|].
  apply set_keys_normal; [apply normalizeCode_code_fixed | exact H].
Qed.

Lemma update_keys code f m : JsMap.keys (update code f m) = JsMap.keys m.
Proof.
  unfold update. destruct (JsMap.get code m) as [entry|] eqn:G; [|reflexivity].
  rewrite keys_set.
  now rewrite (proj2 (has_true_get code m) (ex_intro _ entry G)).
Qed.

Lemma update_keys_normal code f m : keys_normal m -> keys_normal (update code f m).
Proof. unfold keys_normal. now rewrite update_keys. Qed.

Lemma add_currency_keys_normal cca2 m kv :
  keys_normal m -> keys_normal (add_currency cca2 m kv).
Proof.
  intros H. destruct kv as [ccy def_name]. unfold add_currency.
  pose proof (ensure_keys_normal (Some ccy) m H) as H0.
  destruct def_name as [name|]; [destruct (truthy name)|]; destruct (truthy cca2);
    repeat apply update_keys_normal; exact H0.
Qed.

Lemma add_country_currencies_keys_normal m c :
  keys_normal m -> keys_normal (add_country_currencies m c).
Proof.
  unfold add_country_currencies. generalize (normalizeCode (cca2 c)). intros cc.
  revert m. induction (currencies c) as [|kv l IH]; simpl; intros m H; [exact H|].
  apply IH. now apply add_currency_keys_normal.
Qed.

Lemma add_code_name_keys_normal m kv : keys_normal m -> keys_normal (add_code_name m kv).
Proof.
  intros H. destruct kv as [codeRaw nameRaw]. unfold add_code_name.
  now apply update_keys_normal, ensure_keys_normal.
Qed.

Lemma fold_keys_normal {A} (f : gen_map -> A -> gen_map) l :
  (forall m x, keys_normal m -> keys_normal (f m x)) ->
  forall m, keys_normal m -> keys_normal (fold_left f l m).
Proof.
  intros F. induction l as [|x l IH]; simpl; intros m H; [exact H|]. apply IH, F, H.
Qed.

Lemma collect_keys_normal countries codeToName :
  keys_normal (collect countries codeToName).
Proof.
  unfold collect.
  apply fold_keys_normal; [exact add_code_name_keys_normal|].
  apply fold_keys_normal; [exact add_code_name_keys_normal|].
  apply fold_keys_normal; [exact add_country_currencies_keys_normal|].
  split; constructor.
Qed.

Lemma insert_sorted_nodup y l : ~ In y l -> NoDup l -> NoDup (insert_sorted y l).
Proof.
  induction l as [|z l IH]; simpl; intros N ND.
  - repeat constructor. intros [].
  - destruct (String.leb y z).
    + constructor; [exact N | exact ND].
    + inversion ND as [|? ? Nz ND']; subst. constructor.
      * rewrite insert_sorted_In. intuition congruence.
      * apply IH; [tauto | exact ND'].
Qed.

Lemma sort_nodup l : NoDup l -> NoDup (sort l).
Proof.
  induction l as [|y l IH]; simpl; intros ND; [constructor|].
  inversion ND as [|? ? Ny ND']; subst.
  apply insert_sorted_nodup; [|now apply IH].
  intros I. apply Ny. exact (proj1 (sort_In _ _) I).
Qed.

Lemma records_unique_codes m records :
  keys_normal m ->
  map raw_currencyCode records = sort (JsMap.keys m) ->
  unique_codes records.
Proof.
  intros [ND F] C. unfold unique_codes, entry_code.
  rewrite <- (map_map raw_currencyCode normalizeCurrencyCode), C.
  replace (map normalizeCurrencyCode (sort (JsMap.keys m))) with (sort (JsMap.keys m)).
  - now apply sort_nodup.
  - rewrite <- (map_id (sort (JsMap.keys m))) at 1. apply map_ext_in.
    intros k I. symmetry.
    exact (proj1 (Forall_forall _ _) F k (proj1 (sort_In _ _) I)).
Qed.

(** The dataset the generator writes meets the data model: its currency
    codes are unique, also after normalization. *)
Lemma build_records_unique_codes countries codeToName records :
  build_records countries codeToName = inr records -> unique_codes records.
Proof.
  intros E.
  destruct (build_records_total countries codeToName) as (records' & E' & C & _).
  rewrite E in E'. injection E' as <-.
  exact (records_unique_codes _ _ (collect_keys_normal countries codeToName) C).
Qed.

End GeneratorFacts.

Lemma normalized_entry_apart e :
  primary_apart e -> entry_normal e ->
  ~ In (primaryCountryCode (normalized_entry e)) (otherCountryCodes (normalized_entry e)).
Proof.
  intros A [Np No]. simpl. unfold normal_country in Np. rewrite Np.
  replace (map normalizeCountryCode (or_empty (raw_otherCountryCodes e)))
    with (or_empty (raw_otherCountryCodes e)); [exact A|].
  symmetry. rewrite <- (map_id (or_empty (raw_otherCountryCodes e))) at 2.
  apply map_ext_in. intros c I. exact (proj1 (Forall_forall _ _) No c I).
Qed.

(** ** The engine loaded with the generated dataset *)

(** For the dataset the generator writes, the country lookup needs no
    assumption: the codes are unique by construction. *)
Lemma generated_dataset_country_lookup countries codeToName records aliases e K :
  Generator.build_records countries codeToName = inr records ->
  In e records ->
  entry_mentions e K ->
  getCurrenciesByCountryCode records aliases K <> []
  /\ forall o, In o (getCurrenciesByCountryCode records aliases K) ->
       exists r, o = Some r /\ lists_country r (normalizeCountryCode K).
Proof.
  intros E I M.
  pose proof (GeneratorFacts.build_records_unique_codes _ _ _ E) as U.
  split.
  - apply entry_mentions_lists in M.
    destruct (countryToCurrencyCodes_complete aliases records e _ I M) as (s & Hs & Is).
    unfold getCurrenciesByCountryCode. rewrite Hs.
    destruct s; [destruct Is | discriminate].
  - intros o. now apply getCurrenciesByCountryCode_sound.
Qed.

(** Duplicate currency codes break the country lookup: the later entry
    replaces the record while the earlier entry's countries stay filed. *)
Example duplicate_codes_break_country_lookup :
  getCurrenciesByCountryCode
    [mkRawEntry "AAA" "First" "US" None; mkRawEntry "AAA" "Second" "GB" None]
    Sample.aliases "US"
  = [Some (mkCurrencyRecord "AAA" "Second" "GB" [])].
Proof. reflexivity. Qed.

(* ===================================================================== *)
(** * Part III: further properties of the engine *)
(* ===================================================================== *)

(** ** More on the indices *)

Section MoreIndexFacts.
Import JsMapFacts JsSetFacts PushFacts.

Variable data : list RawEntry.
Variable aliases : AliasTable.

Lemma push_sets_nodup ccy (m : JsMap.t JsSet.t) c :
  (forall k (s : JsSet.t), JsMap.get k m = Some s -> NoDup s) ->
  forall k (s : JsSet.t), JsMap.get k (push ccy m c) = Some s -> NoDup s.
Proof.
  intros H k s. rewrite push_get.
  destruct (String.eqb k (normalizeCountryCode c)); [|apply H].
  intros [= <-]. apply add_nodup. unfold set_at.
  destruct (JsMap.get k m) as [s0|] eqn:G; [now apply (H k) | constructor].
Qed.

Lemma fold_push_sets_nodup ccy l : forall m : JsMap.t JsSet.t,
  (forall k (s : JsSet.t), JsMap.get k m = Some s -> NoDup s) ->
  forall k (s : JsSet.t), JsMap.get k (fold_left (push ccy) l m) = Some s -> NoDup s.
Proof.
  induction l as [|c l IH]; simpl; intros m H; [exact H|].
  apply IH. now apply push_sets_nodup.
Qed.

Lemma countryToCurrencyCodes_nodup k (s : JsSet.t) :
  JsMap.get k (countryToCurrencyCodes data aliases) = Some s -> NoDup s.
Proof.
  revert k s. induction data as [|e l IH] using rev_ind; [discriminate|].
  rewrite countryToCurrencyCodes_snoc.
  apply fold_push_sets_nodup, push_sets_nodup, IH.
Qed.

Lemma stored_record_lookup k r :
  In (k, r) (codeToCurrency data aliases) ->
  currencyCode r = k /\ getCurrencyByCode data aliases k = Some r.
Proof.
  intros I. pose proof (codeToCurrency_In aliases data k r I) as (E & e & _ & R).
  split; [exact E|]. unfold getCurrencyByCode.
  assert (N : normalizeCurrencyCode k = k).
  { rewrite <- E, R. simpl. apply normalizeCurrencyCode_idem. }
  rewrite N. apply get_of_nodup; [apply codeToCurrency_keys_nodup | exact I].
Qed.

Lemma filed_code_known k s ccy :
  JsMap.get k (countryToCurrencyCodes data aliases) = Some s -> In ccy s ->
  exists r, JsMap.get ccy (codeToCurrency data aliases) = Some r
            /\ currencyCode r = ccy
            /\ getCurrencyByCode data aliases ccy = Some r.
Proof.
  intros G I.
  destruct (countryToCurrencyCodes_sound aliases data _ _ _ G I) as (e & Ie & <- & _).
  destruct (proj1 (has_true_get _ _) (codeToCurrency_has aliases data e Ie)) as [r Gr].
  exists r. split; [exact Gr|]. now apply stored_record_lookup, get_In.
Qed.

Lemma stored_record_filed r k :
  In r (getAllCurrencyEntries data aliases) -> lists_country r k ->
  exists s, JsMap.get k (countryToCurrencyCodes data aliases) = Some s
            /\ In (currencyCode r) s.
Proof.
  intros I L. unfold getAllCurrencyEntries, JsMap.values in I.
  apply in_map_iff in I as ([k0 r0] & <- & I). simpl in *.
  apply codeToCurrency_In in I as (_ & e & Ie & ->).
  now apply countryToCurrencyCodes_complete.
Qed.

Lemma stored_country_normal r k :
  In r (getAllCurrencyEntries data aliases) -> lists_country r k ->
  normalizeCountryCode k = k.
Proof.
  intros I L. unfold getAllCurrencyEntries, JsMap.values in I.
  apply in_map_iff in I as ([k0 r0] & <- & I). simpl in *.
  apply codeToCurrency_In in I as (_ & e & Ie & ->).
  destruct L as [<-|L]; [apply normalized_primary_fixed|].
  simpl in L. apply in_map_iff in L as (c & <- & _). apply normalizeCountryCode_idem.
Qed.

End MoreIndexFacts.

(** X1. The records of [getCurrenciesByCountryCode] are, position by
    position, the records that [getCurrencyByCode] finds for the codes of
    [getCurrencyCodesByCountryCode]: none is undefined, and no code occurs
    twice. *)
Theorem country_lookup_records_match_codes :
  forall (data : list RawEntry) (aliases : AliasTable) (K : string),
    NoDup (getCurrencyCodesByCountryCode data aliases K)
    /\ Forall2
         (fun ccy o => exists r, o = Some r /\ currencyCode r = ccy
                                 /\ getCurrencyByCode data aliases ccy = Some r)
         (getCurrencyCodesByCountryCode data aliases K)
         (getCurrenciesByCountryCode data aliases K).
Proof.
  intros data aliases K.
  unfold getCurrencyCodesByCountryCode, getCurrenciesByCountryCode.
  destruct (JsMap.get (normalizeCountryCode K) (countryToCurrencyCodes data aliases))
    as [s|] eqn:G; [|split; constructor].
  split; [now apply (countryToCurrencyCodes_nodup data aliases _ _ G)|].
  assert (H : forall ccy, In ccy s ->
            exists r, JsMap.get ccy (codeToCurrency data aliases) = Some r
                      /\ currencyCode r = ccy
                      /\ getCurrencyByCode data aliases ccy = Some r)
    by (intros ccy I; exact (filed_code_known data aliases _ _ _ G I)).
  clear G. induction s as [|ccy s IH]; simpl; constructor.
  - destruct (H ccy (or_introl eq_refl)) as (r & Gr & E & L).
    exists r. rewrite Gr. auto.
  - apply IH. intros c I. apply H. now right.
Qed.

(** X2. Lookup round trip of the code index: [getCurrencyCodes] has no
    duplicates and holds exactly the normalized codes of the dataset; it
    lists the codes of [getAllCurrencyEntries] in the same order, and
    [getCurrencyByCode] applied to the code of a stored record returns that
    record. *)
Theorem currency_codes_round_trip :
  forall (data : list RawEntry) (aliases : AliasTable),
    NoDup (getCurrencyCodes data aliases)
    /\ (forall c, In c (getCurrencyCodes data aliases)
                  <-> exists e, In e data /\ entry_code e = c)
    /\ map currencyCode (getAllCurrencyEntries data aliases)
       = getCurrencyCodes data aliases
    /\ (forall r, In r (getAllCurrencyEntries data aliases) ->
                  getCurrencyByCode data aliases (currencyCode r) = Some r).
Proof.
  intros data aliases. unfold getCurrencyCodes, getAllCurrencyEntries.
  split; [apply codeToCurrency_keys_nodup|]. split; [|split].
  - intros c. rewrite <- JsMapFacts.has_In_keys. split.
    + intros H. apply JsMapFacts.has_true_get in H as [r G].
      apply JsMapFacts.get_In, codeToCurrency_In in G as (E & e & Ie & ->). eauto.
    + intros (e & Ie & <-). now apply codeToCurrency_has.
  - unfold JsMap.values, JsMap.keys. rewrite map_map. apply map_ext_in.
    intros [k r] I. simpl. now apply codeToCurrency_In in I.
  - intros r I. unfold JsMap.values in I. apply in_map_iff in I as ([k r0] & <- & I).
    simpl. destruct (stored_record_lookup data aliases k r0 I) as [-> L]. exact L.
Qed.

(** X3. [getCountryCodes] has no duplicates and holds exactly the country
    codes that some stored record lists as primary or other; each of them
    has at least one currency, and with unique currency codes a country
    with a currency is, normalized, one of them. *)
Theorem country_codes_cover_reverse_index :
  forall (data : list RawEntry) (aliases : AliasTable),
    NoDup (getCountryCodes data aliases)
    /\ (forall K, In K (getCountryCodes data aliases)
                  <-> exists r, In r (getAllCurrencyEntries data aliases)
                                /\ lists_country r K)
    /\ (forall K, In K (getCountryCodes data aliases) ->
                  getCurrenciesByCountryCode data aliases K <> [])
    /\ (unique_codes data ->
        forall K, getCurrenciesByCountryCode data aliases K <> [] ->
                  In (normalizeCountryCode K) (getCountryCodes data aliases)).
Proof.
  intros data aliases.
  assert (M : forall K, In K (getCountryCodes data aliases)
                <-> exists r, In r (getAllCurrencyEntries data aliases)
                              /\ lists_country r K).
  { intros K. unfold getCountryCodes, uniqueArray.
    rewrite JsSetFacts.of_list_In, in_flat_map. unfold lists_country. simpl.
    split; intros (r & I & L); exists r; (split; [exact I|]); exact L. }
  split; [apply JsSetFacts.of_list_nodup|]. split; [exact M|]. split.
  - intros K I. apply M in I as (r & I & L).
    destruct (stored_record_filed data aliases r K I L) as (s & G & Is).
    unfold getCurrenciesByCountryCode.
    rewrite (stored_country_normal data aliases r K I L), G.
    destruct s; [destruct Is | discriminate].
  - intros U K NE. apply M.
    destruct (getCurrenciesByCountryCode data aliases K) as [|o l] eqn:E; [congruence|].
    destruct (getCurrenciesByCountryCode_sound data aliases K o U) as (r & -> & L).
    { rewrite E. now left. }
    exists r. split; [|exact L].
    unfold getCurrenciesByCountryCode in E.
    destruct (JsMap.get (normalizeCountryCode K) (countryToCurrencyCodes data aliases))
      as [[|ccy s]|]; try discriminate.
    injection E as E _. apply JsMapFacts.get_In in E.
    unfold getAllCurrencyEntries, JsMap.values.
    change r with (snd (ccy, r)). now apply in_map.
Qed.

Lemma country_lookup_records_match_codes_witness :
  Forall2
    (fun ccy o => exists r, o = Some r /\ currencyCode r = ccy
                            /\ getCurrencyByCode Sample.data Sample.aliases ccy = Some r)
    ["EUR"] (getCurrenciesByCountryCode Sample.data Sample.aliases "de").
Proof.
  exact (proj2 (country_lookup_records_match_codes Sample.data Sample.aliases "de")).
Defined.

Lemma currency_codes_round_trip_witness :
  getCurrencyByCode Sample.data Sample.aliases
    (currencyCode (normalized_entry Sample.gbp))
  = Some (normalized_entry Sample.gbp).
Proof.
  apply (proj2 (proj2 (proj2 (currency_codes_round_trip Sample.data Sample.aliases)))).
  vm_compute. tauto.
Defined.

Lemma country_codes_cover_reverse_index_witness :
  getCurrenciesByCountryCode Sample.data Sample.aliases "JE" <> []
  /\ In (normalizeCountryCode " it") (getCountryCodes Sample.data Sample.aliases).
Proof.
  destruct (country_codes_cover_reverse_index Sample.data Sample.aliases)
    as (_ & _ & NE & R).
  split.
  - apply NE. vm_compute. tauto.
  - apply R.
    + unfold unique_codes. vm_compute. repeat constructor; simpl; intuition discriminate.
    + vm_compute. discriminate.
Defined.

(** X4. Currencies and countries are related both ways: with unique currency
    codes, the normalized country [K] is among
    [getAllCountriesUsingCurrency(C)] exactly when the normalized code [C] is
    among [getCurrencyCodesByCountryCode(K)]. *)
Theorem countries_and_currencies_inverse :
  forall (data : list RawEntry) (aliases : AliasTable) (C K : string),
    unique_codes data ->
    (In (normalizeCountryCode K) (getAllCountriesUsingCurrency data aliases C)
     <-> In (normalizeCurrencyCode C) (getCurrencyCodesByCountryCode data aliases K)).
Proof.
  intros data aliases C K U.
  unfold getAllCountriesUsingCurrency, getCurrencyCodesByCountryCode. split.
  - destruct (getCurrencyByCode data aliases C) as [r|] eqn:G; [|intros []].
    intros I. apply (proj1 (JsSetFacts.of_list_In _ _)) in I.
    destruct (getCurrencyByCode_found data aliases C r G) as (E & e & Ie & ->).
    destruct (countryToCurrencyCodes_complete aliases data e (normalizeCountryCode K) Ie I)
      as (s & Gs & Is).
    rewrite Gs, <- E. exact Is.
  - destruct (JsMap.get (normalizeCountryCode K) (countryToCurrencyCodes data aliases))
      as [s|] eqn:Gs; [|intros []].
    intros I.
    destruct (countryToCurrencyCodes_sound aliases data _ _ _ Gs I) as (e & Ie & E & L).
    unfold getCurrencyByCode. rewrite <- E.
    rewrite (codeToCurrency_get_unique aliases data e U Ie).
    apply (proj2 (JsSetFacts.of_list_In _ _)). exact L.
Qed.

Lemma countries_and_currencies_inverse_witness :
  In (normalizeCountryCode "ec") (getAllCountriesUsingCurrency Sample.data Sample.aliases "usd")
  <-> In (normalizeCurrencyCode "usd")
        (getCurrencyCodesByCountryCode Sample.data Sample.aliases "ec").
Proof.
  apply (countries_and_currencies_inverse Sample.data Sample.aliases "usd" "ec").
  unfold unique_codes. vm_compute. repeat constructor; simpl; intuition discriminate.
Defined.

(** X5. [getCountriesForCurrency] packs the answers of the three single
    getters; its [all] holds exactly the primary and the others, once each;
    for a code that is not in the dataset it is [{null, [], []}]. *)
Theorem getCountriesForCurrency_agrees :
  forall (data : list RawEntry) (aliases : AliasTable) (C : string),
    cfc_primary (getCountriesForCurrency data aliases C)
    = getPrimaryCountryForCurrency data aliases C
    /\ cfc_others (getCountriesForCurrency data aliases C)
       = getOtherCountriesForCurrency data aliases C
    /\ cfc_all (getCountriesForCurrency data aliases C)
       = getAllCountriesUsingCurrency data aliases C
    /\ NoDup (cfc_all (getCountriesForCurrency data aliases C))
    /\ (forall x, In x (cfc_all (getCountriesForCurrency data aliases C))
                  <-> cfc_primary (getCountriesForCurrency data aliases C) = Some x
                      \/ In x (cfc_others (getCountriesForCurrency data aliases C)))
    /\ (~ code_in_dataset data C ->
        getCountriesForCurrency data aliases C = mkCountriesForCurrency None [] []).
Proof.
  intros data aliases C.
  unfold getCountriesForCurrency, getPrimaryCountryForCurrency,
    getOtherCountriesForCurrency, getAllCountriesUsingCurrency.
  destruct (getCurrencyByCode data aliases C) as [r|] eqn:G; simpl.
  - repeat split; try apply JsSetFacts.of_list_nodup.
    + intros I. apply (proj1 (JsSetFacts.of_list_In _ _)) in I as [->|I]; auto.
    + intros [[= <-]|I]; apply (proj2 (JsSetFacts.of_list_In _ _)); simpl; auto.
    + intros N. exfalso. apply N, (getCurrencyByCode_in_dataset data aliases). eauto.
  - repeat split; try constructor; try tauto. intros [H|[]]. discriminate.
Qed.

Lemma getCountriesForCurrency_agrees_witness :
  getCountriesForCurrency Sample.data Sample.aliases "ZZZ"
  = mkCountriesForCurrency None [] [].
Proof.
  apply (proj2 (proj2 (proj2 (proj2 (proj2
           (getCountriesForCurrency_agrees Sample.data Sample.aliases "ZZZ")))))).
  intros (e & I & E). simpl in I.
  destruct I as [<-|[<-|[<-|[<-|[]]]]]; vm_compute in E; discriminate.
Defined.

(** ** Flags of a currency *)

Section CurrencyFlags.

Variable URL_toString : string -> completion string.

Lemma array_map_returns {A B} (f : A -> completion B) l ys :
  array_map f l = inr ys <-> map f l = map inr ys.
Proof.
  revert ys. induction l as [|x l IH]; intros ys; simpl.
  - split.
    + intros [= <-]. reflexivity.
    + destruct ys; [reflexivity | discriminate].
  - destruct (f x) as [e|y] eqn:Fx; simpl.
    + split; [discriminate|]. destruct ys; discriminate.
    + destruct (array_map f l) as [e|zs] eqn:M; simpl.
      * split; [discriminate|]. destruct ys as [|y' ys]; [discriminate|].
        intros [= <- H]. apply IH in H. discriminate.
      * split.
        -- intros [= <-]. simpl. f_equal. now apply IH.
        -- destruct ys as [|y' ys]; [discriminate|]. intros [= <- H].
           apply IH in H. injection H as <-. reflexivity.
Qed.

Lemma array_map_throws {A B} (f : A -> completion B) l x e :
  In x l -> f x = inl e -> exists e', array_map f l = inl e'.
Proof.
  induction l as [|y l IH]; simpl; [tauto|]. intros [->|I] Fx.
  - rewrite Fx. simpl. eauto.
  - destruct (f y) as [e0|z]; simpl; [eauto|].
    destruct (IH I Fx) as [e' ->]. simpl. eauto.
Qed.

Lemma array_map_total {A B} (f : A -> completion B) l :
  (forall x, In x l -> exists y, f x = inr y) -> exists ys, array_map f l = inr ys.
Proof.
  induction l as [|x l IH]; simpl; intros H; [eauto|].
  destruct (H x (or_introl eq_refl)) as [y ->]. simpl.
  destruct IH as [ys ->]; [intros z I; apply H; now right|]. simpl. eauto.
Qed.

End CurrencyFlags.

(** X6. [getFlagUrlByCurrencyCode] returns [null] for a code that is not in
    the dataset; for a known code it resolves the flag of the primary
    country, and an exception of the URL constructor is not caught: where
    [getFlagUrlByCountryCode] answers [null], this function throws. *)
Theorem getFlagUrlByCurrencyCode_propagates :
  forall (URL_toString : string -> completion string)
         (data : list RawEntry) (aliases : AliasTable) (C : string),
    (~ code_in_dataset data C ->
     getFlagUrlByCurrencyCode URL_toString data aliases C = inr None)
    /\ (forall p, getPrimaryCountryForCurrency data aliases C = Some p ->
          (forall url, flagUrlFromCountryCode URL_toString p = inr url ->
             getFlagUrlByCurrencyCode URL_toString data aliases C = inr (Some url))
          /\ (forall e, flagUrlFromCountryCode URL_toString p = inl e ->
                getFlagUrlByCurrencyCode URL_toString data aliases C = inl e
                /\ getFlagUrlByCountryCode URL_toString (Some p) = inr None)).
Proof.
  intros URL_toString data aliases C.
  unfold getFlagUrlByCurrencyCode, getPrimaryCountryForCurrency. split.
  - intros N. now rewrite (getCurrencyByCode_absent data aliases C N).
  - intros p. destruct (getCurrencyByCode data aliases C) as [r|]; [|discriminate].
    intros [= <-]. split.
    + intros url ->. reflexivity.
    + intros e R. rewrite R. split; [reflexivity|].
      destruct (String.eqb_spec (primaryCountryCode r) "") as [->|N]; [reflexivity|].
      rewrite getFlagUrlByCountryCode_truthy by exact N. now rewrite R.
Qed.

Lemma getFlagUrlByCurrencyCode_propagates_witness :
  getFlagUrlByCurrencyCode Sample.url_of Sample.data Sample.aliases "ZZZ" = inr None
  /\ getFlagUrlByCurrencyCode Sample.url_of Sample.data Sample.aliases "eur"
     = inr (Some "file:///pkg/flags/eu.svg")
  /\ getFlagUrlByCurrencyCode Sample.url_fails Sample.data Sample.aliases "eur"
     = inl (TypeError "Invalid URL").
Proof.
  split; [|split].
  - apply (proj1 (getFlagUrlByCurrencyCode_propagates
                    Sample.url_of Sample.data Sample.aliases "ZZZ")).
    intros (e & I & E). simpl in I.
    destruct I as [<-|[<-|[<-|[<-|[]]]]]; vm_compute in E; discriminate.
  - apply (proj1 (proj2 (getFlagUrlByCurrencyCode_propagates
                           Sample.url_of Sample.data Sample.aliases "eur")
                    "EU" eq_refl)).
    reflexivity.
  - apply (proj2 (proj2 (getFlagUrlByCurrencyCode_propagates
                           Sample.url_fails Sample.data Sample.aliases "eur")
                    "EU" eq_refl)
             (TypeError "Invalid URL")).
    reflexivity.
Defined.

(** X7. [getFlagUrlsForCurrency] returns [{primary: null, others: []}] for a
    code that is not in the dataset. For a known code it returns exactly when
    the flag of the primary country and of every other country resolves:
    [primary] is then the locator of the primary country and [others] holds,
    position by position, the locators of the other countries; one
    exception among them makes the whole call throw. *)
Theorem getFlagUrlsForCurrency_all_or_nothing :
  forall (URL_toString : string -> completion string)
         (data : list RawEntry) (aliases : AliasTable) (C : string),
    (~ code_in_dataset data C ->
     getFlagUrlsForCurrency URL_toString data aliases C = inr (mkFlagUrls None []))
    /\ (forall r, getCurrencyByCode data aliases C = Some r ->
          (forall fs,
             getFlagUrlsForCurrency URL_toString data aliases C = inr fs
             <-> exists p,
                   flags_primary fs = Some p
                   /\ flagUrlFromCountryCode URL_toString (primaryCountryCode r) = inr p
                   /\ map (flagUrlFromCountryCode URL_toString) (otherCountryCodes r)
                      = map inr (flags_others fs))
          /\ (forall c e,
                lists_country r c ->
                flagUrlFromCountryCode URL_toString c = inl e ->
                exists e', getFlagUrlsForCurrency URL_toString data aliases C = inl e')).
Proof.
  intros URL_toString data aliases C. unfold getFlagUrlsForCurrency. split.
  - intros N. now rewrite (getCurrencyByCode_absent data aliases C N).
  - intros r ->. split.
    + intros [fp fo]. simpl.
      destruct (flagUrlFromCountryCode URL_toString (primaryCountryCode r))
        as [e|p] eqn:P; simpl.
      * split; [discriminate | intros (p & _ & H & _); discriminate].
      * destruct (array_map (flagUrlFromCountryCode URL_toString) (otherCountryCodes r))
          as [e|os] eqn:M; simpl.
        -- split; [discriminate|]. intros (p' & _ & _ & H).
           apply array_map_returns in H. congruence.
        -- split.
           ++ intros [= <- <-]. exists p. repeat split. now apply array_map_returns.
           ++ intros (p' & -> & [= <-] & H). apply array_map_returns in H.
              rewrite M in H. now injection H as <-.
    + intros c e [<-|L] R.
      * rewrite R. simpl. eauto.
      * destruct (flagUrlFromCountryCode URL_toString (primaryCountryCode r));
          simpl; [eauto|].
        destruct (array_map_throws _ _ _ _ L R) as [e' ->]. simpl. eauto.
Qed.

Lemma getFlagUrlsForCurrency_all_or_nothing_witness :
  getFlagUrlsForCurrency Sample.url_of Sample.data Sample.aliases "gbp"
  = inr (mkFlagUrls (Some "file:///pkg/flags/gb.svg")
           ["file:///pkg/flags/gg.svg"; "file:///pkg/flags/im.svg";
            "file:///pkg/flags/je.svg"])
  /\ exists e', getFlagUrlsForCurrency Sample.url_fails Sample.data Sample.aliases "gbp"
                = inl e'.
Proof.
  destruct (proj2 (getFlagUrlsForCurrency_all_or_nothing
                     Sample.url_of Sample.data Sample.aliases "gbp")
              (normalized_entry Sample.gbp) eq_refl) as [R _].
  destruct (proj2 (getFlagUrlsForCurrency_all_or_nothing
                     Sample.url_fails Sample.data Sample.aliases "gbp")
              (normalized_entry Sample.gbp) eq_refl) as [_ T].
  split.
  - apply R. exists "file:///pkg/flags/gb.svg". repeat split.
  - apply (T "IM" (TypeError "Invalid URL")); [right; simpl; tauto | reflexivity].
Defined.

(** ** Substring search *)

Module IncludesFacts.

Lemma map_chars_app f a b : map_chars f (a ++ b) = map_chars f a ++ map_chars f b.
Proof. induction a as [|c r IH]; simpl; [reflexivity | now rewrite IH]. Qed.

Lemma toLowerCase_app a b : toLowerCase (a ++ b) = toLowerCase a ++ toLowerCase b.
Proof. apply map_chars_app. Qed.

Lemma startsWith_refl h : startsWith h h = true.
Proof.
  induction h as [|c r IH]; simpl; [reflexivity|]. now rewrite Ascii.eqb_refl, IH.
Qed.

Lemma startsWith_app h t q : startsWith h q = true -> startsWith (h ++ t) q = true.
Proof.
  revert h. induction q as [|b q IH]; intros h; [intros _; apply startsWith_empty|].
  destruct h as [|a h]; simpl; [discriminate|].
  rewrite !andb_true_iff. intros [E S]. split; [exact E | now apply IH].
Qed.

Lemma startsWith_prefix q t : startsWith (q ++ t) q = true.
Proof. apply startsWith_app, startsWith_refl. Qed.

Lemma includes_refl h : includes h h = true.
Proof. destruct h; simpl; [reflexivity|]. now rewrite Ascii.eqb_refl, startsWith_refl. Qed.

Lemma includes_app_l h t q : includes h q = true -> includes (h ++ t) q = true.
Proof.
  induction h as [|c r IH]; simpl.
  - rewrite orb_false_r. destruct q; [intros _; apply includes_empty | discriminate].
  - rewrite !orb_true_iff. intros [S|I].
    + left. exact (startsWith_app (String c r) t q S).
    + right. now apply IH.
Qed.

Lemma includes_app_r h t q : includes t q = true -> includes (h ++ t) q = true.
Proof.
  intros I. induction h as [|c r IH]; simpl; [exact I|].
  rewrite IH. apply orb_true_r.
Qed.

(** A string that contains [q] is found inside any joined list it is part
    of. *)
Lemma includes_join sep l a q :
  In a l -> includes a q = true -> includes (join sep l) q = true.
Proof.
  unfold join. induction l as [|x l IH]; [intros []|].
  intros [->|I] Ha; simpl.
  - destruct l; [exact Ha | now apply includes_app_l].
  - destruct l as [|y l]; [destruct I|].
    apply includes_app_r, includes_app_r. now apply IH.
Qed.

Lemma toLowerCase_join sep l :
  toLowerCase (join sep l) = join (toLowerCase sep) (map toLowerCase l).
Proof.
  unfold join. induction l as [|x l IH]; [reflexivity|].
  destruct l as [|y l]; [reflexivity|].
  change (String.concat sep (x :: y :: l)) with (x ++ sep ++ String.concat sep (y :: l)).
  change (String.concat (toLowerCase sep) (map toLowerCase (x :: y :: l)))
    with (toLowerCase x ++ toLowerCase sep
          ++ String.concat (toLowerCase sep) (map toLowerCase (y :: l))).
  now rewrite !toLowerCase_app, IH.
Qed.

End IncludesFacts.

Section HaystackFacts.
Import JsMapFacts IncludesFacts.

Variable data : list RawEntry.
Variable aliases : AliasTable.

Lemma set_map_values {V W} (g : string -> V -> W) k v (m : JsMap.t V) :
  JsMap.set k (g k v) (map (fun kv => (fst kv, g (fst kv) (snd kv))) m)
  = map (fun kv => (fst kv, g (fst kv) (snd kv))) (JsMap.set k v m).
Proof.
  induction m as [|[k' v'] m IH]; simpl; [reflexivity|].
  destruct (String.eqb_spec k k') as [->|N]; simpl; [reflexivity | now rewrite IH].
Qed.

(** Each haystack sits under the key of its record and is built from the
    stored name and the aliases of that key. *)
Lemma nameHaystackByCode_structure :
  nameHaystackByCode data aliases
  = map (fun kv => (fst kv, haystack_of aliases (fst kv) (currencyName (snd kv))))
      (codeToCurrency data aliases).
Proof.
  induction data as [|e l IH] using rev_ind; [reflexivity|].
  rewrite nameHaystackByCode_snoc, codeToCurrency_snoc, IH.
  exact (set_map_values (fun k r => haystack_of aliases k (currencyName r))
           (entry_code e) (normalized_entry e) (codeToCurrency l aliases)).
Qed.

Lemma lookup_matching_haystacks q (m : JsMap.t CurrencyRecord) :
  NoDup (JsMap.keys m) ->
  (forall k r, In (k, r) m -> currencyCode r = k) ->
  forall l, incl l m ->
    map (fun kv : string * string => JsMap.get (fst kv) m)
      (filter (fun kv => includes (snd kv) q)
         (map (fun kv => (fst kv, haystack_of aliases (fst kv) (currencyName (snd kv))))
            l))
    = map Some (filter (fun r => includes (haystack_of_record aliases r) q) (map snd l)).
Proof.
  intros ND K l. induction l as [|[k r] l IH]; intros H; [reflexivity|].
  pose proof (H (k, r) (or_introl eq_refl)) as I.
  assert (H' : incl l m) by (intros kv Hkv; apply H; now right).
  cbn [map filter fst snd]. unfold haystack_of_record at 1. rewrite (K k r I).
  destruct (includes (haystack_of aliases k (currencyName r)) q).
  - cbn [map fst]. rewrite (get_of_nodup k r _ ND I). f_equal. exact (IH H').
  - exact (IH H').
Qed.

Lemma findCurrenciesByName_filter query :
  query <> "" ->
  findCurrenciesByName data aliases query
  = map Some
      (filter (fun r => includes (haystack_of_record aliases r)
                          (toLowerCase (trim query)))
         (getAllCurrencyEntries data aliases)).
Proof.
  intros N. unfold findCurrenciesByName.
  apply truthy_true in N. rewrite N. cbn [negb].
  rewrite findCurrenciesByName_loop. cbn [app].
  rewrite nameHaystackByCode_structure.
  apply lookup_matching_haystacks.
  - apply codeToCurrency_keys_nodup.
  - intros k r I. now apply codeToCurrency_In in I.
  - apply incl_refl.
Qed.

Lemma haystack_includes_name r q :
  includes (toLowerCase (currencyName r)) q = true ->
  includes (haystack_of_record aliases r) q = true.
Proof.
  intros H. unfold haystack_of_record, haystack_of.
  rewrite toLowerCase_app. now apply includes_app_l.
Qed.

Lemma haystack_includes_alias r a q :
  In a (or_empty (aliases (currencyCode r))) ->
  includes (toLowerCase a) q = true ->
  includes (haystack_of_record aliases r) q = true.
Proof.
  intros I H. unfold haystack_of_record, haystack_of.
  rewrite !toLowerCase_app. apply includes_app_r, includes_app_r.
  rewrite toLowerCase_join. apply (includes_join _ _ (toLowerCase a)); [|exact H].
  now apply in_map.
Qed.

End HaystackFacts.

(** X11. Every record that [getCurrenciesByExactName] returns for a name is
    also returned by [findCurrenciesByName] for that name. *)
Theorem exact_name_results_are_substring_results :
  forall (data : list RawEntry) (aliases : AliasTable) (name : string)
         (results : list CurrencyRecord) (r : CurrencyRecord),
    getCurrenciesByExactName data aliases name = inr results ->
    In r results ->
    In (Some r) (findCurrenciesByName data aliases name).
Proof.
  intros data aliases name results r E I.
  destruct (String.eqb_spec name "") as [->|N].
  - injection E as <-. destruct I.
  - rewrite (getCurrenciesByExactName_filter data aliases name N) in E.
    injection E as <-. apply filter_In in I as [I M].
    rewrite (findCurrenciesByName_filter data aliases name N).
    apply in_map, filter_In. split; [exact I|].
    apply exact_name_match_iff in M as [<-|(a & Ia & <-)].
    + apply haystack_includes_name, IncludesFacts.includes_refl.
    + apply (haystack_includes_alias aliases r a _ Ia), IncludesFacts.includes_refl.
Qed.

Lemma exact_name_results_are_substring_results_witness :
  In (Some (normalized_entry Sample.usd))
    (findCurrenciesByName Sample.data Sample.aliases "Us Dollar").
Proof.
  apply (exact_name_results_are_substring_results
           Sample.data Sample.aliases "Us Dollar" [normalized_entry Sample.usd]).
  - vm_compute. reflexivity.
  - now left.
Defined.

(** The separator of the haystack can be searched for: a bar matches every
    record. *)
Example findCurrenciesByName_bar :
  forall data aliases,
    findCurrenciesByName data aliases "|"
    = map Some (getAllCurrencyEntries data aliases).
Proof.
  intros data aliases. rewrite findCurrenciesByName_filter by discriminate.
  f_equal. apply filter_all. intros r.
  unfold haystack_of_record, haystack_of.
  rewrite IncludesFacts.toLowerCase_app. apply IncludesFacts.includes_app_r.
  rewrite IncludesFacts.toLowerCase_app. apply IncludesFacts.includes_app_l. reflexivity.
Qed.

(** ** The other branches of [search] *)

Lemma isCountry_not_shaped q : ~ country_shaped q -> isCountry q = false.
Proof.
  intros N. destruct (isCountry q) eqn:E; [|reflexivity].
  exfalso. now apply N, isCountry_shaped.
Qed.

(** X12. A non-empty query whose trimmed form is a currency code of the
    dataset, and is not two or three letters or hyphens, makes [search]
    return the one record [getCurrencyByCode] finds for it. *)
Theorem search_exact_code :
  forall (data : list RawEntry) (aliases : AliasTable) (query : string),
    query <> "" ->
    ~ country_shaped (trim query) ->
    code_in_dataset data (trim query) ->
    exists r, search data aliases query = [Some r]
              /\ getCurrencyByCode data aliases query = Some r
              /\ currencyCode r = toUpperCase (trim query).
Proof.
  intros data aliases query N S D.
  apply (getCurrencyByCode_in_dataset data aliases) in D as [r G].
  exists r. unfold search.
  apply truthy_true in N. rewrite N. cbn [negb].
  rewrite (isCountry_not_shaped _ S), G. split; [reflexivity|].
  assert (E : getCurrencyByCode data aliases query
              = getCurrencyByCode data aliases (trim query)).
  { unfold getCurrencyByCode. now rewrite !normalizeCurrencyCode_eq, trim_idem. }
  rewrite E. split; [exact G|].
  apply getCurrencyByCode_found in G as [-> _].
  now rewrite normalizeCurrencyCode_eq, trim_idem.
Qed.

Lemma search_exact_code_witness :
  exists r, search SampleOdd.data Sample.aliases " usdt" = [Some r]
            /\ getCurrencyByCode SampleOdd.data Sample.aliases " usdt" = Some r
            /\ currencyCode r = toUpperCase (trim " usdt").
Proof.
  apply (search_exact_code SampleOdd.data Sample.aliases " usdt").
  - discriminate.
  - intros [L _]. vm_compute in L. lia.
  - exists (mkRawEntry "usdt" "Tether" "XX" None). split; [simpl; tauto | reflexivity].
Defined.



(** ** [src/utils.js] once more *)

Lemma upper_char_not_lower c : is_lower (upper_char c) = false.
Proof. JsStringFacts.by_cases_on_char c. Qed.

Lemma toUpperCase_no_lower s :
  all_chars (fun c => negb (is_lower c)) (toUpperCase s) = true.
Proof.
  induction s as [|c r IH]; simpl; [reflexivity|].
  rewrite upper_char_not_lower. exact IH.
Qed.

Lemma fold_add_cons x l : forall acc,
  fold_left (fun s y => JsSet.add y s) l (x :: acc)
  = x :: fold_left (fun s y => JsSet.add y s)
           (filter (fun y => negb (String.eqb y x)) l) acc.
Proof.
  induction l as [|y l IH]; intros acc; simpl; [reflexivity|].
  unfold JsSet.add at 2. unfold JsSet.has. simpl.
  destruct (String.eqb y x); simpl.
  - apply IH.
  - rewrite <- IH. f_equal. unfold JsSet.add, JsSet.has.
    now destruct (existsb (String.eqb y) acc).
Qed.

Lemma uniqueArray_cons x l :
  uniqueArray (x :: l)
  = x :: uniqueArray (filter (fun y => negb (String.eqb y x)) l).
Proof. unfold uniqueArray, JsSet.of_list. simpl. apply fold_add_cons. Qed.

Lemma filter_out_absent x l :
  ~ In x l -> filter (fun y => negb (String.eqb y x)) l = l.
Proof.
  induction l as [|y l IH]; simpl; intros N; [reflexivity|].
  destruct (String.eqb_spec y x) as [->|_]; simpl; [tauto|].
  rewrite IH; tauto.
Qed.

(** X14. [uniqueArray] keeps the first occurrence of every value, in order:
    the result has no duplicate and the same members; its head is the head
    of the input and its tail the unique values of the rest without that
    head; a list without duplicates comes back unchanged, so applying the
    function twice changes nothing more. *)
Theorem uniqueArray_keeps_first_occurrences :
  forall (values : list string),
    NoDup (uniqueArray values)
    /\ (forall x, In x (uniqueArray values) <-> In x values)
    /\ (forall x rest, values = x :: rest ->
          uniqueArray values
          = x :: uniqueArray (filter (fun y => negb (String.eqb y x)) rest))
    /\ (NoDup values -> uniqueArray values = values)
    /\ uniqueArray (uniqueArray values) = uniqueArray values.
Proof.
  assert (F : forall l, NoDup l -> uniqueArray l = l).
  { induction l as [|x l IH]; intros ND; [reflexivity|].
    inversion ND as [|? ? Nx ND']; subst.
    now rewrite uniqueArray_cons, (filter_out_absent x l Nx), IH. }
  intros values. split; [apply JsSetFacts.of_list_nodup|].
  split; [intros x; apply JsSetFacts.of_list_In|]. split; [|split].
  - intros x rest ->. apply uniqueArray_cons.
  - apply F.
  - apply F, JsSetFacts.of_list_nodup.
Qed.

Lemma uniqueArray_keeps_first_occurrences_witness :
  uniqueArray ["GB"; "GG"; "IM"] = ["GB"; "GG"; "IM"]
  /\ uniqueArray ["US"; "AS"; "US"; "AS"; "EC"]
     = "US" :: uniqueArray ["AS"; "AS"; "EC"].
Proof.
  split.
  - apply (proj1 (proj2 (proj2 (proj2
             (uniqueArray_keeps_first_occurrences ["GB"; "GG"; "IM"]))))).
    repeat constructor; simpl; intuition discriminate.
  - exact (proj1 (proj2 (proj2
             (uniqueArray_keeps_first_occurrences ["US"; "AS"; "US"; "AS"; "EC"])))
             "US" ["AS"; "US"; "AS"; "EC"] eq_refl).
Defined.

(** X15. The two normalizers are the same function. Normalizing twice is
    normalizing once; the result has no white space at either end and no
    lower-case letter; inputs that differ in case and in surrounding white
    space only have the same normal form. *)
Theorem normalizers_canonical :
  forall (code : string),
    normalizeCurrencyCode code = normalizeCountryCode code
    /\ normalizeCountryCode (normalizeCountryCode code) = normalizeCountryCode code
    /\ trim (normalizeCountryCode code) = normalizeCountryCode code
    /\ all_chars (fun c => negb (is_lower c)) (normalizeCountryCode code) = true
    /\ (forall code' pre post,
          toLowerCase code = toLowerCase code' ->
          all_chars is_ws pre = true -> all_chars is_ws post = true ->
          normalizeCountryCode (pre ++ code ++ post) = normalizeCountryCode code').
Proof.
  intros code. split; [reflexivity|].
  split; [apply normalizeCountryCode_idem|].
  rewrite !normalizeCountryCode_eq. split; [|split].
  - now rewrite trim_toUpperCase, trim_idem.
  - apply toUpperCase_no_lower.
  - intros code' pre post E Wpre Wpost. rewrite !normalizeCountryCode_eq.
    now apply normal_form_insensitive.
Qed.

Lemma normalizers_canonical_witness :
  normalizeCountryCode (" " ++ "uS" ++ "  ") = normalizeCountryCode "Us".
Proof.
  apply (proj2 (proj2 (proj2 (proj2 (normalizers_canonical "uS")))) "Us" " " "  ");
    reflexivity.
Defined.

(** ** The generator, end to end *)

Module GeneratorMore.
Import Generator JsMapFacts JsSetFacts GeneratorFacts.

Lemma compare_trans_le : forall a b c,
  String.compare a b <> Gt -> String.compare b c <> Gt -> String.compare a c <> Gt.
Proof.
  induction a as [|x a IH]; intros [|y b] [|z c]; simpl; try congruence.
  unfold Ascii.compare.
  destruct (N.compare_spec (N_of_ascii x) (N_of_ascii y)) as [E1|L1|G1];
  destruct (N.compare_spec (N_of_ascii y) (N_of_ascii z)) as [E2|L2|G2];
  destruct (N.compare_spec (N_of_ascii x) (N_of_ascii z)) as [E3|L3|G3];
    try congruence; try lia; try (intros; apply (IH b c); assumption).
Qed.

Lemma leb_trans a b c :
  String.leb a b = true -> String.leb b c = true -> String.leb a c = true.
Proof.
  unfold String.leb. intros H1 H2. pose proof (compare_trans_le a b c) as H.
  destruct (String.compare a b), (String.compare b c), (String.compare a c);
    try reflexivity; try discriminate; exfalso; apply H; congruence.
Qed.

Lemma leb_false_flip a b : String.leb a b = false -> String.leb b a = true.
Proof. intros H. destruct (String.leb_total a b) as [E|E]; congruence. Qed.

Lemma insert_sorted_ascending y l : ascending l -> ascending (insert_sorted y l).
Proof.
  unfold ascending. induction l as [|z l IH]; simpl; intros S.
  - repeat constructor.
  - inversion S as [|? ? S' F]; subst. destruct (String.leb y z) eqn:E.
    + constructor; [exact S|]. constructor; [exact E|].
      apply Forall_forall. intros w Iw. apply (leb_trans y z w E).
      exact (proj1 (Forall_forall _ _) F w Iw).
    + constructor; [now apply IH|]. apply Forall_forall. intros w Iw.
      apply insert_sorted_In in Iw as [->|Iw]; [now apply leb_false_flip|].
      exact (proj1 (Forall_forall _ _) F w Iw).
Qed.

Lemma sort_ascending l : ascending (sort l).
Proof.
  induction l as [|y l IH]; simpl; [constructor | now apply insert_sorted_ascending].
Qed.

Lemma ascending_head_least x l y : ascending (x :: l) -> In y (x :: l) -> String.leb x y = true.
Proof.
  intros S [<-|I].
  - destruct (String.leb_total x x); assumption.
  - inversion S as [|? ? _ F]; subst. exact (proj1 (Forall_forall _ _) F y I).
Qed.

Lemma ascending_filter p l : ascending l -> ascending (filter p l).
Proof.
  unfold ascending. induction l as [|x l IH]; simpl; intros S; [constructor|].
  inversion S as [|? ? S' F]; subst. destruct (p x); [|now apply IH].
  constructor; [now apply IH|]. apply Forall_forall. intros w Iw.
  apply filter_In in Iw as [Iw _]. exact (proj1 (Forall_forall _ _) F w Iw).
Qed.

(** *** The candidates of a code after each operation *)

Lemma cands_set k code v m :
  cands k (JsMap.set code v m) = if String.eqb k code then v else cands k m.
Proof.
  unfold cands. destruct (String.eqb_spec k code) as [->|N].
  - now rewrite get_set_same.
  - rewrite get_set_other by congruence. reflexivity.
Qed.

Lemma cands_ensure k code m : cands k (ensure code m) = cands k m.
Proof.
  unfold ensure. destruct (JsMap.has code m) eqn:H; simpl; [reflexivity|].
  rewrite cands_set. destruct (String.eqb_spec k code) as [->|]; [|reflexivity].
  unfold cands. apply has_false_get in H. now rewrite H.
Qed.

Lemma has_ensure k code (m : gen_map) :
  JsMap.has k (ensure code m) = String.eqb k code || JsMap.has k m.
Proof.
  unfold ensure. destruct (JsMap.has code m) eqn:H; simpl; [|apply has_set].
  destruct (String.eqb_spec k code) as [->|]; simpl; [now rewrite H | reflexivity].
Qed.

Lemma has_update k code f (m : gen_map) : JsMap.has k (update code f m) = JsMap.has k m.
Proof. apply eq_true_iff_eq. now rewrite !has_In_keys, update_keys. Qed.

Lemma cands_update k code f m :
  JsMap.has code m = true ->
  cands k (update code f m) = if String.eqb k code then f (cands k m) else cands k m.
Proof.
  intros H. apply has_true_get in H as [e G]. unfold update. rewrite G, cands_set.
  destruct (String.eqb_spec k code) as [->|]; [|reflexivity].
  unfold cands. now rewrite G.
Qed.

Lemma has_ensured code (m : gen_map) : JsMap.has code (ensure code m) = true.
Proof. now rewrite has_ensure, String.eqb_refl. Qed.

Lemma has_add_currency k cc m ccy def :
  JsMap.has k (add_currency cc m (ccy, def))
  = String.eqb k (normalizeCode (Some ccy)) || JsMap.has k m.
Proof.
  unfold add_currency.
  destruct def as [name|]; [destruct (truthy name)|]; destruct (truthy cc);
    rewrite ?has_update; apply has_ensure.
Qed.

Lemma countryCodes_add_currency k cc m ccy def :
  countryCodes (cands k (add_currency cc m (ccy, def)))
  = if String.eqb k (normalizeCode (Some ccy)) && truthy cc
    then JsSet.add cc (countryCodes (cands k m))
    else countryCodes (cands k m).
Proof.
  unfold add_currency. set (code := normalizeCode (Some ccy)).
  pose proof (has_ensured code m) as H0.
  assert (H1 : forall n, JsMap.has code (update code (add_name n) (ensure code m)) = true)
    by (intros n; now rewrite has_update).
  destruct def as [name|]; [destruct (truthy name)|]; destruct (truthy cc);
    rewrite ?andb_true_r, ?andb_false_r;
    repeat (rewrite cands_update by auto);
    rewrite ?cands_ensure;
    destruct (String.eqb k code); reflexivity.
Qed.

Lemma nameCandidates_add_currency k cc m ccy def :
  nameCandidates (cands k (add_currency cc m (ccy, def)))
  = match def with
    | Some name =>
        if String.eqb k (normalizeCode (Some ccy)) && truthy name
        then JsSet.add name (nameCandidates (cands k m))
        else nameCandidates (cands k m)
    | None => nameCandidates (cands k m)
    end.
Proof.
  unfold add_currency. set (code := normalizeCode (Some ccy)).
  pose proof (has_ensured code m) as H0.
  assert (H1 : forall n, JsMap.has code (update code (add_name n) (ensure code m)) = true)
    by (intros n; now rewrite has_update).
  destruct def as [name|]; [destruct (truthy name)|]; destruct (truthy cc);
    rewrite ?andb_true_r, ?andb_false_r;
    repeat (rewrite cands_update by auto);
    rewrite ?cands_ensure;
    destruct (String.eqb k code); reflexivity.
Qed.

Lemma has_add_code_name k m codeRaw nameRaw :
  JsMap.has k (add_code_name m (codeRaw, nameRaw))
  = String.eqb k (normalizeCode (Some codeRaw)) || JsMap.has k m.
Proof. unfold add_code_name. rewrite has_update. apply has_ensure. Qed.

Lemma cands_add_code_name k m codeRaw nameRaw :
  cands k (add_code_name m (codeRaw, nameRaw))
  = if String.eqb k (normalizeCode (Some codeRaw))
    then add_name nameRaw (cands k m)
    else cands k m.
Proof.
  unfold add_code_name. rewrite cands_update by apply has_ensured.
  now rewrite cands_ensure.
Qed.

(** *** The map after the loops *)

Lemma countries_loop_flat countries : forall m,
  fold_left add_country_currencies countries m
  = fold_left visit (country_currencies countries) m.
Proof.
  induction countries as [|c l IH]; intros m; [reflexivity|].
  unfold country_currencies in *. simpl. rewrite fold_left_app, <- IH. f_equal.
  unfold add_country_currencies. generalize (normalizeCode (cca2 c)). intros cc.
  revert m. induction (currencies c) as [|kv kvs IHk]; intros m; [reflexivity|].
  simpl. apply IHk.
Qed.

Lemma collect_flat countries codeToName :
  collect countries codeToName
  = fold_left add_code_name (codeToName ++ EXTRA_CODES)%list
      (fold_left visit (country_currencies countries) []).
Proof. unfold collect. now rewrite fold_left_app, countries_loop_flat. Qed.

Lemma visit_snoc P p : fold_left visit (P ++ [p]) [] = visit (fold_left visit P []) p.
Proof. now rewrite fold_left_app. Qed.

Lemma truthy_nonempty s : truthy s = true <-> s <> "".
Proof. apply truthy_true. Qed.

Lemma visited_countryCodes P k x :
  In x (countryCodes (cands k (fold_left visit P [])))
  <-> exists ccy def, In (x, (ccy, def)) P /\ normalizeCode (Some ccy) = k /\ x <> "".
Proof.
  induction P as [|[cc [ccy def]] P IH] using rev_ind.
  - simpl. split; [intros [] | intros (? & ? & [] & _)].
  - rewrite visit_snoc. unfold visit. cbn [fst snd].
    rewrite countryCodes_add_currency.
    assert (Old : In x (countryCodes (cands k (fold_left visit P []))) ->
                  exists ccy0 def0, In (x, (ccy0, def0)) (P ++ [(cc, (ccy, def))])
                                    /\ normalizeCode (Some ccy0) = k /\ x <> "").
    { intros I. apply IH in I as (c0 & d0 & I0 & E0 & N0).
      exists c0, d0. split; [apply in_or_app; now left | now split]. }
    destruct (String.eqb_spec k (normalizeCode (Some ccy))) as [K|K];
      destruct (truthy cc) eqn:T; cbn [andb].
    + rewrite In_add. split.
      * intros [->|I]; [|now apply Old].
        exists ccy, def. split; [apply in_or_app; right; now left|].
        split; [now symmetry | now apply truthy_nonempty].
      * intros (c0 & d0 & I0 & E0 & N0). apply in_app_or in I0 as [I0|[[= -> _ _]|[]]].
        -- right. apply IH. eauto.
        -- now left.
    + split; [exact Old|].
      intros (c0 & d0 & I0 & E0 & N0). apply in_app_or in I0 as [I0|[[= -> _ _]|[]]].
      * apply IH. eauto.
      * apply truthy_false in T. congruence.
    + split; [exact Old|].
      intros (c0 & d0 & I0 & E0 & N0). apply in_app_or in I0 as [I0|[[= _ -> _]|[]]].
      * apply IH. eauto.
      * congruence.
    + split; [exact Old|].
      intros (c0 & d0 & I0 & E0 & N0). apply in_app_or in I0 as [I0|[[= _ -> _]|[]]].
      * apply IH. eauto.
      * congruence.
Qed.

Lemma visited_countryCodes_nodup P k :
  NoDup (countryCodes (cands k (fold_left visit P []))).
Proof.
  induction P as [|[cc [ccy def]] P IH] using rev_ind; [constructor|].
  rewrite visit_snoc. unfold visit. cbn [fst snd]. rewrite countryCodes_add_currency.
  destruct (String.eqb k (normalizeCode (Some ccy)) && truthy cc); [|exact IH].
  now apply add_nodup.
Qed.

Lemma visited_nameCandidates P k n :
  In n (nameCandidates (cands k (fold_left visit P [])))
  <-> exists cc ccy, In (cc, (ccy, Some n)) P /\ normalizeCode (Some ccy) = k /\ n <> "".
Proof.
  induction P as [|[cc [ccy def]] P IH] using rev_ind.
  - simpl. split; [intros [] | intros (? & ? & [] & _)].
  - rewrite visit_snoc. unfold visit. cbn [fst snd].
    rewrite nameCandidates_add_currency.
    assert (Old : In n (nameCandidates (cands k (fold_left visit P []))) ->
                  exists cc0 ccy0, In (cc0, (ccy0, Some n)) (P ++ [(cc, (ccy, def))])
                                   /\ normalizeCode (Some ccy0) = k /\ n <> "").
    { intros I. apply IH in I as (c0 & d0 & I0 & E0 & N0).
      exists c0, d0. split; [apply in_or_app; now left | now split]. }
    destruct def as [name|].
    + destruct (String.eqb_spec k (normalizeCode (Some ccy))) as [K|K];
        destruct (truthy name) eqn:T; cbn [andb].
      * rewrite In_add. split.
        -- intros [->|I]; [|now apply Old].
           exists cc, ccy. split; [apply in_or_app; right; now left|].
           split; [now symmetry | now apply truthy_nonempty].
        -- intros (c0 & d0 & I0 & E0 & N0).
           apply in_app_or in I0 as [I0|[[= _ _ ->]|[]]]; [right; apply IH; eauto | now left].
      * split; [exact Old|]. intros (c0 & d0 & I0 & E0 & N0).
        apply in_app_or in I0 as [I0|[[= _ _ ->]|[]]]; [apply IH; eauto|].
        apply truthy_false in T. congruence.
      * split; [exact Old|]. intros (c0 & d0 & I0 & E0 & N0).
        apply in_app_or in I0 as [I0|[[= _ -> _]|[]]]; [apply IH; eauto | congruence].
      * split; [exact Old|]. intros (c0 & d0 & I0 & E0 & N0).
        apply in_app_or in I0 as [I0|[[= _ -> _]|[]]]; [apply IH; eauto | congruence].
    + split; [exact Old|]. intros (c0 & d0 & I0 & E0 & N0).
      apply in_app_or in I0 as [I0|[H|[]]]; [apply IH; eauto | discriminate H].
Qed.

Lemma visited_has P k :
  JsMap.has k (fold_left visit P []) = true
  <-> exists cc ccy def, In (cc, (ccy, def)) P /\ normalizeCode (Some ccy) = k.
Proof.
  induction P as [|[cc [ccy def]] P IH] using rev_ind.
  - simpl. split; [discriminate | intros (? & ? & ? & [] & _)].
  - rewrite visit_snoc. unfold visit. cbn [fst snd].
    rewrite has_add_currency, orb_true_iff, String.eqb_eq, IH. split.
    + intros [->|(c0 & y0 & d0 & I0 & E0)].
      * exists cc, ccy, def. split; [apply in_or_app; right; now left | reflexivity].
      * exists c0, y0, d0. split; [apply in_or_app; now left | exact E0].
    + intros (c0 & y0 & d0 & I0 & E0).
      apply in_app_or in I0 as [I0|[[= _ -> _]|[]]]; [right; eauto | now left].
Qed.

Lemma named_countryCodes L : forall m k,
  countryCodes (cands k (fold_left add_code_name L m)) = countryCodes (cands k m).
Proof.
  induction L as [|[codeRaw nameRaw] L IH]; intros m k; [reflexivity|].
  cbn [fold_left]. rewrite IH, cands_add_code_name.
  now destruct (String.eqb k (normalizeCode (Some codeRaw))).
Qed.

Lemma named_nameCandidates_prefix L : forall m k,
  exists t, nameCandidates (cands k (fold_left add_code_name L m))
            = (nameCandidates (cands k m) ++ t)%list.
Proof.
  induction L as [|[codeRaw nameRaw] L IH]; intros m k.
  - exists []. now rewrite app_nil_r.
  - cbn [fold_left]. destruct (IH (add_code_name m (codeRaw, nameRaw)) k) as [t ->].
    rewrite cands_add_code_name.
    destruct (String.eqb k (normalizeCode (Some codeRaw))); [|now exists t].
    simpl. destruct (add_prefix nameRaw (nameCandidates (cands k m))) as [u ->].
    exists (u ++ t)%list. now rewrite app_assoc.
Qed.

Lemma named_nameCandidates L : forall m k n,
  In n (nameCandidates (cands k (fold_left add_code_name L m)))
  <-> In n (nameCandidates (cands k m))
      \/ exists codeRaw, In (codeRaw, n) L /\ normalizeCode (Some codeRaw) = k.
Proof.
  induction L as [|[codeRaw nameRaw] L IH]; intros m k n.
  - simpl. split; [auto | intros [H|(? & [] & _)]; exact H].
  - cbn [fold_left]. rewrite IH, cands_add_code_name.
    destruct (String.eqb_spec k (normalizeCode (Some codeRaw))) as [K|K].
    + simpl. rewrite In_add. split.
      * intros [[->|I]|(c & I & E)]; eauto 6.
      * intros [I|(c & [[= -> ->]|I] & E)]; eauto 6.
    + split.
      * intros [I|(c & I & E)]; [now left|].
        right. exists c. split; [now right | exact E].
      * intros [I|(c & [[= -> ->]|I] & E)]; [auto | congruence | eauto 6].
Qed.

Lemma named_has L : forall (m : gen_map) k,
  JsMap.has k (fold_left add_code_name L m) = true
  <-> JsMap.has k m = true
      \/ exists codeRaw name, In (codeRaw, name) L /\ normalizeCode (Some codeRaw) = k.
Proof.
  induction L as [|[codeRaw nameRaw] L IH]; intros m k.
  - simpl. split; [auto | intros [H|(? & ? & [] & _)]; exact H].
  - cbn [fold_left]. rewrite IH, has_add_code_name, orb_true_iff, String.eqb_eq. split.
    + intros [[->|H]|(c & n & I & E)].
      * right. exists codeRaw, nameRaw. split; [now left | reflexivity].
      * now left.
      * right. exists c, n. split; [now right | exact E].
    + intros [H|(c & n & [[= -> ->]|I] & E)]; eauto 8.
Qed.

(** *** The records, one per key *)

Lemma records_of_map m codes : forall acc,
  (forall code, In code codes -> JsMap.has code m = true) ->
  fold_left
    (fun (acc : completion (list RawEntry)) code =>
       bind acc (fun records =>
         match JsMap.get code m with
         | None => raise (TypeError "Cannot read properties of undefined")
         | Some data => ret (records ++ [record_of code data])%list
         end))
    codes (inr acc)
  = inr (acc ++ map (fun code => record_of code (cands code m)) codes)%list.
Proof.
  induction codes as [|code codes IH]; intros acc K.
  - simpl. now rewrite app_nil_r.
  - cbn [fold_left map].
    destruct (proj1 (has_true_get code m) (K code (or_introl eq_refl))) as [data G].
    rewrite completion_bind_ret, G.
    change (ret (acc ++ [record_of code data])%list)
      with (@inr JsError _ (acc ++ [record_of code data])%list).
    rewrite IH by (intros c I; apply K; now right).
    unfold cands at 2. rewrite G. now rewrite <- app_assoc.
Qed.

Lemma build_records_map countries codeToName records :
  build_records countries codeToName = inr records ->
  records
  = map (fun code => record_of code (cands code (collect countries codeToName)))
      (sort (JsMap.keys (collect countries codeToName))).
Proof.
  unfold build_records, records_of.
  generalize (collect countries codeToName). intros m E.
  assert (R := records_of_map m (sort (JsMap.keys m)) []).
  cbn [app] in R.
  assert (H : forall code, In code (sort (JsMap.keys m)) -> JsMap.has code m = true).
  { intros code I. apply (proj1 (sort_In _ _)) in I. exact (proj2 (has_In_keys code m) I). }
  pose proof (eq_trans (eq_sym (R H)) E) as Q. now injection Q as <-.
Qed.

Lemma build_records_record countries codeToName records r :
  build_records countries codeToName = inr records -> In r records ->
  In (raw_currencyCode r) (JsMap.keys (collect countries codeToName))
  /\ r = record_of (raw_currencyCode r)
           (cands (raw_currencyCode r) (collect countries codeToName)).
Proof.
  intros E I. rewrite (build_records_map _ _ _ E) in I.
  apply in_map_iff in I as (code & <- & I). split; [|reflexivity].
  exact (proj1 (sort_In _ _) I).
Qed.

Lemma build_records_codes countries codeToName records :
  build_records countries codeToName = inr records ->
  map raw_currencyCode records = sort (JsMap.keys (collect countries codeToName)).
Proof.
  intros E. rewrite (build_records_map _ _ _ E), map_map. apply map_id.
Qed.

End GeneratorMore.

Section GeneratedRecords.
Import Generator JsMapFacts JsSetFacts GeneratorFacts GeneratorMore.

Variable countries : list Country.
Variable codeToName : list (string * string).

Lemma build_records_inv records r :
  build_records countries codeToName = inr records -> In r records ->
  exists code,
    In code (JsMap.keys (collect countries codeToName))
    /\ r = record_of code (cands code (collect countries codeToName)).
Proof.
  intros E I. rewrite (build_records_map _ _ _ E) in I.
  apply in_map_iff in I as (code & <- & I). exists code. split; [|reflexivity].
  exact (proj1 (sort_In _ _) I).
Qed.

Lemma collected_countryCodes code :
  countryCodes (cands code (collect countries codeToName))
  = countryCodes (cands code (fold_left visit (country_currencies countries) [])).
Proof. rewrite collect_flat. apply named_countryCodes. Qed.

Lemma collected_uses code cc :
  In cc (countryCodes (cands code (collect countries codeToName)))
  <-> country_uses countries code cc.
Proof. rewrite collected_countryCodes. apply visited_countryCodes. Qed.

Lemma PRIMARY_OVERRIDES_truthy code v :
  JsMap.get code PRIMARY_OVERRIDES = Some v -> truthy v = true.
Proof.
  intros G. apply get_In in G.
  assert (F : Forall (fun kv => truthy (snd kv) = true) PRIMARY_OVERRIDES)
    by (repeat constructor).
  exact (proj1 (Forall_forall _ _) F (code, v) G).
Qed.

Lemma record_of_fields code d :
  raw_currencyCode (record_of code d) = code
  /\ raw_primaryCountryCode (record_of code d)
     = or_else (JsMap.get code PRIMARY_OVERRIDES)
         (or_else (hd_error (sort (countryCodes d))) "XX")
  /\ or_empty (raw_otherCountryCodes (record_of code d))
     = filter (fun cc => negb (String.eqb cc (raw_primaryCountryCode (record_of code d))))
         (sort (countryCodes d))
  /\ raw_currencyName (record_of code d) = or_else (hd_error (nameCandidates d)) code.
Proof. repeat split; reflexivity. Qed.

(** A generated record, seen through the candidates it was built from. *)
Lemma build_records_view records r :
  build_records countries codeToName = inr records -> In r records ->
  exists d,
    r = record_of (raw_currencyCode r) d
    /\ In (raw_currencyCode r) (JsMap.keys (collect countries codeToName))
    /\ NoDup (countryCodes d)
    /\ (forall cc, In cc (countryCodes d) <-> country_uses countries (raw_currencyCode r) cc)
    /\ (exists t, nameCandidates d
                  = (nameCandidates
                       (cands (raw_currencyCode r)
                          (fold_left visit (country_currencies countries) [])) ++ t)%list)
    /\ (forall n, In n (nameCandidates d)
                  <-> country_names countries (raw_currencyCode r) n
                      \/ exists codeRaw,
                           In (codeRaw, n) (codeToName ++ EXTRA_CODES)%list
                           /\ normalizeCode (Some codeRaw) = raw_currencyCode r).
Proof.
  intros E I. destruct (build_records_inv records r E I) as (code & Ik & R).
  assert (C : raw_currencyCode r = code) by (rewrite R; reflexivity).
  rewrite C. exists (cands code (collect countries codeToName)).
  split; [exact R|]. split; [exact Ik|]. split; [|split; [|split]].
  - rewrite collected_countryCodes. apply visited_countryCodes_nodup.
  - intros cc. apply collected_uses.
  - rewrite collect_flat. apply named_nameCandidates_prefix.
  - intros n. rewrite collect_flat, named_nameCandidates, visited_nameCandidates.
    reflexivity.
Qed.

End GeneratedRecords.

Lemma generated_codes_ascending countries codeToName records :
  Generator.build_records countries codeToName = inr records ->
  ascending (map raw_currencyCode records).
Proof.
  intros E. rewrite (GeneratorMore.build_records_codes _ _ _ E).
  apply GeneratorMore.sort_ascending.
Qed.

(** X16. The generator emits one record per currency code, in ascending
    order of the codes and without duplicates; the codes are exactly the
    normalized currency keys of the countries, of [codeToName] and of the
    extra codes. *)
Theorem generated_codes_sorted_union :
  forall (countries : list Generator.Country) (codeToName : list (string * string))
         (records : list RawEntry),
    Generator.build_records countries codeToName = inr records ->
    ascending (map raw_currencyCode records)
    /\ NoDup (map raw_currencyCode records)
    /\ (forall code, In code (map raw_currencyCode records)
                     <-> code_source countries codeToName code).
Proof.
  intros countries codeToName records E.
  rewrite (GeneratorMore.build_records_codes _ _ _ E).
  split; [apply GeneratorMore.sort_ascending|]. split.
  - apply GeneratorFacts.sort_nodup.
    exact (proj1 (GeneratorFacts.collect_keys_normal countries codeToName)).
  - intros code. rewrite GeneratorFacts.sort_In, <- JsMapFacts.has_In_keys.
    rewrite GeneratorMore.collect_flat, GeneratorMore.named_has, GeneratorMore.visited_has.
    reflexivity.
Qed.

Lemma generated_codes_sorted_union_witness :
  exists records,
    Generator.build_records Sample.countries Sample.codeToName = inr records
    /\ ascending (map raw_currencyCode records)
    /\ In "BTC" (map raw_currencyCode records).
Proof.
  destruct (GeneratorFacts.build_records_total Sample.countries Sample.codeToName)
    as (records & E & _).
  exists records. split; [exact E|].
  destruct (generated_codes_sorted_union Sample.countries Sample.codeToName records E)
    as (A & _ & M).
  split; [exact A|]. apply M. right. exists "BTC", "Bitcoin".
  split; [simpl; tauto | reflexivity].
Defined.

(** X17. In a generated record, every country that lists the currency (with
    a non-empty [cca2]) is the primary country or one of the others; the
    others are only such countries, in ascending order and without
    duplicates. *)
Theorem generated_record_countries :
  forall (countries : list Generator.Country) (codeToName : list (string * string))
         (records : list RawEntry) (r : RawEntry),
    Generator.build_records countries codeToName = inr records ->
    In r records ->
    (forall cc, country_uses countries (raw_currencyCode r) cc ->
                raw_primaryCountryCode r = cc
                \/ In cc (or_empty (raw_otherCountryCodes r)))
    /\ (forall cc, In cc (or_empty (raw_otherCountryCodes r)) ->
                   country_uses countries (raw_currencyCode r) cc)
    /\ ascending (or_empty (raw_otherCountryCodes r))
    /\ NoDup (or_empty (raw_otherCountryCodes r)).
Proof.
  intros countries codeToName records r E I.
  destruct (build_records_view countries codeToName records r E I)
    as (d & R & _ & ND & U & _).
  revert R U. generalize (raw_currencyCode r). intros code R U. subst r.
  destruct (record_of_fields code d) as (_ & _ & -> & _).
  generalize (raw_primaryCountryCode (Generator.record_of code d)). intros primary.
  split; [|split; [|split]].
  - intros cc Ucc. apply U in Ucc.
    destruct (String.eqb_spec cc primary) as [->|N]; [now left|].
    right. apply filter_In. split; [now apply GeneratorFacts.sort_In|].
    apply negb_true_iff. now apply String.eqb_neq.
  - intros cc Icc. apply filter_In in Icc as [Icc _].
    apply U. exact (proj1 (GeneratorFacts.sort_In _ _) Icc).
  - apply GeneratorMore.ascending_filter, GeneratorMore.sort_ascending.
  - apply NoDup_filter, GeneratorFacts.sort_nodup, ND.
Qed.

Lemma generated_record_countries_witness :
  exists records,
    Generator.build_records Sample.countries Sample.codeToName = inr records
    /\ ("US" = "EC" \/ In "EC" ["EC"]).
Proof.
  destruct (GeneratorFacts.build_records_total Sample.countries Sample.codeToName)
    as (records & E & _).
  exists records. split; [exact E|].
  assert (I : In (mkRawEntry "USD" "United States dollar" "US" (Some ["EC"])) records).
  { pose proof E as E'. vm_compute in E'. injection E' as <-. simpl. tauto. }
  apply (proj1 (generated_record_countries Sample.countries Sample.codeToName records
                  (mkRawEntry "USD" "United States dollar" "US" (Some ["EC"])) E I) "EC").
  exists "USD", (Some "United States dollar").
  split; [vm_compute; tauto | split; [reflexivity | discriminate]].
Defined.

Lemma or_else_truthy a b : truthy b = true -> truthy (Generator.or_else a b) = true.
Proof.
  intros H. destruct a as [x|]; simpl; [|exact H].
  destruct (truthy x) eqn:T; [exact T | exact H].
Qed.

Lemma no_member_nil {A} (l : list A) : (forall x, ~ In x l) -> l = [].
Proof. destruct l as [|x l]; [reflexivity|]. intros H. destruct (H x). now left. Qed.

(** X18. The primary country of a generated record is never empty. It is
    the override when the code has one. Otherwise it is "XX", with no other
    countries, when no country lists the currency, and else the least code
    among the countries that list it. *)
Theorem generated_primary_choice :
  forall (countries : list Generator.Country) (codeToName : list (string * string))
         (records : list RawEntry) (r : RawEntry),
    Generator.build_records countries codeToName = inr records ->
    In r records ->
    raw_primaryCountryCode r <> ""
    /\ (forall p, JsMap.get (raw_currencyCode r) Generator.PRIMARY_OVERRIDES = Some p ->
                  raw_primaryCountryCode r = p)
    /\ (JsMap.get (raw_currencyCode r) Generator.PRIMARY_OVERRIDES = None ->
        ((forall cc, ~ country_uses countries (raw_currencyCode r) cc) ->
         raw_primaryCountryCode r = "XX" /\ or_empty (raw_otherCountryCodes r) = [])
        /\ (forall cc, country_uses countries (raw_currencyCode r) cc ->
              country_uses countries (raw_currencyCode r) (raw_primaryCountryCode r)
              /\ String.leb (raw_primaryCountryCode r) cc = true)).
Proof.
  intros countries codeToName records r E I.
  destruct (build_records_view countries codeToName records r E I)
    as (d & R & _ & _ & U & _).
  revert R U. generalize (raw_currencyCode r). intros code R U. subst r.
  destruct (record_of_fields code d) as (_ & Fp & Fo & _). rewrite Fo, Fp. clear Fo Fp.
  split; [|split].
  - apply truthy_true, or_else_truthy, or_else_truthy. reflexivity.
  - intros p G. rewrite G. simpl.
    now rewrite (PRIMARY_OVERRIDES_truthy code p G).
  - intros G. rewrite G. cbn [Generator.or_else]. split.
    + intros N. assert (Z : Generator.countryCodes d = [])
        by (apply no_member_nil; intros cc Icc; exact (N cc (proj1 (U cc) Icc))).
      rewrite Z. split; reflexivity.
    + intros cc Ucc. apply U, GeneratorFacts.sort_In in Ucc.
      pose proof (GeneratorMore.sort_ascending (Generator.countryCodes d)) as A.
      destruct (Generator.sort (Generator.countryCodes d)) as [|h t] eqn:S;
        [destruct Ucc|].
      assert (Uh : country_uses countries code h).
      { apply U, GeneratorFacts.sort_In. rewrite S. now left. }
      assert (T : truthy h = true).
      { destruct Uh as (? & ? & _ & _ & Nh). now apply truthy_true. }
      simpl. rewrite T. split; [exact Uh|].
      exact (GeneratorMore.ascending_head_least h t cc A Ucc).
Qed.

Lemma generated_primary_choice_witness :
  exists records,
    Generator.build_records Sample.countries Sample.codeToName = inr records
    /\ "XX" <> "" /\ "EU" = "EU".
Proof.
  destruct (GeneratorFacts.build_records_total Sample.countries Sample.codeToName)
    as (records & E & _).
  exists records. split; [exact E|].
  assert (I : In (mkRawEntry "BTC" "Bitcoin" "XX" (Some [])) records
              /\ In (mkRawEntry "EUR" "Euro" "EU" (Some ["DE"; "FR"])) records).
  { pose proof E as E'. vm_compute in E'. injection E' as <-. simpl. tauto. }
  split.
  - exact (proj1 (generated_primary_choice Sample.countries Sample.codeToName records
                    (mkRawEntry "BTC" "Bitcoin" "XX" (Some [])) E (proj1 I))).
  - exact (proj1 (proj2 (generated_primary_choice Sample.countries Sample.codeToName
                           records (mkRawEntry "EUR" "Euro" "EU" (Some ["DE"; "FR"]))
                           E (proj2 I)))
             "EU" eq_refl).
Defined.



(** The index builder leaves the records of the generator as they are: it
    stores them field for field, in their order. *)
Lemma generated_records_indexed_unchanged :
  forall (countries : list Generator.Country) (codeToName : list (string * string))
         (records : list RawEntry) (aliases : AliasTable),
    Generator.build_records countries codeToName = inr records ->
    getAllCurrencyEntries records aliases
    = map (fun r => mkCurrencyRecord (raw_currencyCode r) (raw_currencyName r)
                      (raw_primaryCountryCode r) (or_empty (raw_otherCountryCodes r)))
        records
    /\ getCurrencyCodes records aliases = map raw_currencyCode records
    /\ ascending (getCurrencyCodes records aliases).
Proof.
  intros countries codeToName records aliases E.
  pose proof (GeneratorFacts.build_records_unique_codes _ _ _ E) as U.
  destruct (GeneratorFacts.build_records_total countries codeToName)
    as (records' & E' & _ & P).
  rewrite E in E'. injection E' as <-.
  assert (F : forall r, In r records ->
                normalized_entry r
                = mkCurrencyRecord (raw_currencyCode r) (raw_currencyName r)
                    (raw_primaryCountryCode r) (or_empty (raw_otherCountryCodes r))).
  { intros r I. destruct (P r I) as (_ & Np & No).
    destruct (build_records_view countries codeToName records r E I)
      as (_ & _ & Ik & _).
    pose proof (proj1 (Forall_forall _ _)
                  (proj2 (GeneratorFacts.collect_keys_normal countries codeToName))
                  _ Ik) as Nc.
    cbv beta in Nc. unfold normal_country in Np.
    assert (Eo : map normalizeCountryCode (or_empty (raw_otherCountryCodes r))
                 = or_empty (raw_otherCountryCodes r)).
    { rewrite <- (map_id (or_empty (raw_otherCountryCodes r))) at 2.
      apply map_ext_in. intros c Ic. exact (proj1 (Forall_forall _ _) No c Ic). }
    unfold normalized_entry. rewrite Nc, Np, Eo. reflexivity. }
  assert (C : getCurrencyCodes records aliases = map raw_currencyCode records).
  { unfold getCurrencyCodes, JsMap.keys.
    rewrite (codeToCurrency_unique aliases records U), map_map. cbn [fst].
    apply map_ext_in. intros r I. unfold entry_code.
    change (normalizeCurrencyCode (raw_currencyCode r))
      with (currencyCode (normalized_entry r)).
    rewrite (F r I). reflexivity. }
  split; [|split; [exact C|]].
  - rewrite (getAllCurrencyEntries_unique records aliases U).
    apply map_ext_in. exact F.
  - rewrite C.
    exact (generated_codes_ascending countries codeToName records E).
Qed.

(** ** Lookups by code: case, padding and overwritten entries *)

(** X21. The lookups by currency code and by country code ignore the case
    of the code and white space around it. *)
Theorem code_lookups_ignore_case_and_padding :
  forall (data : list RawEntry) (aliases : AliasTable) (c c' pre post : string),
    toLowerCase c = toLowerCase c' ->
    all_chars is_ws pre = true ->
    all_chars is_ws post = true ->
    getCurrencyByCode data aliases (pre ++ c ++ post) = getCurrencyByCode data aliases c'
    /\ getPrimaryCountryForCurrency data aliases (pre ++ c ++ post)
       = getPrimaryCountryForCurrency data aliases c'
    /\ getOtherCountriesForCurrency data aliases (pre ++ c ++ post)
       = getOtherCountriesForCurrency data aliases c'
    /\ getAllCountriesUsingCurrency data aliases (pre ++ c ++ post)
       = getAllCountriesUsingCurrency data aliases c'
    /\ getCurrenciesByCountryCode data aliases (pre ++ c ++ post)
       = getCurrenciesByCountryCode data aliases c'
    /\ getCurrencyCodesByCountryCode data aliases (pre ++ c ++ post)
       = getCurrencyCodesByCountryCode data aliases c'.
Proof.
  intros data aliases c c' pre post E Wpre Wpost.
  assert (Nc : normalizeCurrencyCode (pre ++ c ++ post) = normalizeCurrencyCode c').
  { rewrite !normalizeCurrencyCode_eq. now apply normal_form_insensitive. }
  assert (Nk : normalizeCountryCode (pre ++ c ++ post) = normalizeCountryCode c').
  { rewrite !normalizeCountryCode_eq. now apply normal_form_insensitive. }
  assert (G : getCurrencyByCode data aliases (pre ++ c ++ post)
              = getCurrencyByCode data aliases c')
    by (unfold getCurrencyByCode; now rewrite Nc).
  unfold getPrimaryCountryForCurrency, getOtherCountriesForCurrency,
    getAllCountriesUsingCurrency, getCurrenciesByCountryCode,
    getCurrencyCodesByCountryCode.
  rewrite G, Nk. repeat split.
Qed.

Lemma code_lookups_ignore_case_and_padding_witness :
  getCurrencyByCode SampleOdd.data Sample.aliases (" " ++ "x1" ++ "  ")
  = getCurrencyByCode SampleOdd.data Sample.aliases "X1".
Proof.
  apply (proj1 (code_lookups_ignore_case_and_padding
                  SampleOdd.data Sample.aliases "x1" "X1" " " "  "
                  eq_refl eq_refl eq_refl)).
Defined.

(** X22. When several entries of the dataset have the same normalized
    currency code, [getCurrencyByCode] returns the record of the last of
    them. *)
Theorem getCurrencyByCode_last_entry_wins :
  forall (aliases : AliasTable) (before after : list RawEntry) (e : RawEntry)
         (C : string),
    (forall e', In e' after -> entry_code e' <> entry_code e) ->
    normalizeCurrencyCode C = entry_code e ->
    getCurrencyByCode (before ++ e :: after) aliases C = Some (normalized_entry e).
Proof.
  intros aliases before after e C N E. unfold getCurrencyByCode. rewrite E. clear E C.
  induction after as [|x after IH] using rev_ind.
  - rewrite codeToCurrency_snoc. apply JsMapFacts.get_set_same.
  - change (before ++ e :: after ++ [x])%list with (before ++ (e :: after) ++ [x])%list.
    rewrite app_assoc, codeToCurrency_snoc.
    rewrite JsMapFacts.get_set_other.
    + apply IH. intros e' I. apply N. apply in_or_app. now left.
    + apply N. apply in_or_app. right. now left.
Qed.

Lemma getCurrencyByCode_last_entry_wins_witness :
  getCurrencyByCode
    ([mkRawEntry "AAA" "First" "US" None]
     ++ mkRawEntry "aaa " "Second" "GB" None :: [mkRawEntry "BBB" "Other" "FR" None])
    Sample.aliases "aaa"
  = Some (normalized_entry (mkRawEntry "aaa " "Second" "GB" None)).
Proof.
  apply getCurrencyByCode_last_entry_wins.
  - intros e' [<-|[]]. vm_compute. discriminate.
  - reflexivity.
Defined.

(** ** The order of the reverse index *)

Section ReverseIndexOrder.
Import JsMapFacts JsSetFacts PushFacts.

Lemma add_idem ccy s : JsSet.add ccy (JsSet.add ccy s) = JsSet.add ccy s.
Proof.
  unfold JsSet.add. destruct (JsSet.has ccy s) eqn:H; [now rewrite H|].
  unfold JsSet.has. rewrite existsb_app. simpl.
  now rewrite String.eqb_refl, orb_true_r.
Qed.

Lemma add_absent ccy s : ~ In ccy s -> JsSet.add ccy s = (s ++ [ccy])%list.
Proof.
  intros N. unfold JsSet.add. destruct (JsSet.has ccy s) eqn:H; [|reflexivity].
  apply has_In in H. contradiction.
Qed.

Lemma set_at_push ccy (m : JsMap.t JsSet.t) c k :
  set_at k (push ccy m c)
  = if String.eqb k (normalizeCountryCode c)
    then JsSet.add ccy (set_at k m) else set_at k m.
Proof.
  unfold set_at at 1. rewrite push_get.
  now destruct (String.eqb k (normalizeCountryCode c)).
Qed.

Lemma set_at_fold_push ccy l k : forall m : JsMap.t JsSet.t,
  set_at k (fold_left (push ccy) l m)
  = if existsb (fun c => String.eqb k (normalizeCountryCode c)) l
    then JsSet.add ccy (set_at k m) else set_at k m.
Proof.
  induction l as [|c l IH]; intros m; [reflexivity|].
  cbn [fold_left existsb]. rewrite IH, set_at_push.
  destruct (String.eqb k (normalizeCountryCode c)),
    (existsb (fun c0 => String.eqb k (normalizeCountryCode c0)) l);
    cbn [orb]; rewrite ?add_idem; reflexivity.
Qed.

Lemma set_at_index_entry aliases data e k :
  set_at k (countryToCurrencyCodes (data ++ [e]) aliases)
  = if entry_lists_b e k
    then JsSet.add (entry_code e) (set_at k (countryToCurrencyCodes data aliases))
    else set_at k (countryToCurrencyCodes data aliases).
Proof.
  rewrite countryToCurrencyCodes_snoc, set_at_fold_push, set_at_push.
  rewrite normalized_primary_fixed. unfold entry_lists_b.
  replace (existsb (fun c => String.eqb k (normalizeCountryCode c))
             (otherCountryCodes (normalized_entry e)))
    with (existsb (String.eqb k) (otherCountryCodes (normalized_entry e))).
  - destruct (String.eqb k (primaryCountryCode (normalized_entry e))),
      (existsb (String.eqb k) (otherCountryCodes (normalized_entry e)));
      cbn [orb]; rewrite ?add_idem; reflexivity.
  - rewrite <- (normalized_others_fixed e) at 1.
    generalize (otherCountryCodes (normalized_entry e)). intros l.
    induction l as [|c l IH]; simpl; [reflexivity | now rewrite IH].
Qed.

End ReverseIndexOrder.

(** X23. With unique currency codes, the currencies of a country come in
    dataset order: [getCurrencyCodesByCountryCode(K)] is the list of the
    codes of the entries that list the normalized [K], as they follow one
    another in the dataset. *)
Theorem country_lookup_in_dataset_order :
  forall (data : list RawEntry) (aliases : AliasTable) (K : string),
    unique_codes data ->
    getCurrencyCodesByCountryCode data aliases K
    = map entry_code
        (filter (fun e => entry_lists_b e (normalizeCountryCode K)) data).
Proof.
  intros data aliases K U.
  change (getCurrencyCodesByCountryCode data aliases K)
    with (set_at (normalizeCountryCode K) (countryToCurrencyCodes data aliases)).
  generalize (normalizeCountryCode K). intros k.
  induction data as [|e data IH] using rev_ind; [reflexivity|].
  apply unique_codes_snoc in U as [U N].
  rewrite set_at_index_entry, filter_app, map_app, (IH U). cbn [filter].
  destruct (entry_lists_b e k); cbn [map]; [|now rewrite app_nil_r].
  apply add_absent. intros I. apply in_map_iff in I as (e0 & E0 & I0).
  apply filter_In in I0 as [I0 _]. exact (N e0 I0 E0).
Qed.

Lemma country_lookup_in_dataset_order_witness :
  getCurrencyCodesByCountryCode
    [Sample.usd; mkRawEntry "ECS" "Sucre" "ec" None; Sample.eur] Sample.aliases " Ec"
  = ["USD"; "ECS"].
Proof.
  rewrite (country_lookup_in_dataset_order
             [Sample.usd; mkRawEntry "ECS" "Sucre" "ec" None; Sample.eur]
             Sample.aliases " Ec").
  - reflexivity.
  - unfold unique_codes. vm_compute. repeat constructor; simpl; intuition discriminate.
Defined.

(** X24. A country code made of white space only is not taken for an empty
    one by [getFlagUrlByCountryCode]: it resolves the reference
    "../flags/.svg" and returns that locator, or [null] if the resolution
    throws. *)
Theorem getFlagUrlByCountryCode_blank_code :
  forall (URL_toString : string -> completion string) (code : string),
    code <> "" ->
    all_chars is_ws code = true ->
    getFlagUrlByCountryCode URL_toString (Some code)
    = match URL_toString "../flags/.svg" with
      | inr url => inr (Some url)
      | inl _ => inr None
      end.
Proof.
  intros URL_toString code N W.
  rewrite getFlagUrlByCountryCode_truthy by exact N.
  rewrite flagUrlFromCountryCode_eq, (trim_all_ws code W). reflexivity.
Qed.

Lemma getFlagUrlByCountryCode_blank_code_witness :
  getFlagUrlByCountryCode Sample.url_of (Some "  ")
  = inr (Some "file:///pkg/flags/.svg").
Proof.
  rewrite (getFlagUrlByCountryCode_blank_code Sample.url_of "  ");
    [reflexivity | discriminate | reflexivity].
Defined.

(* ===================================================================== *)
(** * Part IV: names beyond ASCII, flag locators and the written dataset *)
(* ===================================================================== *)

(** ** The engine over the platform's operations *)

(** The engine of Part I is the engine below, taken over the operations of
    [JsString]. *)
Lemma ascii_ops_instance :
  (forall code, Platform.normalizeCountryCode ascii_ops code = normalizeCountryCode code)
  /\ (forall code, Platform.toFlagFilename ascii_ops code = toFlagFilename code)
  /\ (forall URL code,
        Platform.getFlagUrlByCountryCode ascii_ops URL code
        = getFlagUrlByCountryCode URL code)
  /\ (forall data aliases,
        Platform.build_indices ascii_ops data aliases = build_indices data aliases)
  /\ (forall data aliases query,
        Platform.findCurrenciesByName ascii_ops data aliases query
        = findCurrenciesByName data aliases query)
  /\ (forall data aliases name,
        Platform.getCurrenciesByExactName ascii_ops data aliases name
        = getCurrenciesByExactName data aliases name).
Proof. repeat split. Qed.

Example latin_lower_runs :
  SampleLatin.lower "COLÓN" = "colón"
  /\ SampleLatin.lower "São Tomé" = "são tomé"
  /\ toLowerCase "COLÓN" <> "colón".
Proof. repeat split. vm_compute. discriminate. Qed.

Example latin_exact_name_runs :
  Platform.getCurrenciesByExactName SampleLatin.ops SampleLatin.data SampleLatin.aliases
    " COLÓN "
  = inr [Platform.normalized_entry SampleLatin.ops SampleLatin.crc]
  /\ Platform.findCurrenciesByName SampleLatin.ops SampleLatin.data SampleLatin.aliases
       "SÃO"
     = [Some (Platform.normalized_entry SampleLatin.ops SampleLatin.stn)].
Proof. split; vm_compute; reflexivity. Qed.

(** The loop of [getCurrenciesByExactName], for any test of an entry. *)
Lemma exact_name_loop (test : CurrencyRecord -> string -> bool)
  (c2c : JsMap.t CurrencyRecord) (hay : JsMap.t string) : forall acc,
  (forall k, In k (JsMap.keys hay) -> JsMap.has k c2c = true) ->
  fold_left
    (fun (acc : completion (list CurrencyRecord)) '(code, haystack) =>
       bind acc (fun results =>
         match JsMap.get code c2c with
         | None => raise (TypeError "Cannot read properties of undefined")
         | Some entry =>
             if test entry code
             then ret (results ++ [entry])%list
             else ret results
         end))
    hay (inr acc)
  = inr (acc ++ flat_map
                  (fun code =>
                     match JsMap.get code c2c with
                     | Some entry => if test entry code then [entry] else []
                     | None => []
                     end)
                  (JsMap.keys hay))%list.
Proof.
  induction hay as [|[code h] hay IH]; intros acc K.
  - simpl. now rewrite app_nil_r.
  - cbn [fold_left JsMap.keys map fst flat_map].
    destruct (proj1 (JsMapFacts.has_true_get code c2c) (K code (or_introl eq_refl)))
      as [entry G].
    rewrite completion_bind_ret, G.
    assert (K' : forall k, In k (JsMap.keys hay) -> JsMap.has k c2c = true)
      by (intros k Hk; apply K; now right).
    destruct (test entry code).
    + change (ret (acc ++ [entry])%list) with (@inr JsError _ (acc ++ [entry])%list).
      rewrite (IH _ K'). now rewrite <- app_assoc.
    + change (ret acc) with (@inr JsError _ acc).
      rewrite (IH _ K'). reflexivity.
Qed.

(** The lookups of the keys whose haystack contains [q], when every
    haystack is computed from its key and the name stored under it. *)
Lemma lookup_matching (h : string -> string -> string) q (m : JsMap.t CurrencyRecord) :
  NoDup (JsMap.keys m) ->
  (forall k r, In (k, r) m -> currencyCode r = k) ->
  forall l, incl l m ->
    map (fun kv : string * string => JsMap.get (fst kv) m)
      (filter (fun kv => includes (snd kv) q)
         (map (fun kv => (fst kv, h (fst kv) (currencyName (snd kv)))) l))
    = map Some (filter (fun r => includes (h (currencyCode r) (currencyName r)) q)
                  (map snd l)).
Proof.
  intros ND K l. induction l as [|[k r] l IH]; intros H; [reflexivity|].
  pose proof (H (k, r) (or_introl eq_refl)) as I.
  assert (H' : incl l m) by (intros kv Hkv; apply H; now right).
  cbn [map filter fst snd]. rewrite (K k r I).
  destruct (includes (h k (currencyName r)) q).
  - cbn [map fst]. rewrite (JsMapFacts.get_of_nodup k r _ ND I). f_equal. exact (IH H').
  - exact (IH H').
Qed.

Section PlatformFacts.
Import JsMapFacts IncludesFacts.

Variable ops : StringOps.
Variable aliases : AliasTable.

Lemma platform_build_indices_snoc data e :
  Platform.build_indices ops (data ++ [e]) aliases
  = Platform.index_entry ops aliases (Platform.build_indices ops data aliases) e.
Proof. unfold Platform.build_indices. now rewrite fold_left_app. Qed.

Lemma platform_codeToCurrency_snoc data e :
  Platform.codeToCurrency ops (data ++ [e]) aliases
  = JsMap.set (currencyCode (Platform.normalized_entry ops e))
      (Platform.normalized_entry ops e)
      (Platform.codeToCurrency ops data aliases).
Proof. unfold Platform.codeToCurrency. now rewrite platform_build_indices_snoc. Qed.

Lemma platform_nameHaystackByCode_snoc data e :
  Platform.nameHaystackByCode ops (data ++ [e]) aliases
  = JsMap.set (currencyCode (Platform.normalized_entry ops e))
      (Platform.haystack_of ops aliases (currencyCode (Platform.normalized_entry ops e))
         (currencyName (Platform.normalized_entry ops e)))
      (Platform.nameHaystackByCode ops data aliases).
Proof. unfold Platform.nameHaystackByCode. now rewrite platform_build_indices_snoc. Qed.

Lemma platform_keys_nodup data :
  NoDup (JsMap.keys (Platform.codeToCurrency ops data aliases)).
Proof.
  induction data as [|e data IH] using rev_ind; [constructor|].
  rewrite platform_codeToCurrency_snoc. now apply keys_nodup_set.
Qed.

Lemma platform_stored_key data k r :
  In (k, r) (Platform.codeToCurrency ops data aliases) -> currencyCode r = k.
Proof.
  induction data as [|e data IH] using rev_ind; [intros []|].
  rewrite platform_codeToCurrency_snoc. intros H.
  apply In_set in H as [[-> ->]|H]; [reflexivity | exact (IH H)].
Qed.

(** Each haystack sits under the key of its record and is built from the
    stored name and the aliases of that key. *)
Lemma platform_haystack_structure data :
  Platform.nameHaystackByCode ops data aliases
  = map (fun kv => (fst kv, Platform.haystack_of ops aliases (fst kv)
                              (currencyName (snd kv))))
      (Platform.codeToCurrency ops data aliases).
Proof.
  induction data as [|e l IH] using rev_ind; [reflexivity|].
  rewrite platform_nameHaystackByCode_snoc, platform_codeToCurrency_snoc, IH.
  exact (set_map_values (fun k r => Platform.haystack_of ops aliases k (currencyName r))
           (currencyCode (Platform.normalized_entry ops e))
           (Platform.normalized_entry ops e)
           (Platform.codeToCurrency ops l aliases)).
Qed.

Lemma platform_haystack_keys data :
  JsMap.keys (Platform.nameHaystackByCode ops data aliases)
  = JsMap.keys (Platform.codeToCurrency ops data aliases).
Proof.
  rewrite platform_haystack_structure. unfold JsMap.keys. rewrite map_map. reflexivity.
Qed.

Lemma platform_findCurrenciesByName_filter data query :
  query <> "" ->
  Platform.findCurrenciesByName ops data aliases query
  = map Some
      (filter (fun r => includes (Platform.haystack_of_record ops aliases r)
                          (ops_toLowerCase ops (ops_trim ops query)))
         (Platform.getAllCurrencyEntries ops data aliases)).
Proof.
  intros N. unfold Platform.findCurrenciesByName.
  apply truthy_true in N. rewrite N. cbn [negb].
  rewrite findCurrenciesByName_loop. cbn [app].
  rewrite platform_haystack_structure.
  apply (lookup_matching (Platform.haystack_of ops aliases)).
  - apply platform_keys_nodup.
  - apply platform_stored_key.
  - apply incl_refl.
Qed.

Lemma platform_exact_name_match_iff q r :
  Platform.exact_name_match ops aliases q r = true
  <-> ops_toLowerCase ops (currencyName r) = q
      \/ exists a, In a (or_empty (aliases (currencyCode r)))
                   /\ ops_toLowerCase ops a = q.
Proof.
  unfold Platform.exact_name_match.
  rewrite orb_true_iff, String.eqb_eq, existsb_exists.
  split; (intros [H|(a & I & E)]; [now left | right; exists a; split; [exact I|]]).
  - now apply String.eqb_eq.
  - now apply String.eqb_eq.
Qed.

Lemma platform_exacts_of_includes q r :
  array_includes (Platform.exacts_of ops aliases r (currencyCode r)) q
  = Platform.exact_name_match ops aliases q r.
Proof.
  apply eq_true_iff_eq.
  rewrite array_includes_In, platform_exact_name_match_iff.
  unfold Platform.exacts_of. simpl.
  rewrite in_map_iff. split.
  - intros [H|(a & E & I)]; eauto.
  - intros [H|(a & I & E)]; eauto.
Qed.

Lemma platform_exact_hits_all data q :
  flat_map
    (fun code =>
       match JsMap.get code (Platform.codeToCurrency ops data aliases) with
       | Some entry =>
           if array_includes (Platform.exacts_of ops aliases entry code) q
           then [entry] else []
       | None => []
       end)
    (JsMap.keys (Platform.codeToCurrency ops data aliases))
  = filter (Platform.exact_name_match ops aliases q)
      (Platform.getAllCurrencyEntries ops data aliases).
Proof.
  unfold JsMap.keys, Platform.getAllCurrencyEntries, JsMap.values.
  rewrite <- flat_map_filter, !flat_map_concat_map, !map_map. f_equal.
  apply map_ext_in. intros [k r] I. cbn [fst snd].
  rewrite (get_of_nodup k r _ (platform_keys_nodup data) I).
  apply platform_stored_key in I as <-. now rewrite platform_exacts_of_includes.
Qed.

Lemma platform_getCurrenciesByExactName_filter data name :
  name <> "" ->
  Platform.getCurrenciesByExactName ops data aliases name
  = inr (filter (Platform.exact_name_match ops aliases
                   (ops_toLowerCase ops (ops_trim ops name)))
           (Platform.getAllCurrencyEntries ops data aliases)).
Proof.
  intros N. unfold Platform.getCurrenciesByExactName.
  apply truthy_true in N. rewrite N. cbn [negb].
  change (ret []) with (@inr JsError (list CurrencyRecord) []).
  refine (eq_trans
            (exact_name_loop
               (fun entry code =>
                  array_includes (Platform.exacts_of ops aliases entry code)
                    (ops_toLowerCase ops (ops_trim ops name)))
               (Platform.codeToCurrency ops data aliases)
               (Platform.nameHaystackByCode ops data aliases) [] _) _).
  - intros k. rewrite platform_haystack_keys. apply has_In_keys.
  - cbn [app]. now rewrite platform_haystack_keys, platform_exact_hits_all.
Qed.

(** With [lowers_around_bar], a name or an alias that contains [q] once
    lower-cased puts [q] in the haystack. *)
Lemma platform_join_includes l a q :
  lowers_around_bar ops ->
  In a l -> includes (ops_toLowerCase ops a) q = true ->
  includes (ops_toLowerCase ops (join "|" l)) q = true.
Proof.
  intros L. induction l as [|x l IH]; [intros []|]. intros I H.
  destruct l as [|y l].
  - destruct I as [->|[]]. exact H.
  - change (join "|" (x :: y :: l)) with (x ++ "|" ++ join "|" (y :: l)).
    rewrite L. destruct I as [->|I].
    + now apply includes_app_l.
    + apply includes_app_r, includes_app_r. now apply IH.
Qed.

Lemma platform_haystack_includes r q :
  lowers_around_bar ops ->
  (includes (ops_toLowerCase ops (currencyName r)) q = true
   \/ exists a, In a (or_empty (aliases (currencyCode r)))
                /\ includes (ops_toLowerCase ops a) q = true) ->
  includes (Platform.haystack_of_record ops aliases r) q = true.
Proof.
  intros L H. unfold Platform.haystack_of_record, Platform.haystack_of.
  rewrite L. destruct H as [H|(a & I & H)].
  - now apply includes_app_l.
  - apply includes_app_r, includes_app_r.
    now apply (platform_join_includes _ a).
Qed.

End PlatformFacts.

(** ** Exact names *)

(** C7. For a non-empty name, [getCurrenciesByExactName] returns, without
    throwing and in index order, exactly the stored records whose canonical
    name or one of whose aliases equals the trimmed query once both are
    lower-cased, whatever the platform's [trim] and [toLowerCase] do with
    the text; a record whose name only contains the query, none of its names
    being equal to it, is left out. *)
Theorem getCurrenciesByExactName_case_insensitive :
  forall (ops : StringOps) (data : list RawEntry) (aliases : AliasTable)
         (name : string),
    name <> "" ->
    exists results,
      Platform.getCurrenciesByExactName ops data aliases name = inr results
      /\ results
         = filter (Platform.exact_name_match ops aliases
                     (ops_toLowerCase ops (ops_trim ops name)))
             (Platform.getAllCurrencyEntries ops data aliases)
      /\ (forall r,
            In r results <->
            In r (Platform.getAllCurrencyEntries ops data aliases)
            /\ (ops_toLowerCase ops (currencyName r)
                = ops_toLowerCase ops (ops_trim ops name)
                \/ exists a, In a (or_empty (aliases (currencyCode r)))
                             /\ ops_toLowerCase ops a
                                = ops_toLowerCase ops (ops_trim ops name)))
      /\ (forall r,
            includes (ops_toLowerCase ops (currencyName r))
              (ops_toLowerCase ops (ops_trim ops name)) = true ->
            ops_toLowerCase ops (currencyName r)
            <> ops_toLowerCase ops (ops_trim ops name) ->
            (forall a, In a (or_empty (aliases (currencyCode r))) ->
                       ops_toLowerCase ops a
                       <> ops_toLowerCase ops (ops_trim ops name)) ->
            ~ In r results).
Proof.
  intros ops data aliases name N. eexists. split; [|split; [reflexivity|]].
  - now apply platform_getCurrenciesByExactName_filter.
  - split.
    + intros r. rewrite filter_In, platform_exact_name_match_iff. reflexivity.
    + intros r _ Hn Ha I. apply filter_In in I as [_ M].
      apply platform_exact_name_match_iff in M as [E|(a & Ia & E)]; [now apply Hn|].
      now apply (Ha a Ia).
Qed.

Lemma getCurrenciesByExactName_case_insensitive_witness :
  exists results,
    Platform.getCurrenciesByExactName SampleLatin.ops SampleLatin.data
      SampleLatin.aliases " COLÓN" = inr results
    /\ In (Platform.normalized_entry SampleLatin.ops SampleLatin.crc) results
    /\ ~ In (Platform.normalized_entry SampleLatin.ops SampleLatin.svc) results.
Proof.
  destruct (getCurrenciesByExactName_case_insensitive SampleLatin.ops SampleLatin.data
              SampleLatin.aliases " COLÓN")
    as (results & E & _ & M & X).
  - discriminate.
  - exists results. split; [exact E|]. split.
    + apply M. split.
      * vm_compute. left. reflexivity.
      * right. exists "Colón". split; [vm_compute; tauto | reflexivity].
    + apply X.
      * reflexivity.
      * vm_compute. discriminate.
      * intros a [].
Defined.

(** ** Substring search over any platform *)

(** X8. For a non-empty query, [findCurrenciesByName] returns, in index
    order and without undefined entries, exactly the stored records whose
    haystack (the name, a bar and the aliases joined by bars, lower-cased by
    the platform) contains the query, trimmed and lower-cased by the
    platform. *)
Theorem findCurrenciesByName_matches :
  forall (ops : StringOps) (data : list RawEntry) (aliases : AliasTable)
         (query : string),
    query <> "" ->
    Platform.findCurrenciesByName ops data aliases query
    = map Some
        (filter (fun r =>
                   includes
                     (ops_toLowerCase ops
                        (currencyName r ++ "|"
                         ++ join "|" (or_empty (aliases (currencyCode r)))))
                     (ops_toLowerCase ops (ops_trim ops query)))
           (Platform.getAllCurrencyEntries ops data aliases))
    /\ ~ In None (Platform.findCurrenciesByName ops data aliases query)
    /\ (forall r, In (Some r) (Platform.findCurrenciesByName ops data aliases query)
                  <-> In r (Platform.getAllCurrencyEntries ops data aliases)
                      /\ includes (Platform.haystack_of_record ops aliases r)
                           (ops_toLowerCase ops (ops_trim ops query)) = true).
Proof.
  intros ops data aliases query N.
  rewrite (platform_findCurrenciesByName_filter ops aliases data query N).
  split; [reflexivity|]. split.
  - intros I. apply in_map_iff in I as (r & E & _). discriminate.
  - intros r. split.
    + intros I. apply in_map_iff in I as (r' & [= ->] & I).
      exact (proj1 (filter_In _ _ _) I).
    + intros I. apply in_map. exact (proj2 (filter_In _ _ _) I).
Qed.

Lemma findCurrenciesByName_matches_witness :
  In (Some (Platform.normalized_entry SampleLatin.ops SampleLatin.stn))
    (Platform.findCurrenciesByName SampleLatin.ops SampleLatin.data SampleLatin.aliases
       " TOMÉ and ").
Proof.
  destruct (findCurrenciesByName_matches SampleLatin.ops SampleLatin.data
              SampleLatin.aliases " TOMÉ and ")
    as (_ & _ & M); [discriminate|].
  apply M. split; [vm_compute; tauto | reflexivity].
Defined.

Lemma latin_lower_cons c r :
  SampleLatin.lower (String c r)
  = if Ascii.eqb c (ascii_of_nat 195) then
      match r with
      | EmptyString => String c EmptyString
      | String d r' => String c (String (SampleLatin.lower_second d) (SampleLatin.lower r'))
      end
    else String (lower_char c) (SampleLatin.lower r).
Proof. reflexivity. Qed.

(** The sample platform lower-cases the two sides of a bar separately. *)
Lemma latin_lower_bar b : forall a,
  SampleLatin.lower (a ++ "|" ++ b) = SampleLatin.lower a ++ "|" ++ SampleLatin.lower b
  /\ forall c,
       SampleLatin.lower (String c a ++ "|" ++ b)
       = SampleLatin.lower (String c a) ++ "|" ++ SampleLatin.lower b.
Proof.
  induction a as [|d a [IH1 IH2]].
  - split; [reflexivity|]. intros c. simpl.
    destruct (Ascii.eqb c (ascii_of_nat 195)); reflexivity.
  - split; [apply IH2|]. intros c.
    change (String c (String d a) ++ "|" ++ b)
      with (String c (String d (a ++ "|" ++ b))).
    rewrite (latin_lower_cons c (String d (a ++ "|" ++ b))).
    rewrite (latin_lower_cons c (String d a)).
    destruct (Ascii.eqb c (ascii_of_nat 195)).
    + rewrite IH1. reflexivity.
    + pose proof (IH2 d) as H.
      change (String d a ++ "|" ++ b) with (String d (a ++ "|" ++ b)) in H.
      rewrite H. reflexivity.
Qed.

Lemma latin_ops_lowers_around_bar : lowers_around_bar SampleLatin.ops.
Proof. intros a b. exact (proj1 (latin_lower_bar b a)). Qed.

Lemma ascii_ops_lowers_around_bar : lowers_around_bar ascii_ops.
Proof.
  intros a b. cbn [ops_toLowerCase ascii_ops].
  now rewrite !IncludesFacts.toLowerCase_app.
Qed.

Lemma ascii_ops_trims_ascii_padding : trims_ascii_padding ascii_ops.
Proof. intros pre s post Wpre Wpost. now apply trim_padding. Qed.

Lemma latin_ops_trims_ascii_padding : trims_ascii_padding SampleLatin.ops.
Proof. intros pre s post Wpre Wpost. now apply trim_padding. Qed.

(** X9. On a platform whose lower-casing treats the two sides of a bar
    separately, a stored record whose name, or one of whose aliases,
    contains the trimmed query once both are lower-cased is among the
    results of [findCurrenciesByName]. *)
Theorem findCurrenciesByName_finds_names_and_aliases :
  forall (ops : StringOps) (data : list RawEntry) (aliases : AliasTable)
         (query : string) (r : CurrencyRecord),
    lowers_around_bar ops ->
    query <> "" ->
    In r (Platform.getAllCurrencyEntries ops data aliases) ->
    (includes (ops_toLowerCase ops (currencyName r))
       (ops_toLowerCase ops (ops_trim ops query)) = true
     \/ exists a, In a (or_empty (aliases (currencyCode r)))
                  /\ includes (ops_toLowerCase ops a)
                       (ops_toLowerCase ops (ops_trim ops query)) = true) ->
    In (Some r) (Platform.findCurrenciesByName ops data aliases query).
Proof.
  intros ops data aliases query r L N I H.
  rewrite (platform_findCurrenciesByName_filter ops aliases data query N).
  apply in_map, filter_In. split; [exact I|].
  now apply platform_haystack_includes.
Qed.

Lemma findCurrenciesByName_finds_names_and_aliases_witness :
  In (Some (Platform.normalized_entry SampleLatin.ops SampleLatin.crc))
    (Platform.findCurrenciesByName SampleLatin.ops SampleLatin.data SampleLatin.aliases
       "OLÓ").
Proof.
  apply (findCurrenciesByName_finds_names_and_aliases SampleLatin.ops SampleLatin.data
           SampleLatin.aliases "OLÓ"
           (Platform.normalized_entry SampleLatin.ops SampleLatin.crc)).
  - exact latin_ops_lowers_around_bar.
  - discriminate.
  - vm_compute. tauto.
  - right. exists "Colón". split; [vm_compute; tauto | reflexivity].
Defined.

(** X10. [findCurrenciesByName] depends on a non-empty query only through
    its trimmed, lower-cased form, and ASCII white space around the query
    does not count: two queries whose trimmed forms are equal once
    lower-cased by the platform get the same answer, however the first is
    padded. *)
Theorem findCurrenciesByName_ignores_case_and_padding :
  forall (ops : StringOps) (data : list RawEntry) (aliases : AliasTable)
         (s s' pre post : string),
    trims_ascii_padding ops ->
    s <> "" -> s' <> "" ->
    ops_toLowerCase ops (ops_trim ops s) = ops_toLowerCase ops (ops_trim ops s') ->
    all_chars is_ws pre = true ->
    all_chars is_ws post = true ->
    Platform.findCurrenciesByName ops data aliases (pre ++ s ++ post)
    = Platform.findCurrenciesByName ops data aliases s'.
Proof.
  intros ops data aliases s s' pre post T N N' E Wpre Wpost.
  assert (Np : pre ++ s ++ post <> "").
  { destruct pre; simpl; [|discriminate]. destruct s; simpl; [congruence | discriminate]. }
  rewrite (platform_findCurrenciesByName_filter ops aliases data _ Np).
  rewrite (platform_findCurrenciesByName_filter ops aliases data _ N').
  rewrite (T pre s post Wpre Wpost), E. reflexivity.
Qed.

Lemma findCurrenciesByName_ignores_case_and_padding_witness :
  Platform.findCurrenciesByName SampleLatin.ops SampleLatin.data SampleLatin.aliases
    ("  " ++ "SÃO TOMÉ" ++ " ")
  = Platform.findCurrenciesByName SampleLatin.ops SampleLatin.data SampleLatin.aliases
      "são Tomé".
Proof.
  apply (findCurrenciesByName_ignores_case_and_padding SampleLatin.ops SampleLatin.data
           SampleLatin.aliases "SÃO TOMÉ" "são Tomé" "  " " ");
    [exact latin_ops_trims_ascii_padding | discriminate | discriminate
    | reflexivity | reflexivity | reflexivity].
Defined.

(** ** Flag locators over any platform *)

Lemma all_chars_trimStart p s :
  all_chars p s = true -> all_chars p (trimStart s) = true.
Proof.
  induction s as [|c r IH]; simpl; [reflexivity|]. intros H.
  destruct (is_ws c); [|exact H].
  apply IH. now apply andb_true_iff in H.
Qed.

Lemma all_chars_trimEnd p s :
  all_chars p s = true -> all_chars p (trimEnd s) = true.
Proof.
  induction s as [|c r IH]; simpl; [reflexivity|]. intros H.
  apply andb_true_iff in H as [Hc Hr]. specialize (IH Hr).
  destruct (trimEnd r) as [|d t].
  - destruct (is_ws c); simpl; [reflexivity | now rewrite Hc].
  - simpl in *. now rewrite Hc, IH.
Qed.

Lemma is_ascii_trim s : is_ascii s = true -> is_ascii (trim s) = true.
Proof. intros H. now apply all_chars_trimEnd, all_chars_trimStart. Qed.

Lemma upper_char_ascii c :
  (nat_of_ascii (upper_char c) <? 128)%nat = (nat_of_ascii c <? 128)%nat.
Proof. by_cases_on_char c. Qed.

Lemma is_ascii_toUpperCase s : is_ascii (toUpperCase s) = is_ascii s.
Proof.
  induction s as [|c r IH]; [reflexivity|].
  change (is_ascii (toUpperCase (String c r)))
    with ((nat_of_ascii (upper_char c) <? 128)%nat && is_ascii (toUpperCase r)).
  rewrite upper_char_ascii, IH. reflexivity.
Qed.

Lemma substring_all s : substring 0 (String.length s) s = s.
Proof. induction s as [|c r IH]; simpl; [reflexivity | now rewrite IH]. Qed.

(** The sample resolver puts every flag file under "file:///pkg/flags/". *)
Lemma url_of_resolves_flags : resolves_flags Sample.url_of "file:///pkg/flags/".
Proof.
  intros stem _. unfold Sample.url_of.
  change (startsWith ("../flags/" ++ stem ++ ".svg") "../") with true. cbv iota.
  change (String.length ("../flags/" ++ stem ++ ".svg") - 3)
    with (String.length ("flags/" ++ stem ++ ".svg")).
  change (substring 3 (String.length ("flags/" ++ stem ++ ".svg"))
            ("../flags/" ++ stem ++ ".svg"))
    with (substring 0 (String.length ("flags/" ++ stem ++ ".svg"))
            ("flags/" ++ stem ++ ".svg")).
  rewrite substring_all. reflexivity.
Qed.

Lemma ascii_ops_agrees_on_ascii : agrees_on_ascii ascii_ops.
Proof. intros s _. repeat split. Qed.

Section PlatformFlags.

Variable ops : StringOps.
Variable URL_toString : string -> completion string.

Lemma platform_normalizeCountryCode_ascii a :
  agrees_on_ascii ops -> is_ascii a = true ->
  Platform.normalizeCountryCode ops a = toUpperCase (trim a).
Proof.
  intros A Ia. unfold Platform.normalizeCountryCode.
  destruct (truthy a) eqn:T; cbn [negb].
  - rewrite (proj1 (A a Ia)).
    exact (proj1 (proj2 (A (trim a) (is_ascii_trim a Ia)))).
  - apply truthy_false in T. subst a. reflexivity.
Qed.

Lemma platform_toFlagFilename_ascii a :
  agrees_on_ascii ops -> is_ascii a = true ->
  Platform.toFlagFilename ops a = toLowerCase (trim a) ++ ".svg".
Proof.
  intros A Ia. unfold Platform.toFlagFilename.
  rewrite (platform_normalizeCountryCode_ascii a A Ia).
  assert (Iu : is_ascii (toUpperCase (trim a)) = true)
    by (rewrite is_ascii_toUpperCase; now apply is_ascii_trim).
  rewrite (proj2 (proj2 (A _ Iu))). now rewrite toLowerCase_toUpperCase.
Qed.

Lemma platform_getFlagUrlByCountryCode_truthy code :
  code <> "" ->
  Platform.getFlagUrlByCountryCode ops URL_toString (Some code)
  = match Platform.flagUrlFromCountryCode ops URL_toString code with
    | inr url => inr (Some url)
    | inl _ => inr None
    end.
Proof.
  intros N. unfold Platform.getFlagUrlByCountryCode.
  apply truthy_true in N. rewrite N. cbn [negb].
  now destruct (Platform.flagUrlFromCountryCode ops URL_toString code).
Qed.

(** The locator of an ASCII code whose trimmed, lower-case form is plain. *)
Lemma platform_flag_locator flags_location a :
  agrees_on_ascii ops -> resolves_flags URL_toString flags_location ->
  is_ascii a = true -> url_plain (toLowerCase (trim a)) = true ->
  Platform.flagUrlFromCountryCode ops URL_toString a
  = inr (flags_location ++ toLowerCase (trim a) ++ ".svg").
Proof.
  intros A R Ia P. unfold Platform.flagUrlFromCountryCode.
  rewrite (platform_toFlagFilename_ascii a A Ia). now apply R.
Qed.

Lemma platform_flag_locator_truthy flags_location a :
  agrees_on_ascii ops -> resolves_flags URL_toString flags_location ->
  is_ascii a = true -> url_plain (toLowerCase (trim a)) = true -> a <> "" ->
  Platform.getFlagUrlByCountryCode ops URL_toString (Some a)
  = inr (Some (flags_location ++ toLowerCase (trim a) ++ ".svg")).
Proof.
  intros A R Ia P N. rewrite (platform_getFlagUrlByCountryCode_truthy a N).
  now rewrite (platform_flag_locator flags_location a A R Ia P).
Qed.

End PlatformFlags.

(** C9. [toFlagFilename] is the normalized country code, lower-cased,
    followed by ".svg".  Two inputs with the same normalized code get the
    same file name and the same locator.  On ASCII inputs, which are
    normalized as [JsString] does, two inputs with the same trimmed,
    lower-case form have the same normalized code; and when that form is
    made of letters, digits, hyphens, periods and underscores, the locator
    is the location of the flags directory followed by that form and
    ".svg", for a URL parser that resolves such file names against the
    directory.  So "us", "US" and " Us " all get the locator that ends in
    "us.svg". *)
Theorem flag_locator_case_whitespace_insensitive :
  forall (ops : StringOps) (URL_toString : string -> completion string)
         (flags_location a b : string),
    agrees_on_ascii ops ->
    resolves_flags URL_toString flags_location ->
    Platform.toFlagFilename ops a
    = ops_toLowerCase ops (Platform.normalizeCountryCode ops a) ++ ".svg"
    /\ (Platform.normalizeCountryCode ops a = Platform.normalizeCountryCode ops b ->
        Platform.toFlagFilename ops a = Platform.toFlagFilename ops b
        /\ Platform.flagUrlFromCountryCode ops URL_toString a
           = Platform.flagUrlFromCountryCode ops URL_toString b
        /\ (a <> "" -> b <> "" ->
            Platform.getFlagUrlByCountryCode ops URL_toString (Some a)
            = Platform.getFlagUrlByCountryCode ops URL_toString (Some b)))
    /\ (is_ascii a = true -> is_ascii b = true ->
        toLowerCase (trim a) = toLowerCase (trim b) ->
        Platform.normalizeCountryCode ops a = Platform.normalizeCountryCode ops b)
    /\ (is_ascii a = true -> url_plain (toLowerCase (trim a)) = true ->
        Platform.toFlagFilename ops a = toLowerCase (trim a) ++ ".svg"
        /\ Platform.flagUrlFromCountryCode ops URL_toString a
           = inr (flags_location ++ toLowerCase (trim a) ++ ".svg")
        /\ (a <> "" ->
            Platform.getFlagUrlByCountryCode ops URL_toString (Some a)
            = inr (Some (flags_location ++ toLowerCase (trim a) ++ ".svg"))))
    /\ (Platform.getFlagUrlByCountryCode ops URL_toString (Some "us")
        = inr (Some (flags_location ++ "us.svg"))
        /\ Platform.getFlagUrlByCountryCode ops URL_toString (Some "US")
           = inr (Some (flags_location ++ "us.svg"))
        /\ Platform.getFlagUrlByCountryCode ops URL_toString (Some " Us ")
           = inr (Some (flags_location ++ "us.svg"))).
Proof.
  intros ops URL_toString flags_location a b A R.
  split; [reflexivity|]. split; [|split; [|split]].
  - intros E.
    assert (F : Platform.toFlagFilename ops a = Platform.toFlagFilename ops b)
      by (unfold Platform.toFlagFilename; now rewrite E).
    assert (U : Platform.flagUrlFromCountryCode ops URL_toString a
                = Platform.flagUrlFromCountryCode ops URL_toString b)
      by (unfold Platform.flagUrlFromCountryCode; now rewrite F).
    split; [exact F|]. split; [exact U|]. intros Na Nb.
    rewrite !platform_getFlagUrlByCountryCode_truthy by assumption.
    now rewrite U.
  - intros Ia Ib E.
    rewrite !platform_normalizeCountryCode_ascii by assumption.
    rewrite <- (toUpperCase_toLowerCase (trim a)), <- (toUpperCase_toLowerCase (trim b)).
    now rewrite E.
  - intros Ia P. split; [now apply platform_toFlagFilename_ascii|].
    split; [now apply platform_flag_locator|].
    intros N. now apply platform_flag_locator_truthy.
  - split; [|split].
    + apply (platform_flag_locator_truthy ops URL_toString flags_location "us" A R);
        [reflexivity | reflexivity | discriminate].
    + apply (platform_flag_locator_truthy ops URL_toString flags_location "US" A R);
        [reflexivity | reflexivity | discriminate].
    + apply (platform_flag_locator_truthy ops URL_toString flags_location " Us " A R);
        [reflexivity | reflexivity | discriminate].
Qed.

Lemma flag_locator_case_whitespace_insensitive_witness :
  Platform.flagUrlFromCountryCode ascii_ops Sample.url_of " eU"
  = Platform.flagUrlFromCountryCode ascii_ops Sample.url_of "Eu  "
  /\ Platform.getFlagUrlByCountryCode ascii_ops Sample.url_of (Some " eU")
     = inr (Some "file:///pkg/flags/eu.svg")
  /\ Platform.getFlagUrlByCountryCode ascii_ops Sample.url_of (Some " Us ")
     = inr (Some "file:///pkg/flags/us.svg").
Proof.
  destruct (flag_locator_case_whitespace_insensitive ascii_ops Sample.url_of
              "file:///pkg/flags/" " eU" "Eu  "
              ascii_ops_agrees_on_ascii url_of_resolves_flags)
    as (_ & S & N & L & _ & _ & X).
  split; [|split].
  - apply S. apply N; reflexivity.
  - apply (proj2 (proj2 (L eq_refl eq_refl))). discriminate.
  - exact X.
Defined.

(** ** The dataset as written to [src/data.js] and read back *)

Module DataFileFacts.
Import DataFile.

Example escape_value_runs :
  escape_value "n" = Some line_feed
  /\ escape_value "U" = Some "U"%char
  /\ escape_value quote = Some quote
  /\ escape_value backslash = Some backslash
  /\ escape_value "u" = None.
Proof. repeat split. Qed.

(** An unknown escape stands for its character: the backslash is lost. *)
Example literal_value_runs :
  literal_value "US" = Some "US"
  /\ literal_value "\US" = Some "US"
  /\ literal_value (escape_quotes (String quote "A" ++ String quote " dollar"))
     = Some (String quote "A" ++ String quote " dollar")
  /\ literal_value (String quote "US") = None.
Proof. repeat split. Qed.

Example formatRecord_runs :
  includes (formatRecord (mkRawEntry "USD" "United States dollar" "US" (Some ["\US"])))
    ("primaryCountryCode: " ++ quoted "US" ++ ","
     ++ String line_feed "    otherCountryCodes: [" ++ quoted "\US" ++ "],")
  = true.
Proof. reflexivity. Qed.

Lemma literal_value_safe_code s : safe_code s = true -> literal_value s = Some s.
Proof.
  induction s as [|c r IH]; [reflexivity|].
  unfold safe_code. cbn [all_chars]. intros H.
  apply andb_true_iff in H as [Hc Hr]. apply negb_true_iff in Hc.
  apply orb_false_iff in Hc as [Hc L]. apply orb_false_iff in Hc as [B Q].
  cbn [literal_value]. rewrite B, Q, L. cbn [orb].
  now rewrite (IH Hr).
Qed.

Lemma literal_value_escape_quotes s :
  safe_name s = true -> literal_value (escape_quotes s) = Some s.
Proof.
  induction s as [|c r IH]; [reflexivity|].
  unfold safe_name. cbn [all_chars]. intros H.
  apply andb_true_iff in H as [Hc Hr]. apply negb_true_iff in Hc.
  apply orb_false_iff in Hc as [B L]. specialize (IH Hr).
  cbn [escape_quotes]. destruct (Ascii.eqb c quote) eqn:Q.
  - apply Ascii.eqb_eq in Q. subst c.
    cbn [literal_value]. rewrite Ascii.eqb_refl, IH. reflexivity.
  - cbn [literal_value]. rewrite B, Q, L. cbn [orb]. now rewrite IH.
Qed.

Lemma literal_values_safe l : forallb safe_code l = true -> literal_values l = Some l.
Proof.
  induction l as [|s l IH]; [reflexivity|]. cbn [forallb literal_values]. intros H.
  apply andb_true_iff in H as [Hs Hl].
  now rewrite (literal_value_safe_code s Hs), (IH Hl).
Qed.

Lemma imported_entry_safe r others :
  raw_otherCountryCodes r = Some others ->
  written_safely r = true -> imported_entry r = Some r.
Proof.
  intros O H. unfold written_safely in H. rewrite O in H. cbn [or_empty] in H.
  apply andb_true_iff in H as [H Ho]. apply andb_true_iff in H as [H Hp].
  apply andb_true_iff in H as [Hc Hn].
  unfold imported_entry, written_code, written_name, written_primary, written_others.
  rewrite O. cbn [or_empty].
  rewrite (literal_value_safe_code _ Hc), (literal_value_escape_quotes _ Hn),
    (literal_value_safe_code _ Hp), (literal_values_safe _ Ho).
  destruct r as [c n p o]. cbn in O. now rewrite O.
Qed.

(** Records without a backslash, a line terminator or, in a code, a double
    quote are read back as they were written. *)
Lemma imported_safe records :
  (forall r, In r records -> exists others, raw_otherCountryCodes r = Some others) ->
  forallb written_safely records = true ->
  imported records = Some records.
Proof.
  induction records as [|r records IH]; [reflexivity|]. intros O H.
  cbn [forallb] in H. apply andb_true_iff in H as [Hr H].
  destruct (O r (or_introl eq_refl)) as [others Or].
  cbn [imported]. rewrite (imported_entry_safe r others Or Hr).
  rewrite IH; [reflexivity | | exact H].
  intros r' I. apply O. now right.
Qed.

End DataFileFacts.

Lemma generated_others_present countries codeToName records r :
  Generator.build_records countries codeToName = inr records -> In r records ->
  exists others, raw_otherCountryCodes r = Some others.
Proof.
  intros E I.
  destruct (build_records_inv countries codeToName records r E I) as (code & _ & R).
  rewrite R. eexists. reflexivity.
Qed.

(** The generated records, read back from the file. *)
Lemma generated_dataset_imported countries codeToName records :
  Generator.build_records countries codeToName = inr records ->
  forallb DataFile.written_safely records = true ->
  DataFile.imported records = Some records.
Proof.
  intros E S. apply DataFileFacts.imported_safe; [|exact S].
  intros r I. exact (generated_others_present countries codeToName records r E I).
Qed.


(** X20. A generated dataset whose codes and names hold no backslash and no
    line terminator, and whose codes hold no double quote, is read back from
    [src/data.js] as [build] made it, and loading it changes nothing: the
    index holds the generated records field for field, in their order, so
    [getCurrencyCodes] lists the generated codes in ascending order. *)
Theorem generated_dataset_loads_unchanged :
  forall (countries : list Generator.Country) (codeToName : list (string * string))
         (records : list RawEntry) (aliases : AliasTable),
    Generator.build_records countries codeToName = inr records ->
    forallb DataFile.written_safely records = true ->
    exists loaded,
      DataFile.imported records = Some loaded
      /\ loaded = records
      /\ getAllCurrencyEntries loaded aliases
         = map (fun r => mkCurrencyRecord (raw_currencyCode r) (raw_currencyName r)
                           (raw_primaryCountryCode r) (or_empty (raw_otherCountryCodes r)))
             records
      /\ getCurrencyCodes loaded aliases = map raw_currencyCode records
      /\ ascending (getCurrencyCodes loaded aliases).
Proof.
  intros countries codeToName records aliases E S. exists records.
  split; [exact (generated_dataset_imported countries codeToName records E S)|].
  split; [reflexivity|].
  exact (generated_records_indexed_unchanged countries codeToName records aliases E).
Qed.

Lemma generated_dataset_loads_unchanged_witness :
  exists records loaded,
    Generator.build_records Sample.countries Sample.codeToName = inr records
    /\ DataFile.imported records = Some loaded
    /\ getCurrencyCodes loaded Sample.aliases = map raw_currencyCode records.
Proof.
  destruct (GeneratorFacts.build_records_total Sample.countries Sample.codeToName)
    as (records & E & _).
  pose proof E as E'. vm_compute in E'. injection E' as <-.
  destruct (generated_dataset_loads_unchanged Sample.countries Sample.codeToName _
              Sample.aliases E)
    as (loaded & I & _ & _ & C & _); [vm_compute; reflexivity|].
  eexists. exists loaded. split; [exact E|]. split; [exact I | exact C].
Defined.

(** X25. In the index loaded from the file written for such a dataset, the
    primary country of a stored record is not among its other countries. *)
Theorem written_dataset_primary_apart :
  forall (countries : list Generator.Country) (codeToName : list (string * string))
         (records : list RawEntry) (aliases : AliasTable),
    Generator.build_records countries codeToName = inr records ->
    forallb DataFile.written_safely records = true ->
    exists loaded,
      DataFile.imported records = Some loaded
      /\ forall stored,
           In stored (getAllCurrencyEntries loaded aliases) ->
           ~ In (primaryCountryCode stored) (otherCountryCodes stored).
Proof.
  intros countries codeToName records aliases E S. exists records.
  split; [exact (generated_dataset_imported countries codeToName records E S)|].
  destruct (GeneratorFacts.build_records_total countries codeToName)
    as (records' & E' & _ & P).
  rewrite E in E'. injection E' as <-.
  intros stored I. unfold getAllCurrencyEntries, JsMap.values in I.
  apply in_map_iff in I as ([k s] & <- & I). cbn [snd].
  apply codeToCurrency_In in I as (_ & e & Ie & ->).
  destruct (P e Ie) as [A N]. exact (normalized_entry_apart e A N).
Qed.

Lemma written_dataset_primary_apart_witness :
  exists records loaded,
    Generator.build_records Sample.countries Sample.codeToName = inr records
    /\ DataFile.imported records = Some loaded
    /\ In (mkCurrencyRecord "USD" "United States dollar" "US" ["EC"])
         (getAllCurrencyEntries loaded Sample.aliases)
    /\ ~ In "US" ["EC"].
Proof.
  destruct (GeneratorFacts.build_records_total Sample.countries Sample.codeToName)
    as (records & E & _).
  pose proof E as E'. vm_compute in E'. injection E' as <-.
  destruct (written_dataset_primary_apart Sample.countries Sample.codeToName _
              Sample.aliases E)
    as (loaded & I & A); [vm_compute; reflexivity|].
  pose proof I as I'. vm_compute in I'. injection I' as <-.
  eexists. eexists. split; [exact E|]. split; [exact I|].
  split; [vm_compute; tauto|].
  apply (A (mkCurrencyRecord "USD" "United States dollar" "US" ["EC"])).
  vm_compute. tauto.
Defined.

(** The dataset of [SampleBackslash] is not of that kind. *)
Example backslash_dataset_not_written_safely :
  exists records,
    Generator.build_records SampleBackslash.countries [] = inr records
    /\ forallb DataFile.written_safely records = false.
Proof. eexists. split; vm_compute; reflexivity. Qed.
